(** * TOMOYO condition engine (security/tomoyo/condition.c)

    A shallow embedding of the condition parser, the interning store and the
    evaluator of security/tomoyo/condition.c, with the properties of the
    specification stated and proved over it. *)

From Stdlib Require Import ZArith Ascii String List Lia Bool.
From stdpp Require Import base list.
Import ListNotations.
Open Scope Z_scope.

(** ** Data model *)

(** [enum tomoyo_conditions_index]: the selectors a clause side can hold.
    The enumeration is declared in common.h; the enumerators are the case
    labels of [tomoyo_condition], in the order of their first appearance
    there, followed by the two sentinels. *)
Inductive tomoyo_conditions_index : Type :=
  | TOMOYO_TASK_UID | TOMOYO_TASK_EUID | TOMOYO_TASK_SUID | TOMOYO_TASK_FSUID
  | TOMOYO_TASK_GID | TOMOYO_TASK_EGID | TOMOYO_TASK_SGID | TOMOYO_TASK_FSGID
  | TOMOYO_TASK_PID | TOMOYO_TASK_PPID
  | TOMOYO_TYPE_IS_SOCKET | TOMOYO_TYPE_IS_SYMLINK | TOMOYO_TYPE_IS_FILE
  | TOMOYO_TYPE_IS_BLOCK_DEV | TOMOYO_TYPE_IS_DIRECTORY
  | TOMOYO_TYPE_IS_CHAR_DEV | TOMOYO_TYPE_IS_FIFO
  | TOMOYO_MODE_SETUID | TOMOYO_MODE_SETGID | TOMOYO_MODE_STICKY
  | TOMOYO_MODE_OWNER_READ | TOMOYO_MODE_OWNER_WRITE
  | TOMOYO_MODE_OWNER_EXECUTE
  | TOMOYO_MODE_GROUP_READ | TOMOYO_MODE_GROUP_WRITE
  | TOMOYO_MODE_GROUP_EXECUTE
  | TOMOYO_MODE_OTHERS_READ | TOMOYO_MODE_OTHERS_WRITE
  | TOMOYO_MODE_OTHERS_EXECUTE
  | TOMOYO_PATH1_UID | TOMOYO_PATH1_GID | TOMOYO_PATH1_INO
  | TOMOYO_PATH1_MAJOR | TOMOYO_PATH1_MINOR | TOMOYO_PATH1_TYPE
  | TOMOYO_PATH1_DEV_MAJOR | TOMOYO_PATH1_DEV_MINOR | TOMOYO_PATH1_PERM
  | TOMOYO_PATH2_UID | TOMOYO_PATH2_GID | TOMOYO_PATH2_INO
  | TOMOYO_PATH2_MAJOR | TOMOYO_PATH2_MINOR | TOMOYO_PATH2_TYPE
  | TOMOYO_PATH2_DEV_MAJOR | TOMOYO_PATH2_DEV_MINOR | TOMOYO_PATH2_PERM
  | TOMOYO_PATH1_PARENT_UID | TOMOYO_PATH1_PARENT_GID
  | TOMOYO_PATH1_PARENT_INO | TOMOYO_PATH1_PARENT_PERM
  | TOMOYO_PATH2_PARENT_UID | TOMOYO_PATH2_PARENT_GID
  | TOMOYO_PATH2_PARENT_INO | TOMOYO_PATH2_PARENT_PERM
  | TOMOYO_MAX_CONDITION_KEYWORD
  | TOMOYO_NUMBER_UNION.

(** The enumerators below [TOMOYO_MAX_CONDITION_KEYWORD], in increasing
    order: the range of the scan [for (i = 0; i < MAX; i++)]. *)
Definition tomoyo_keyword_indices : list tomoyo_conditions_index :=
  [ TOMOYO_TASK_UID; TOMOYO_TASK_EUID; TOMOYO_TASK_SUID; TOMOYO_TASK_FSUID;
    TOMOYO_TASK_GID; TOMOYO_TASK_EGID; TOMOYO_TASK_SGID; TOMOYO_TASK_FSGID;
    TOMOYO_TASK_PID; TOMOYO_TASK_PPID;
    TOMOYO_TYPE_IS_SOCKET; TOMOYO_TYPE_IS_SYMLINK; TOMOYO_TYPE_IS_FILE;
    TOMOYO_TYPE_IS_BLOCK_DEV; TOMOYO_TYPE_IS_DIRECTORY;
    TOMOYO_TYPE_IS_CHAR_DEV; TOMOYO_TYPE_IS_FIFO;
    TOMOYO_MODE_SETUID; TOMOYO_MODE_SETGID; TOMOYO_MODE_STICKY;
    TOMOYO_MODE_OWNER_READ; TOMOYO_MODE_OWNER_WRITE;
    TOMOYO_MODE_OWNER_EXECUTE;
    TOMOYO_MODE_GROUP_READ; TOMOYO_MODE_GROUP_WRITE;
    TOMOYO_MODE_GROUP_EXECUTE;
    TOMOYO_MODE_OTHERS_READ; TOMOYO_MODE_OTHERS_WRITE;
    TOMOYO_MODE_OTHERS_EXECUTE;
    TOMOYO_PATH1_UID; TOMOYO_PATH1_GID; TOMOYO_PATH1_INO;
    TOMOYO_PATH1_MAJOR; TOMOYO_PATH1_MINOR; TOMOYO_PATH1_TYPE;
    TOMOYO_PATH1_DEV_MAJOR; TOMOYO_PATH1_DEV_MINOR; TOMOYO_PATH1_PERM;
    TOMOYO_PATH2_UID; TOMOYO_PATH2_GID; TOMOYO_PATH2_INO;
    TOMOYO_PATH2_MAJOR; TOMOYO_PATH2_MINOR; TOMOYO_PATH2_TYPE;
    TOMOYO_PATH2_DEV_MAJOR; TOMOYO_PATH2_DEV_MINOR; TOMOYO_PATH2_PERM;
    TOMOYO_PATH1_PARENT_UID; TOMOYO_PATH1_PARENT_GID;
    TOMOYO_PATH1_PARENT_INO; TOMOYO_PATH1_PARENT_PERM;
    TOMOYO_PATH2_PARENT_UID; TOMOYO_PATH2_PARENT_GID;
    TOMOYO_PATH2_PARENT_INO; TOMOYO_PATH2_PARENT_PERM ].

(** [enum tomoyo_path_stat_index]: the four path roles.  The parents are
    the odd indices ([if (i & 1)] in [tomoyo_get_attributes]). *)
Inductive tomoyo_path_stat_index : Type :=
  | TOMOYO_PATH1 | TOMOYO_PATH1_PARENT | TOMOYO_PATH2 | TOMOYO_PATH2_PARENT.

(** [struct tomoyo_condition_element]. *)
Record tomoyo_condition_element : Type := {
  left : tomoyo_conditions_index;
  right : tomoyo_conditions_index;
  equals : bool
}.

(** [struct tomoyo_group *]: the address of a number group; the group and
    its members are kept by the group subsystem. *)
Definition tomoyo_group : Type := nat.

(** [struct tomoyo_number_union]: [values[0]], [values[1]] and [group]
    ([None] is the NULL pointer). *)
Record tomoyo_number_union : Type := {
  values0 : Z;
  values1 : Z;
  group : option tomoyo_group
}.

(** [struct tomoyo_condition]: the header followed by the two trailing
    arrays, [condition[condc]] and [values[numbers_count]]. *)
Record struct_tomoyo_condition : Type := {
  head_users : Z;
  size : Z;
  condc : Z;
  numbers_count : Z;
  condition : list tomoyo_condition_element;
  numbers : list tomoyo_number_union
}.

(** [struct inode], the fields read here ([i_sb->s_dev] flattened). *)
Record inode : Type := {
  i_uid : Z; i_gid : Z; i_ino : Z; i_mode : Z; i_sb_s_dev : Z; i_rdev : Z
}.

(** [struct dentry]: its inode (none for a negative dentry) and its parent
    (a root is its own parent). *)
Inductive dentry : Type :=
  | RootDentry (i : option inode)
  | ChildDentry (i : option inode) (d_parent : dentry).

Definition d_inode (d : dentry) : option inode :=
  match d with RootDentry i | ChildDentry i _ => i end.

Definition dget_parent (d : dentry) : dentry :=
  match d with
  | RootDentry _ => d
  | ChildDentry _ p => p
  end.

(** [struct tomoyo_mini_stat]. *)
Record tomoyo_mini_stat : Type := {
  uid : Z; gid : Z; ino : Z; mode : Z; dev : Z; rdev : Z
}.

(** [struct tomoyo_obj_info]; the arrays [stat] and [stat_valid] are
    indexed by the path role. *)
Record tomoyo_obj_info : Type := {
  validate_done : bool;
  stat_valid : tomoyo_path_stat_index -> bool;
  stat : tomoyo_path_stat_index -> tomoyo_mini_stat;
  path1_dentry : option dentry;
  path2_dentry : option dentry
}.

(** [struct tomoyo_request_info]: [r->obj] may be NULL. *)
Record tomoyo_request_info : Type := {
  obj : option tomoyo_obj_info
}.

(** The credentials of [current], as the accessors of the source read
    them. *)
Record task_struct : Type := {
  current_uid : Z; current_euid : Z; current_suid : Z; current_fsuid : Z;
  current_gid : Z; current_egid : Z; current_sgid : Z; current_fsgid : Z;
  tomoyo_sys_getpid : Z; tomoyo_sys_getppid : Z
}.

(** ** Constants of linux/stat.h and linux/kdev_t.h *)

Definition S_IFMT : Z := 61440.    (* 00170000 *)
Definition S_IFSOCK : Z := 49152.  (* 0140000 *)
Definition S_IFLNK : Z := 40960.   (* 0120000 *)
Definition S_IFREG : Z := 32768.   (* 0100000 *)
Definition S_IFBLK : Z := 24576.   (* 0060000 *)
Definition S_IFDIR : Z := 16384.   (* 0040000 *)
Definition S_IFCHR : Z := 8192.    (* 0020000 *)
Definition S_IFIFO : Z := 4096.    (* 0010000 *)
Definition S_ISUID : Z := 2048.    (* 0004000 *)
Definition S_ISGID : Z := 1024.    (* 0002000 *)
Definition S_ISVTX : Z := 512.     (* 0001000 *)
Definition S_IRUSR : Z := 256.     (* 00400 *)
Definition S_IWUSR : Z := 128.     (* 00200 *)
Definition S_IXUSR : Z := 64.      (* 00100 *)
Definition S_IRGRP : Z := 32.      (* 00040 *)
Definition S_IWGRP : Z := 16.      (* 00020 *)
Definition S_IXGRP : Z := 8.       (* 00010 *)
Definition S_IROTH : Z := 4.       (* 00004 *)
Definition S_IWOTH : Z := 2.       (* 00002 *)
Definition S_IXOTH : Z := 1.       (* 00001 *)
Definition S_IALLUGO : Z := 4095.  (* 0007777 *)

Definition MINORBITS : Z := 20.
Definition MAJOR (d : Z) : Z := Z.shiftr d MINORBITS.
Definition MINOR (d : Z) : Z := Z.land d (Z.shiftl 1 MINORBITS - 1).

(** ** Collaborators

    What condition.c takes from the rest of the policy engine: the keyword
    table and the layout of the structures (common.h, common.c), the
    number-or-group literal parser (util.c) and the group membership test
    (group.c). *)
Class Collaborators : Type := {
  (** [tomoyo_condition_keyword[i]], the keyword of selector [i]. *)
  tomoyo_condition_keyword : tomoyo_conditions_index -> string;
  (** [tomoyo_parse_number_union(param, ptr)] on the word at
      [param->data]: the operand stored at [ptr], or failure.  The word
      is NUL-terminated and holds no space, so the call reads it and
      leaves the buffer as it is. *)
  tomoyo_parse_number_union : list ascii -> option tomoyo_number_union;
  (** [tomoyo_number_matches_group(min, max, group)]. *)
  tomoyo_number_matches_group : Z -> Z -> tomoyo_group -> bool;
  (** [sizeof(struct tomoyo_condition)] and of the two array elements. *)
  sizeof_condition : Z;
  sizeof_condition_element : Z;
  sizeof_number_union : Z;
  (** The bytes an array element occupies in memory. *)
  condition_element_bytes : tomoyo_condition_element -> list Z;
  number_union_bytes : tomoyo_number_union -> list Z
}.

(** ** Attribute cache: [tomoyo_get_attributes] *)

Definition set_stat (o : tomoyo_obj_info) (i : tomoyo_path_stat_index)
    (st : tomoyo_mini_stat) : tomoyo_obj_info :=
  let same (j : tomoyo_path_stat_index) : bool :=
    match i, j with
    | TOMOYO_PATH1, TOMOYO_PATH1 | TOMOYO_PATH1_PARENT, TOMOYO_PATH1_PARENT
    | TOMOYO_PATH2, TOMOYO_PATH2 | TOMOYO_PATH2_PARENT, TOMOYO_PATH2_PARENT
      => true
    | _, _ => false
    end in
  {| validate_done := validate_done o;
     stat_valid := fun j => if same j then true else stat_valid o j;
     stat := fun j => if same j then st else stat o j;
     path1_dentry := path1_dentry o;
     path2_dentry := path2_dentry o |}.

(** The part of the loop body after the [switch]: copy the inode's
    attributes into slot [i] and mark it valid. *)
Definition tomoyo_stat_dentry (o : tomoyo_obj_info)
    (i : tomoyo_path_stat_index) (d : dentry) : tomoyo_obj_info :=
  match d_inode d with
  | Some ino_ =>
      set_stat o i
        {| uid := i_uid ino_; gid := i_gid ino_; ino := i_ino ino_;
           mode := i_mode ino_; dev := i_sb_s_dev ino_;
           rdev := i_rdev ino_ |}
  | None => o
  end.

(** One iteration of the loop; the local [dentry] is threaded through. *)
Definition tomoyo_get_attributes_step
    (st : tomoyo_obj_info * option dentry) (i : tomoyo_path_stat_index)
    : tomoyo_obj_info * option dentry :=
  let (o, d) := st in
  match i with
  | TOMOYO_PATH1 =>
      match path1_dentry o with
      | None => (o, None)
      | Some d1 => (tomoyo_stat_dentry o i d1, Some d1)
      end
  | TOMOYO_PATH2 =>
      match path2_dentry o with
      | None => (o, None)
      | Some d2 => (tomoyo_stat_dentry o i d2, Some d2)
      end
  | _ =>
      match d with
      | None => (o, None)
      | Some d0 =>
          let p := dget_parent d0 in
          (tomoyo_stat_dentry o i p, Some p)
      end
  end.

Definition tomoyo_get_attributes (o : tomoyo_obj_info) : tomoyo_obj_info :=
  fst (fold_left tomoyo_get_attributes_step
         [TOMOYO_PATH1; TOMOYO_PATH1_PARENT; TOMOYO_PATH2;
          TOMOYO_PATH2_PARENT]
         (o, None)).

(** ** Evaluator: [tomoyo_condition] *)

(** The first inner [switch]: the path role a path selector reads;
    [None] is [default: goto out]. *)
Definition tomoyo_stat_index (index : tomoyo_conditions_index)
    : option tomoyo_path_stat_index :=
  match index with
  | TOMOYO_PATH1_UID | TOMOYO_PATH1_GID | TOMOYO_PATH1_INO
  | TOMOYO_PATH1_MAJOR | TOMOYO_PATH1_MINOR | TOMOYO_PATH1_TYPE
  | TOMOYO_PATH1_DEV_MAJOR | TOMOYO_PATH1_DEV_MINOR | TOMOYO_PATH1_PERM =>
      Some TOMOYO_PATH1
  | TOMOYO_PATH2_UID | TOMOYO_PATH2_GID | TOMOYO_PATH2_INO
  | TOMOYO_PATH2_MAJOR | TOMOYO_PATH2_MINOR | TOMOYO_PATH2_TYPE
  | TOMOYO_PATH2_DEV_MAJOR | TOMOYO_PATH2_DEV_MINOR | TOMOYO_PATH2_PERM =>
      Some TOMOYO_PATH2
  | TOMOYO_PATH1_PARENT_UID | TOMOYO_PATH1_PARENT_GID
  | TOMOYO_PATH1_PARENT_INO | TOMOYO_PATH1_PARENT_PERM =>
      Some TOMOYO_PATH1_PARENT
  | TOMOYO_PATH2_PARENT_UID | TOMOYO_PATH2_PARENT_GID
  | TOMOYO_PATH2_PARENT_INO | TOMOYO_PATH2_PARENT_PERM =>
      Some TOMOYO_PATH2_PARENT
  | _ => None
  end.

(** The second inner [switch]: the field of the snapshot a path selector
    reads ([value] keeps its initial 0 when no case applies). *)
Definition tomoyo_stat_value (index : tomoyo_conditions_index)
    (st : tomoyo_mini_stat) : Z :=
  match index with
  | TOMOYO_PATH1_UID | TOMOYO_PATH2_UID
  | TOMOYO_PATH1_PARENT_UID | TOMOYO_PATH2_PARENT_UID => uid st
  | TOMOYO_PATH1_GID | TOMOYO_PATH2_GID
  | TOMOYO_PATH1_PARENT_GID | TOMOYO_PATH2_PARENT_GID => gid st
  | TOMOYO_PATH1_INO | TOMOYO_PATH2_INO
  | TOMOYO_PATH1_PARENT_INO | TOMOYO_PATH2_PARENT_INO => ino st
  | TOMOYO_PATH1_MAJOR | TOMOYO_PATH2_MAJOR => MAJOR (dev st)
  | TOMOYO_PATH1_MINOR | TOMOYO_PATH2_MINOR => MINOR (dev st)
  | TOMOYO_PATH1_TYPE | TOMOYO_PATH2_TYPE => Z.land (mode st) S_IFMT
  | TOMOYO_PATH1_DEV_MAJOR | TOMOYO_PATH2_DEV_MAJOR => MAJOR (rdev st)
  | TOMOYO_PATH1_DEV_MINOR | TOMOYO_PATH2_DEV_MINOR => MINOR (rdev st)
  | TOMOYO_PATH1_PERM | TOMOYO_PATH2_PERM
  | TOMOYO_PATH1_PARENT_PERM | TOMOYO_PATH2_PARENT_PERM =>
      Z.land (mode st) S_IALLUGO
  | _ => 0
  end.

(** [if (!obj->validate_done) { tomoyo_get_attributes(obj);
    obj->validate_done = true; }] *)
Definition tomoyo_validate (o : tomoyo_obj_info) : tomoyo_obj_info :=
  if validate_done o then o
  else
    let o' := tomoyo_get_attributes o in
    {| validate_done := true;
       stat_valid := stat_valid o';
       stat := stat o';
       path1_dentry := path1_dentry o';
       path2_dentry := path2_dentry o' |}.

(** The outer [switch (index)] of the [j] loop: the value of one clause
    side, with the object as the lookup leaves it; the value [None] is
    [goto out]. *)
Definition tomoyo_side_value (cur : task_struct)
    (o : option tomoyo_obj_info) (index : tomoyo_conditions_index)
    : option tomoyo_obj_info * option Z :=
  match index with
  | TOMOYO_TASK_UID => (o, Some (current_uid cur))
  | TOMOYO_TASK_EUID => (o, Some (current_euid cur))
  | TOMOYO_TASK_SUID => (o, Some (current_suid cur))
  | TOMOYO_TASK_FSUID => (o, Some (current_fsuid cur))
  | TOMOYO_TASK_GID => (o, Some (current_gid cur))
  | TOMOYO_TASK_EGID => (o, Some (current_egid cur))
  | TOMOYO_TASK_SGID => (o, Some (current_sgid cur))
  | TOMOYO_TASK_FSGID => (o, Some (current_fsgid cur))
  | TOMOYO_TASK_PID => (o, Some (tomoyo_sys_getpid cur))
  | TOMOYO_TASK_PPID => (o, Some (tomoyo_sys_getppid cur))
  | TOMOYO_TYPE_IS_SOCKET => (o, Some S_IFSOCK)
  | TOMOYO_TYPE_IS_SYMLINK => (o, Some S_IFLNK)
  | TOMOYO_TYPE_IS_FILE => (o, Some S_IFREG)
  | TOMOYO_TYPE_IS_BLOCK_DEV => (o, Some S_IFBLK)
  | TOMOYO_TYPE_IS_DIRECTORY => (o, Some S_IFDIR)
  | TOMOYO_TYPE_IS_CHAR_DEV => (o, Some S_IFCHR)
  | TOMOYO_TYPE_IS_FIFO => (o, Some S_IFIFO)
  | TOMOYO_MODE_SETUID => (o, Some S_ISUID)
  | TOMOYO_MODE_SETGID => (o, Some S_ISGID)
  | TOMOYO_MODE_STICKY => (o, Some S_ISVTX)
  | TOMOYO_MODE_OWNER_READ => (o, Some S_IRUSR)
  | TOMOYO_MODE_OWNER_WRITE => (o, Some S_IWUSR)
  | TOMOYO_MODE_OWNER_EXECUTE => (o, Some S_IXUSR)
  | TOMOYO_MODE_GROUP_READ => (o, Some S_IRGRP)
  | TOMOYO_MODE_GROUP_WRITE => (o, Some S_IWGRP)
  | TOMOYO_MODE_GROUP_EXECUTE => (o, Some S_IXGRP)
  | TOMOYO_MODE_OTHERS_READ => (o, Some S_IROTH)
  | TOMOYO_MODE_OTHERS_WRITE => (o, Some S_IWOTH)
  | TOMOYO_MODE_OTHERS_EXECUTE => (o, Some S_IXOTH)
  | TOMOYO_NUMBER_UNION => (o, Some 0) (* Fetch values later. *)
  | _ =>
      match o with
      | None => (None, None)
      | Some ob =>
          let ob := tomoyo_validate ob in
          match tomoyo_stat_index index with
          | None => (Some ob, None)
          | Some stat_index =>
              if stat_valid ob stat_index
              then (Some ob,
                    Some (tomoyo_stat_value index (stat ob stat_index)))
              else (Some ob, None)
          end
      end
  end.

(** The second [switch (index)] of the [j] loop: [is_bitop[j]]. *)
Definition tomoyo_is_bitop (index : tomoyo_conditions_index) : bool :=
  match index with
  | TOMOYO_MODE_SETUID | TOMOYO_MODE_SETGID | TOMOYO_MODE_STICKY
  | TOMOYO_MODE_OWNER_READ | TOMOYO_MODE_OWNER_WRITE
  | TOMOYO_MODE_OWNER_EXECUTE
  | TOMOYO_MODE_GROUP_READ | TOMOYO_MODE_GROUP_WRITE
  | TOMOYO_MODE_GROUP_EXECUTE
  | TOMOYO_MODE_OTHERS_READ | TOMOYO_MODE_OTHERS_WRITE
  | TOMOYO_MODE_OTHERS_EXECUTE => true
  | _ => false
  end.

(** The four case labels of the [switch (right)] / [switch (left)] of the
    bit test. *)
Definition tomoyo_is_perm (index : tomoyo_conditions_index) : bool :=
  match index with
  | TOMOYO_PATH1_PERM | TOMOYO_PATH1_PARENT_PERM
  | TOMOYO_PATH2_PERM | TOMOYO_PATH2_PARENT_PERM => true
  | _ => false
  end.

Definition is_number_union (index : tomoyo_conditions_index) : bool :=
  match index with TOMOYO_NUMBER_UNION => true | _ => false end.

(** How one iteration of the clause loop ends: [continue] with the operand
    pointer advanced, [goto out], or a read of [*numbers_p] past the last
    operand of the array. *)
Inductive clause_result : Type :=
  | Continue (numbers_p : list tomoyo_number_union)
  | Out
  | BadRead.

(** The unsigned comparison [(min0 <= max1 && max0 >= min1)]. *)
Definition ranges_overlap (min0 max0 min1 max1 : Z) : bool :=
  (min0 <=? max1) && (max0 >=? min1).

(** Lines 542-547: the interval of the left side, [v0] unless the side is
    an operand, which is then fetched from [numbers_p]; [None] is a read
    past the last operand. *)
Definition tomoyo_fetch_left (index : tomoyo_conditions_index) (v0 : Z)
    (numbers_p : list tomoyo_number_union)
    : option (Z * Z * list tomoyo_number_union) :=
  if is_number_union index then
    match numbers_p with
    | ptr :: rest => Some (values0 ptr, values1 ptr, rest)
    | [] => None
    end
  else Some (v0, v0, numbers_p).

Section Evaluator.
Context `{Collaborators}.

(** Lines 542-593: the tests on the two resolved sides, [v0] and [v1],
    of the clause [c], with [numbers_p] the operands not yet consumed. *)
Definition tomoyo_compare (c : tomoyo_condition_element) (v0 v1 : Z)
    (numbers_p : list tomoyo_number_union) : clause_result :=
  let match_ := equals c in
  let is_bitop0 := tomoyo_is_bitop (left c) in
  let is_bitop1 := tomoyo_is_bitop (right c) in
  (* if (left == TOMOYO_NUMBER_UNION) *)
  match tomoyo_fetch_left (left c) v0 numbers_p with
  | None => BadRead
  | Some (min0, max0, numbers_p) =>
      if is_number_union (right c) then
        match numbers_p with
        | [] => BadRead
        | ptr :: rest =>
            match group ptr with
            | Some g =>
                if Bool.eqb (tomoyo_number_matches_group min0 max0 g) match_
                then Continue rest else Out
            | None =>
                if Bool.eqb
                     (ranges_overlap min0 max0 (values0 ptr) (values1 ptr))
                     match_
                then Continue rest else Out
            end
        end
      else if is_bitop0 && is_bitop1 then Out
      else if is_bitop0 then
        if tomoyo_is_perm (right c)
           && Bool.eqb (Z.land max0 v1 =? 0) (negb match_)
        then Continue numbers_p else Out
      else if is_bitop1 then
        if tomoyo_is_perm (left c)
           && Bool.eqb (Z.land max0 v1 =? 0) (negb match_)
        then Continue numbers_p else Out
      else
        (* Normal value range comparison. *)
        if Bool.eqb (ranges_overlap min0 max0 v1 v1) match_
        then Continue numbers_p else Out
  end.

(** The body of [for (i = 0; i < condc; i++)] for the clause [c]: the [j]
    loop resolves the left side, then the right one, and the tests
    follow. *)
Definition tomoyo_condition_clause (cur : task_struct)
    (o : option tomoyo_obj_info) (numbers_p : list tomoyo_number_union)
    (c : tomoyo_condition_element)
    : option tomoyo_obj_info * clause_result :=
  (* j = 0 *)
  match tomoyo_side_value cur o (left c) with
  | (o, None) => (o, Out)
  | (o, Some v0) =>
      (* j = 1 *)
      match tomoyo_side_value cur o (right c) with
      | (o, None) => (o, Out)
      | (o, Some v1) => (o, tomoyo_compare c v0 v1 numbers_p)
      end
  end.

(** The clause loop: [n] iterations remain, [condp] and [numbers_p] are the
    unread parts of the two arrays.  The result is [None] when the loop
    reads past the end of an array. *)
Fixpoint tomoyo_condition_loop (cur : task_struct) (n : nat)
    (o : option tomoyo_obj_info)
    (condp : list tomoyo_condition_element)
    (numbers_p : list tomoyo_number_union)
    : option tomoyo_obj_info * option bool :=
  match n with
  | O => (o, Some true)
  | S n' =>
      match condp with
      | [] => (o, None)
      | c :: condp' =>
          match tomoyo_condition_clause cur o numbers_p c with
          | (o', Continue numbers_p') =>
              tomoyo_condition_loop cur n' o' condp' numbers_p'
          | (o', Out) => (o', Some false)
          | (o', BadRead) => (o', None)
          end
      end
  end.

(** [tomoyo_condition(r, cond)]: the request as the evaluation leaves it and
    the value returned. *)
Definition tomoyo_condition (cur : task_struct) (r : tomoyo_request_info)
    (cond : option struct_tomoyo_condition)
    : tomoyo_request_info * option bool :=
  match cond with
  | None => (r, Some true)
  | Some cond =>
      let (o, b) :=
        tomoyo_condition_loop cur (Z.to_nat (condc cond)) (obj r)
          (condition cond) (numbers cond) in
      ({| obj := o |}, b)
  end.

End Evaluator.

(** ** Interning store: [tomoyo_same_condition], [tomoyo_commit_condition] *)

(** [memcmp(p, q, n)] over two blocks of bytes that hold at least [n]
    bytes each: zero iff the first [n] bytes agree. *)
Fixpoint memcmp (p q : list Z) (n : nat) : Z :=
  match n, p, q with
  | S n', x :: p', y :: q' => if x =? y then memcmp p' q' n' else x - y
  | _, _, _ => 0
  end.

(** Arithmetic in [size_t], 32 bits wide on the ARM target of this tree. *)
Definition size_t (x : Z) : Z := x mod 4294967296.

(** [atomic_inc] on the 32-bit signed [atomic_t]. *)
Definition atomic_inc (v : Z) : Z :=
  (v + 1 + 2147483648) mod 4294967296 - 2147483648.

(** The address of an object in memory; an object of the list is kept
    with its address. *)
Definition addr : Type := nat.

(** The policy state this file touches: [tomoyo_condition_list], head
    first, and the blocks handed out by [kzalloc] and given back by
    [kfree]. *)
Record policy_state : Type := {
  tomoyo_condition_list : list (addr * struct_tomoyo_condition);
  allocated : list addr;
  kfreed : list addr
}.

(** What one call meets outside this file: the block [kzalloc] returns (or
    NULL), whether [mutex_lock_interruptible] is interrupted, and the answer
    of [tomoyo_memory_ok]. *)
Record environment : Type := {
  kzalloc : option addr;
  mutex_lock_interruptible : bool;
  tomoyo_memory_ok : struct_tomoyo_condition -> bool
}.

Definition set_users (c : struct_tomoyo_condition) (u : Z)
    : struct_tomoyo_condition :=
  {| head_users := u; size := size c; condc := condc c;
     numbers_count := numbers_count c; condition := condition c;
     numbers := numbers c |}.

(** [tomoyo_del_condition(&entry->head.list); kfree(entry);]
    ([tomoyo_del_condition] drops the group references of the operands,
    which live in the group subsystem). *)
Definition kfree (a : addr) (st : policy_state) : policy_state :=
  {| tomoyo_condition_list := tomoyo_condition_list st;
     allocated := allocated st;
     kfreed := a :: kfreed st |}.

(** The policy state once [kzalloc] has handed out the block at [a]. *)
Definition with_allocated (a : addr) (ps : policy_state) : policy_state :=
  {| tomoyo_condition_list := tomoyo_condition_list ps;
     allocated := a :: allocated ps; kfreed := kfreed ps |}.

Section Store.
Context `{Collaborators}.

(** The bytes that follow the header: the clause array, then the operand
    array. *)
Definition trailing_bytes (c : struct_tomoyo_condition) : list Z :=
  concat (map condition_element_bytes (condition c))
  ++ concat (map number_union_bytes (numbers c)).

Definition tomoyo_same_condition (a b : struct_tomoyo_condition) : bool :=
  (size a =? size b) && (condc a =? condc b)
  && (numbers_count a =? numbers_count b)
  && (memcmp (trailing_bytes a) (trailing_bytes b)
        (Z.to_nat (size_t (size a - sizeof_condition))) =? 0).

(** [list_for_each_entry_rcu]: the first entry equal to [entry] gets its
    user count incremented; the result is its address and the list after
    the increment, or [None] when the scan ends with [found] false. *)
Fixpoint tomoyo_find_condition (l : list (addr * struct_tomoyo_condition))
    (entry : struct_tomoyo_condition)
    : option (addr * list (addr * struct_tomoyo_condition)) :=
  match l with
  | [] => None
  | (p, c) :: l' =>
      if tomoyo_same_condition c entry
      then Some (p, (p, set_users c (atomic_inc (head_users c))) :: l')
      else
        match tomoyo_find_condition l' entry with
        | Some (q, l'') => Some (q, (p, c) :: l'')
        | None => None
        end
  end.

Definition tomoyo_commit_condition (env : environment) (st : policy_state)
    (entry : addr * struct_tomoyo_condition) : option addr * policy_state :=
  if mutex_lock_interruptible env then (None, kfree (fst entry) st)
  else
    match tomoyo_find_condition (tomoyo_condition_list st) (snd entry) with
    | Some (ptr, l') =>
        (Some ptr,
         kfree (fst entry)
           {| tomoyo_condition_list := l';
              allocated := allocated st; kfreed := kfreed st |})
    | None =>
        if tomoyo_memory_ok env (snd entry) then
          (Some (fst entry),
           {| tomoyo_condition_list :=
                (fst entry, set_users (snd entry) 1)
                :: tomoyo_condition_list st;
              allocated := allocated st; kfreed := kfreed st |})
        else (None, kfree (fst entry) st)
    end.

End Store.

(** ** Expression parser: [tomoyo_condition_type], [tomoyo_get_condition] *)

Definition NUL : ascii := Ascii.zero.

Definition is_nul (c : ascii) : bool := Ascii.eqb c NUL.

(** The C string that starts a block of bytes: the bytes before the first
    NUL (the end of the block stands for the terminator). *)
Fixpoint c_string (l : list ascii) : list ascii :=
  match l with
  | [] => []
  | c :: l' => if is_nul c then [] else c :: c_string l'
  end.

(** [*(start_of_string + i)]; the terminator sits at [length buf]. *)
Definition peek (buf : list ascii) (i : nat) : ascii := nth i buf NUL.

(** The C string at [start_of_string + i]. *)
Definition string_at (buf : list ascii) (i : nat) : list ascii :=
  c_string (drop i buf).

Fixpoint index_of (c : ascii) (l : list ascii) : option nat :=
  match l with
  | [] => None
  | x :: l' => if Ascii.eqb x c then Some O else option_map S (index_of c l')
  end.

(** [strchr(start_of_string + i, c)] for a character [c] other than NUL:
    the offset of the first [c] of the C string at [i], or NULL. *)
Definition strchr (buf : list ascii) (i : nat) (c : ascii) : option nat :=
  option_map (Nat.add i) (index_of c (string_at buf i)).

(** [!strcmp(word, keyword)] *)
Definition strcmp_eq (word : list ascii) (keyword : string) : bool :=
  String.eqb (string_of_list_ascii word) keyword.

(** The value of [pos]: a pointer into the buffer, or the literal [""]. *)
Inductive char_ptr : Type :=
  | InBuf (i : nat)
  | EmptyLiteral.

(** Arithmetic on the [u16] counters and on the [u32] size. *)
Definition u16 (x : Z) : Z := x mod 65536.
Definition u32 (x : Z) : Z := x mod 4294967296.

(** The locals of [tomoyo_get_condition] that classifying a clause
    changes: the counters of [e], and [entry].  [condp] and [numbers_p]
    are NULL exactly when [entry] is; otherwise each points just past the
    elements written so far, which are the arrays of [entry] here. *)
Record parse_state : Type := {
  e_condc : Z;
  e_numbers_count : Z;
  entry : option struct_tomoyo_condition
}.

(** How the [while (1)] loop ends: at [break], with the buffer behind
    [param->data] (the [strlen] bytes before its terminator) as the loop
    leaves it, at [goto out], or by a store past the end of an array of
    [entry]; [Exhausted] is the model running out of iterations. *)
Inductive loop_result : Type :=
  | LoopBreak (buf : list ascii) (st : parse_state)
  | GotoOut
  | Overrun
  | Exhausted.

(** How [tomoyo_get_condition] ends: it returns (a pointer or NULL), or
    stops in [BUG_ON], or has written past the block, or the model ran out
    of iterations. *)
Inductive get_result : Type :=
  | Returns (ret : option addr) (st : policy_state)
  | Bug
  | HeapOverrun
  | OutOfFuel.

Definition char_space : ascii := " "%char.
Definition char_eq : ascii := "="%char.
Definition char_not : ascii := "!"%char.
Definition char_at : ascii := "@"%char.

(** Lines 142-158: split the clause at [left_word] off the buffer.  The
    result is the buffer with the NULs written, the next [pos],
    [right_word] and [is_not]; [None] is [goto out]. *)
Definition tomoyo_split_clause (buf : list ascii) (left_word : nat)
    : option (list ascii * char_ptr * nat * bool) :=
  let '(buf, pos) :=
    match strchr buf left_word char_space with
    | Some cp => (<[cp := NUL]> buf, InBuf (S cp))
    | None => (buf, EmptyLiteral)
    end in
  match strchr buf left_word char_eq with
  | None => None
  | Some right_word =>
      if Nat.eqb right_word left_word then None
      else if Ascii.eqb (peek buf (right_word - 1)) char_not
      then Some (<[(right_word - 1)%nat := NUL]> buf, pos, S right_word, true)
      else if negb (Ascii.eqb (peek buf (S right_word)) char_eq)
      then Some (<[right_word := NUL]> buf, pos, S right_word, false)
      else None
  end.

(** Lines 222-235: put back what the dry run overwrote. *)
Fixpoint tomoyo_restore (flag : bool) (l : list ascii) : list ascii :=
  match l with
  | [] => []
  | c :: l' =>
      if is_nul c then
        (if flag then char_space
         else if Ascii.eqb (hd NUL l') char_eq then char_not
         else char_eq) :: tomoyo_restore (negb flag) l'
      else c :: tomoyo_restore flag l'
  end.

Definition set_arrays (c : struct_tomoyo_condition)
    (cs : list tomoyo_condition_element) (ns : list tomoyo_number_union)
    : struct_tomoyo_condition :=
  {| head_users := head_users c; size := size c; condc := condc c;
     numbers_count := numbers_count c; condition := cs; numbers := ns |}.

Section Parser.
Context `{Collaborators}.

Fixpoint tomoyo_condition_scan (l : list tomoyo_conditions_index)
    (word : list ascii) : tomoyo_conditions_index :=
  match l with
  | [] => TOMOYO_MAX_CONDITION_KEYWORD
  | i :: l' =>
      if strcmp_eq word (tomoyo_condition_keyword i) then i
      else tomoyo_condition_scan l' word
  end.

Definition tomoyo_condition_type (word : list ascii)
    : tomoyo_conditions_index :=
  tomoyo_condition_scan tomoyo_keyword_indices word.

Definition is_max_keyword (i : tomoyo_conditions_index) : bool :=
  match i with TOMOYO_MAX_CONDITION_KEYWORD => true | _ => false end.

(** What classifying one side of a clause does (lines 161-176 for the
    left side, 181-193 for the right one): its selector and the state, or
    [goto out], or a store past the operand array. *)
Inductive side_result : Type :=
  | SideOk (index : tomoyo_conditions_index) (st : parse_state)
  | SideOut
  | SideOverrun.

Definition with_counts (st : parse_state) (c n : Z) : parse_state :=
  {| e_condc := c; e_numbers_count := n; entry := entry st |}.

Definition with_entry (st : parse_state) (en : struct_tomoyo_condition)
    : parse_state :=
  {| e_condc := e_condc st; e_numbers_count := e_numbers_count st;
     entry := Some en |}.

Definition tomoyo_parse_side (is_left : bool) (word : list ascii)
    (st : parse_state) : side_result :=
  let index := tomoyo_condition_type word in
  if is_max_keyword index then
    match entry st with
    | None =>
        SideOk index
          (with_counts st (e_condc st) (u16 (e_numbers_count st + 1)))
    | Some en =>
        let st := with_counts st (e_condc st)
                    (u16 (e_numbers_count st - 1)) in
        if is_left && Ascii.eqb (hd NUL word) char_at then SideOut
        else if Z.of_nat (length (numbers en)) <? numbers_count en then
          match tomoyo_parse_number_union word with
          | None => SideOut
          | Some n =>
              SideOk TOMOYO_NUMBER_UNION
                (with_entry st
                   (set_arrays en (condition en) (numbers en ++ [n])))
          end
        else SideOverrun
    end
  else SideOk index st.

(** How one iteration ends once the clause is split: at the end of the
    body (or at [continue]), at [goto out], or by a store past an array. *)
Inductive body_result : Type :=
  | BodyNext (st : parse_state)
  | BodyOut
  | BodyOverrun.

(** Lines 161-205: the rest of the loop body, once the clause is split. *)
Definition tomoyo_parse_clause (left_word right_word : list ascii)
    (is_not : bool) (st : parse_state) : body_result :=
  match tomoyo_parse_side true left_word st with
  | SideOut => BodyOut
  | SideOverrun => BodyOverrun
  | SideOk left_ st =>
      let st :=
        match entry st with
        | None => with_counts st (u16 (e_condc st + 1)) (e_numbers_count st)
        | Some _ =>
            with_counts st (u16 (e_condc st - 1)) (e_numbers_count st)
        end in
      match tomoyo_parse_side false right_word st with
      | SideOut => BodyOut
      | SideOverrun => BodyOverrun
      | SideOk right_ st =>
          match entry st with
          | None => BodyNext st (* dry run: continue *)
          | Some en =>
              if Z.of_nat (length (condition en)) <? condc en then
                BodyNext
                  (with_entry st
                     (set_arrays en
                        (condition en
                         ++ [{| left := left_; right := right_;
                                equals := negb is_not |}])
                        (numbers en)))
              else BodyOverrun
          end
      end
  end.

(** The [while (1)] loop from [rerun:], at most [fuel] iterations, over
    the buffer [buf]. *)
Fixpoint tomoyo_parse_loop (fuel : nat) (pos : char_ptr)
    (buf : list ascii) (st : parse_state) : loop_result :=
  match fuel with
  | O => Exhausted
  | S fuel' =>
      match pos with
      | EmptyLiteral => LoopBreak buf st
      | InBuf left_word =>
          if is_nul (peek buf left_word) then LoopBreak buf st
          else
            match tomoyo_split_clause buf left_word with
            | None => GotoOut
            | Some (b, pos', right_word, is_not) =>
                match
                  tomoyo_parse_clause (string_at b left_word)
                    (string_at b right_word) is_not st
                with
                | BodyNext st' => tomoyo_parse_loop fuel' pos' b st'
                | BodyOut => GotoOut
                | BodyOverrun => Overrun
                end
            end
      end
  end.

(** The first run of the loop, with [entry], [condp] and [numbers_p]
    NULL and [e] zeroed, over the C string at [param->data]. *)
Definition tomoyo_dry_run (data : list ascii) : loop_result :=
  let start_of_string := c_string data in
  tomoyo_parse_loop (S (length start_of_string)) (InBuf 0) start_of_string
    {| e_condc := 0; e_numbers_count := 0; entry := None |}.

(** [tomoyo_get_condition(param)], with [data] the bytes at [param->data]:
    the dry run, the allocation and the restoration, the second run, and
    the commit. *)
Definition tomoyo_get_condition (env : environment) (ps : policy_state)
    (data : list ascii) : get_result :=
  let fuel := S (length (c_string data)) in
  match tomoyo_dry_run data with
  | Exhausted => OutOfFuel
  | Overrun => HeapOverrun
  | GotoOut => Returns None ps
  | LoopBreak buf st =>
      let e_size :=
        u32 (size_t (sizeof_condition
                     + e_condc st * sizeof_condition_element
                     + e_numbers_count st * sizeof_number_union)) in
      match kzalloc env with
      | None => Returns None ps
      | Some a =>
          let ps := with_allocated a ps in
          let en :=
            {| head_users := 0; size := e_size; condc := e_condc st;
               numbers_count := e_numbers_count st;
               condition := []; numbers := [] |} in
          match
            tomoyo_parse_loop fuel (InBuf 0) (tomoyo_restore false buf)
              {| e_condc := e_condc st;
                 e_numbers_count := e_numbers_count st;
                 entry := Some en |}
          with
          | Exhausted => OutOfFuel
          | Overrun => HeapOverrun
          | GotoOut => Returns None (kfree a ps)
          | LoopBreak _ st2 =>
              if Z.lor (e_numbers_count st2) (e_condc st2) =? 0 then
                match entry st2 with
                | Some en2 =>
                    let (ret, ps') :=
                      tomoyo_commit_condition env ps (a, en2) in
                    Returns ret ps'
                | None => Bug
                end
              else Bug
          end
      end
  end.

(** *** The control flow of [tomoyo_get_condition] on its own

    Which exit [tomoyo_get_condition] takes, and which blocks it has
    allocated and freed by then, depends on the line, on [kzalloc] and on
    the counters of [e] only: nothing that the second run stores through
    [condp] and [numbers_p] is read back before the function returns.
    The definitions below follow that control flow and leave the stores
    out; so they also follow it past a store that leaves the block, where
    [tomoyo_get_condition] above stops at [HeapOverrun]. *)

(** Lines 161-176 and 181-193 without the store: the selector of a side
    and the new value of [e.numbers_count], or [None] for [goto out].
    [built] tells whether [numbers_p] is set, that is, whether this is
    the second run. *)
Definition tomoyo_classify_side (built is_left : bool) (word : list ascii)
    (n : Z) : option (tomoyo_conditions_index * Z) :=
  let index := tomoyo_condition_type word in
  if is_max_keyword index then
    if built then
      let n := u16 (n - 1) in
      if is_left && Ascii.eqb (hd NUL word) char_at then None
      else
        match tomoyo_parse_number_union word with
        | None => None
        | Some _ => Some (TOMOYO_NUMBER_UNION, n)
        end
    else Some (index, u16 (n + 1))
  else Some (index, n).

(** Lines 161-205 without the stores: the new values of [e.condc] and
    [e.numbers_count], or [None] for [goto out]. *)
Definition tomoyo_classify_clause (built : bool)
    (left_word right_word : list ascii) (c n : Z) : option (Z * Z) :=
  match tomoyo_classify_side built true left_word n with
  | None => None
  | Some (_, n) =>
      let c := if built then u16 (c - 1) else u16 (c + 1) in
      match tomoyo_classify_side built false right_word n with
      | None => None
      | Some (_, n) => Some (c, n)
      end
  end.

(** How the loop ends when only its control flow is followed: at
    [break], with the buffer and the two counters of [e], or at
    [goto out]; [ClassifyExhausted] is the model running out of
    iterations. *)
Inductive classify_result : Type :=
  | ClassifyBreak (buf : list ascii) (c n : Z)
  | ClassifyOut
  | ClassifyExhausted.

Fixpoint tomoyo_classify_loop (fuel : nat) (built : bool) (pos : char_ptr)
    (buf : list ascii) (c n : Z) : classify_result :=
  match fuel with
  | O => ClassifyExhausted
  | S fuel' =>
      match pos with
      | EmptyLiteral => ClassifyBreak buf c n
      | InBuf left_word =>
          if is_nul (peek buf left_word) then ClassifyBreak buf c n
          else
            match tomoyo_split_clause buf left_word with
            | None => ClassifyOut
            | Some (b, pos', right_word, is_not) =>
                match
                  tomoyo_classify_clause built (string_at b left_word)
                    (string_at b right_word) c n
                with
                | Some (c', n') =>
                    tomoyo_classify_loop fuel' built pos' b c' n'
                | None => ClassifyOut
                end
            end
      end
  end.

(** The exit [tomoyo_get_condition] takes: [return NULL] (at line 213
    or after [out:]) with the policy state at that point, the
    [return tomoyo_commit_condition(entry)] of line 209 with the block
    at [a], or the [BUG_ON] of line 208; [ExitExhausted] is the model
    running out of iterations. *)
Inductive parse_exit : Type :=
  | ExitNull (ps : policy_state)
  | ExitCommit (a : addr) (ps : policy_state)
  | ExitBug
  | ExitExhausted.

Definition tomoyo_get_condition_exit (env : environment)
    (ps : policy_state) (data : list ascii) : parse_exit :=
  let start_of_string := c_string data in
  let fuel := S (length start_of_string) in
  match
    tomoyo_classify_loop fuel false (InBuf 0) start_of_string 0 0
  with
  | ClassifyExhausted => ExitExhausted
  | ClassifyOut => ExitNull ps (* out: with entry NULL *)
  | ClassifyBreak buf c n =>
      match kzalloc env with
      | None => ExitNull ps
      | Some a =>
          let ps := with_allocated a ps in
          match
            tomoyo_classify_loop fuel true (InBuf 0)
              (tomoyo_restore false buf) c n
          with
          | ClassifyExhausted => ExitExhausted
          | ClassifyOut => ExitNull (kfree a ps) (* out: kfree(entry) *)
          | ClassifyBreak _ c2 n2 =>
              if Z.lor n2 c2 =? 0 then ExitCommit a ps else ExitBug
          end
      end
  end.

End Parser.

(** ** Notions used to state the properties *)

(** The operands one clause consumes. *)
Definition operands_needed (c : tomoyo_condition_element) : nat :=
  ((if is_number_union (left c) then 1 else 0)
   + (if is_number_union (right c) then 1 else 0))%nat.

Fixpoint operands_needed_list (cs : list tomoyo_condition_element) : nat :=
  match cs with
  | [] => O
  | c :: cs' => (operands_needed c + operands_needed_list cs')%nat
  end.

(** The arrays of a condition hold what its header announces: [condc]
    clauses, and an operand for every operand selector. *)
Definition arrays_complete (cond : struct_tomoyo_condition) : Prop :=
  condc cond = Z.of_nat (length (condition cond))
  /\ (operands_needed_list (condition cond) <= length (numbers cond))%nat.

(** The object once the attribute cache has been filled. *)
Definition resolved (o : option tomoyo_obj_info) : option tomoyo_obj_info :=
  option_map tomoyo_validate o.

(** A selector reads a path attribute that the request cannot supply: the
    request has no object, or the slot of the path role is not valid once
    the cache is filled. *)
Definition attribute_unavailable (o : option tomoyo_obj_info)
    (index : tomoyo_conditions_index) : bool :=
  match tomoyo_stat_index index with
  | None => false
  | Some stat_index =>
      match o with
      | None => true
      | Some ob => negb (stat_valid (tomoyo_validate ob) stat_index)
      end
  end.

Definition continues (r : clause_result) : bool :=
  match r with Continue _ => true | _ => false end.

Section EvaluatorNotions.
Context `{Collaborators}.

(** The clause [c] succeeds for the request, taken on its own: its
    iteration ends in [continue]. *)
Definition clause_succeeds (cur : task_struct)
    (o : option tomoyo_obj_info) (numbers_p : list tomoyo_number_union)
    (c : tomoyo_condition_element) : bool :=
  continues (snd (tomoyo_condition_clause cur o numbers_p c)).

End EvaluatorNotions.

(** The inode behind a path role of the request, if the role's path node
    is present and backed by an inode. *)
Definition path_role_inode (ob : tomoyo_obj_info)
    (i : tomoyo_path_stat_index) : option inode :=
  match i with
  | TOMOYO_PATH1 =>
      match path1_dentry ob with Some d => d_inode d | None => None end
  | TOMOYO_PATH1_PARENT =>
      match path1_dentry ob with
      | Some d => d_inode (dget_parent d)
      | None => None
      end
  | TOMOYO_PATH2 =>
      match path2_dentry ob with Some d => d_inode d | None => None end
  | TOMOYO_PATH2_PARENT =>
      match path2_dentry ob with
      | Some d => d_inode (dget_parent d)
      | None => None
      end
  end.

(** The cache of the object has not been filled yet. *)
Definition cache_empty (ob : tomoyo_obj_info) : Prop :=
  validate_done ob = false /\ forall i, stat_valid ob i = false.

Section StoreNotions.
Context `{Collaborators}.

(** The block of a condition holds exactly [size] bytes: the header and
    the trailing arrays. *)
Definition block_complete (c : struct_tomoyo_condition) : Prop :=
  0 <= sizeof_condition
  /\ sizeof_condition + Z.of_nat (length (trailing_bytes c)) = size c
  /\ size c < 4294967296.

End StoreNotions.

(** ** Notions used to state the properties of the parser *)

(** The pieces of an expression between its spaces. *)
Fixpoint split_spaces (s : list ascii) : list (list ascii) :=
  match s with
  | [] => [[]]
  | c :: s' =>
      if Ascii.eqb c char_space then [] :: split_spaces s'
      else
        match split_spaces s' with
        | p :: ps => (c :: p) :: ps
        | [] => [[c]]
        end
  end.

(** The clauses of an expression: its pieces, without the empty piece
    that an empty expression or a trailing space leaves at the end. *)
Definition clauses_of (s : list ascii) : list (list ascii) :=
  let ps := split_spaces s in
  match last ps with
  | Some [] => removelast ps
  | _ => ps
  end.

(** Where the operator of a clause sits: the position of the [=] of a
    plain [=] or of the [!] of a [!=], and whether it is [!=].  A clause
    has no operator when it has no [=], when it starts with [=], or when
    its first [=] is a bare [==]. *)
Definition operator_position (w : list ascii) : option (nat * bool) :=
  match index_of char_eq w with
  | None | Some O => None
  | Some (S k) =>
      if Ascii.eqb (nth k w NUL) char_not then Some (k, true)
      else if Ascii.eqb (nth (S (S k)) w NUL) char_eq then None
      else Some (S k, false)
  end.

Definition clause_left (w : list ascii) (i : nat) : list ascii := take i w.

Definition clause_right (w : list ascii) (i : nat) (is_not : bool)
    : list ascii :=
  drop (if is_not then S (S i) else S i) w.

(** [entry] is set: this is the second run. *)
Definition entry_built (st : parse_state) : bool :=
  match entry st with Some _ => true | None => false end.

Section ParserNotions.
Context `{Collaborators}.

(** How the loop ends, read off the list of clauses: each clause is
    split at its operator and handed to [tomoyo_parse_clause]. *)
Inductive clauses_result : Type :=
  | ClausesDone (st : parse_state)
  | ClausesOut
  | ClausesOverrun.

Fixpoint parse_clauses (ws : list (list ascii)) (st : parse_state)
    : clauses_result :=
  match ws with
  | [] => ClausesDone st
  | w :: ws' =>
      match operator_position w with
      | None => ClausesOut
      | Some (i, is_not) =>
          match
            tomoyo_parse_clause (clause_left w i) (clause_right w i is_not)
              is_not st
          with
          | BodyNext st' => parse_clauses ws' st'
          | BodyOut => ClausesOut
          | BodyOverrun => ClausesOverrun
          end
      end
  end.

(** The control flow of the loop read off the list of clauses: the
    counters of [e] when it ends at [break], or [None] for [goto out]. *)
Fixpoint classify_clauses (built : bool) (ws : list (list ascii))
    (c n : Z) : option (Z * Z) :=
  match ws with
  | [] => Some (c, n)
  | w :: ws' =>
      match operator_position w with
      | None => None
      | Some (i, is_not) =>
          match
            tomoyo_classify_clause built (clause_left w i)
              (clause_right w i is_not) c n
          with
          | Some (c', n') => classify_clauses built ws' c' n'
          | None => None
          end
      end
  end.

End ParserNotions.

(** What the split of a clause leaves behind it in the buffer: the space
    that ended the clause is overwritten, and [pos] moves past it (or to
    the literal [""] at the end of the expression). *)
Definition written_tail (tail : list ascii) : list ascii :=
  match tail with
  | [] => []
  | _ :: rest => NUL :: rest
  end.

Definition next_pos (left_word : nat) (w tail : list ascii) : char_ptr :=
  match tail with
  | [] => EmptyLiteral
  | _ :: _ => InBuf (S (left_word + length w))
  end.

Section ParserClauses.
Context `{Collaborators}.

(** [tomoyo_get_condition] read off the list of clauses of the
    expression: the dry run, the allocation, the second run and the
    commit, without the buffer. *)
Definition get_condition_clauses (env : environment) (ps : policy_state)
    (ws : list (list ascii)) : get_result :=
  match
    parse_clauses ws {| e_condc := 0; e_numbers_count := 0; entry := None |}
  with
  | ClausesOverrun => HeapOverrun
  | ClausesOut => Returns None ps
  | ClausesDone st =>
      let e_size :=
        u32 (size_t (sizeof_condition
                     + e_condc st * sizeof_condition_element
                     + e_numbers_count st * sizeof_number_union)) in
      match kzalloc env with
      | None => Returns None ps
      | Some a =>
          let ps := with_allocated a ps in
          let en :=
            {| head_users := 0; size := e_size; condc := e_condc st;
               numbers_count := e_numbers_count st;
               condition := []; numbers := [] |} in
          match
            parse_clauses ws
              {| e_condc := e_condc st;
                 e_numbers_count := e_numbers_count st;
                 entry := Some en |}
          with
          | ClausesOverrun => HeapOverrun
          | ClausesOut => Returns None (kfree a ps)
          | ClausesDone st2 =>
              if Z.lor (e_numbers_count st2) (e_condc st2) =? 0 then
                match entry st2 with
                | Some en2 =>
                    let (ret, ps') :=
                      tomoyo_commit_condition env ps (a, en2) in
                    Returns ret ps'
                | None => Bug
                end
              else Bug
          end
      end
  end.

End ParserClauses.

(** What the second run keeps true between two clauses: the counters of
    [e] tell how many slots of each array are still free, and the clauses
    written so far need exactly the operands written so far. *)
Definition build_invariant (st : parse_state)
    (en : struct_tomoyo_condition) : Prop :=
  entry st = Some en
  /\ condc en < 65536 /\ numbers_count en < 65536
  /\ e_condc st = condc en - Z.of_nat (length (condition en))
  /\ e_numbers_count st
     = numbers_count en - Z.of_nat (length (numbers en))
  /\ operands_needed_list (condition en) = length (numbers en).

(** A clause lacks its operator: it has no [=], or it starts with [=], or
    its first [=] is a bare [==] (followed by [=] and not preceded by
    [!]). *)
Definition clause_lacks_operator (w : list ascii) : Prop :=
  index_of char_eq w = None
  \/ index_of char_eq w = Some O
  \/ exists k, index_of char_eq w = Some (S k)
               /\ nth k w NUL <> char_not
               /\ nth (S (S k)) w NUL = char_eq.

Section ClauseNotions.
Context `{Collaborators}.

(** A word that is not a keyword stands for a numeric-or-group literal. *)
Definition is_literal (word : list ascii) : bool :=
  is_max_keyword (tomoyo_condition_type word).

(** The left side of the clause is a group reference: a literal that
    starts with [@]. *)
Definition left_is_group_reference (w : list ascii) : Prop :=
  exists i is_not,
    operator_position w = Some (i, is_not)
    /\ is_literal (clause_left w i) = true
    /\ hd NUL (clause_left w i) = char_at.

(** The literals among the two sides of a clause, and of a list of
    clauses. *)
Definition clause_literals (w : list ascii) : nat :=
  match operator_position w with
  | None => O
  | Some (i, is_not) =>
      ((if is_literal (clause_left w i) then 1 else 0)
       + (if is_literal (clause_right w i is_not) then 1 else 0))%nat
  end.

Fixpoint literal_count (ws : list (list ascii)) : nat :=
  match ws with
  | [] => O
  | w :: ws' => (clause_literals w + literal_count ws')%nat
  end.

End ClauseNotions.

(** ** A reference instance of the collaborators

    The concrete collaborators used to run the model on examples: the
    keyword table, a decimal literal parser, a table of number groups and
    the layout of the 32-bit target. *)

(** Modelled from the spec: the keyword table [tomoyo_condition_keyword]
    is defined outside condition.c.  The spec names the keywords
    [task.uid] and [path1.uid]; the table gives each selector of the
    closed set its keyword in that scheme. *)
Definition reference_keyword (i : tomoyo_conditions_index) : string :=
  match i with
  | TOMOYO_TASK_UID => "task.uid" | TOMOYO_TASK_EUID => "task.euid"
  | TOMOYO_TASK_SUID => "task.suid" | TOMOYO_TASK_FSUID => "task.fsuid"
  | TOMOYO_TASK_GID => "task.gid" | TOMOYO_TASK_EGID => "task.egid"
  | TOMOYO_TASK_SGID => "task.sgid" | TOMOYO_TASK_FSGID => "task.fsgid"
  | TOMOYO_TASK_PID => "task.pid" | TOMOYO_TASK_PPID => "task.ppid"
  | TOMOYO_TYPE_IS_SOCKET => "socket" | TOMOYO_TYPE_IS_SYMLINK => "symlink"
  | TOMOYO_TYPE_IS_FILE => "file" | TOMOYO_TYPE_IS_BLOCK_DEV => "block"
  | TOMOYO_TYPE_IS_DIRECTORY => "directory"
  | TOMOYO_TYPE_IS_CHAR_DEV => "char" | TOMOYO_TYPE_IS_FIFO => "fifo"
  | TOMOYO_MODE_SETUID => "setuid" | TOMOYO_MODE_SETGID => "setgid"
  | TOMOYO_MODE_STICKY => "sticky"
  | TOMOYO_MODE_OWNER_READ => "owner_read"
  | TOMOYO_MODE_OWNER_WRITE => "owner_write"
  | TOMOYO_MODE_OWNER_EXECUTE => "owner_execute"
  | TOMOYO_MODE_GROUP_READ => "group_read"
  | TOMOYO_MODE_GROUP_WRITE => "group_write"
  | TOMOYO_MODE_GROUP_EXECUTE => "group_execute"
  | TOMOYO_MODE_OTHERS_READ => "others_read"
  | TOMOYO_MODE_OTHERS_WRITE => "others_write"
  | TOMOYO_MODE_OTHERS_EXECUTE => "others_execute"
  | TOMOYO_PATH1_UID => "path1.uid" | TOMOYO_PATH1_GID => "path1.gid"
  | TOMOYO_PATH1_INO => "path1.ino" | TOMOYO_PATH1_MAJOR => "path1.major"
  | TOMOYO_PATH1_MINOR => "path1.minor" | TOMOYO_PATH1_TYPE => "path1.type"
  | TOMOYO_PATH1_DEV_MAJOR => "path1.dev_major"
  | TOMOYO_PATH1_DEV_MINOR => "path1.dev_minor"
  | TOMOYO_PATH1_PERM => "path1.perm"
  | TOMOYO_PATH2_UID => "path2.uid" | TOMOYO_PATH2_GID => "path2.gid"
  | TOMOYO_PATH2_INO => "path2.ino" | TOMOYO_PATH2_MAJOR => "path2.major"
  | TOMOYO_PATH2_MINOR => "path2.minor" | TOMOYO_PATH2_TYPE => "path2.type"
  | TOMOYO_PATH2_DEV_MAJOR => "path2.dev_major"
  | TOMOYO_PATH2_DEV_MINOR => "path2.dev_minor"
  | TOMOYO_PATH2_PERM => "path2.perm"
  | TOMOYO_PATH1_PARENT_UID => "path1.parent.uid"
  | TOMOYO_PATH1_PARENT_GID => "path1.parent.gid"
  | TOMOYO_PATH1_PARENT_INO => "path1.parent.ino"
  | TOMOYO_PATH1_PARENT_PERM => "path1.parent.perm"
  | TOMOYO_PATH2_PARENT_UID => "path2.parent.uid"
  | TOMOYO_PATH2_PARENT_GID => "path2.parent.gid"
  | TOMOYO_PATH2_PARENT_INO => "path2.parent.ino"
  | TOMOYO_PATH2_PARENT_PERM => "path2.parent.perm"
  | TOMOYO_MAX_CONDITION_KEYWORD | TOMOYO_NUMBER_UNION => ""
  end%string.

(** A number group of the reference instance: its name, its address and
    its member intervals. *)
Record number_group : Type := {
  group_name : string;
  group_addr : tomoyo_group;
  group_members : list (Z * Z)
}.

Definition digit_value (c : ascii) : option Z :=
  let n := nat_of_ascii c in
  if ((48 <=? n) && (n <=? 57))%nat then Some (Z.of_nat (n - 48)) else None.

(** The value of the leading decimal digits, the number of digits read and
    the rest of the word. *)
Fixpoint parse_digits (acc : Z) (read : nat) (l : list ascii)
    : Z * nat * list ascii :=
  match l with
  | [] => (acc, read, [])
  | c :: l' =>
      match digit_value c with
      | Some d => parse_digits (acc * 10 + d) (S read) l'
      | None => (acc, read, l)
      end
  end.

Definition find_group (groups : list number_group) (name : list ascii)
    : option number_group :=
  find (fun g => strcmp_eq name (group_name g)) groups.

(** Modelled from the spec: the literal parser is a collaborator of
    condition.c.  It accepts the literals [N], [N-M] and [@group_name] of
    the expression grammar, with [N] and [M] in decimal. *)
Definition reference_parse_number_union (groups : list number_group)
    (word : list ascii) : option tomoyo_number_union :=
  match word with
  | c :: name =>
      if Ascii.eqb c char_at then
        match find_group groups name with
        | Some g =>
            Some {| values0 := 0; values1 := 0;
                    group := Some (group_addr g) |}
        | None => None
        end
      else
        match parse_digits 0 0 word with
        | (_, O, _) => None
        | (v, _, []) => Some {| values0 := v; values1 := v; group := None |}
        | (v, _, d :: rest) =>
            if Ascii.eqb d "-"%char then
              match parse_digits 0 0 rest with
              | (_, O, _) => None
              | (w, _, []) =>
                  if v <=? w
                  then Some {| values0 := v; values1 := w; group := None |}
                  else None
              | _ => None
              end
            else None
        end
  | [] => None
  end.

(** Modelled from the spec: the group membership test is a collaborator;
    it tells whether a member of the group overlaps the interval. *)
Definition reference_matches_group (groups : list number_group)
    (min max : Z) (g : tomoyo_group) : bool :=
  existsb
    (fun gr =>
       Nat.eqb (group_addr gr) g
       && existsb (fun m => ranges_overlap min max (fst m) (snd m))
            (group_members gr))
    groups.

(** The position of a selector in the enumeration. *)
Fixpoint keyword_position (l : list tomoyo_conditions_index)
    (word : string) (n : Z) : Z :=
  match l with
  | [] => n
  | j :: l' =>
      if String.eqb word (reference_keyword j) then n
      else keyword_position l' word (n + 1)
  end.

Definition index_code (i : tomoyo_conditions_index) : Z :=
  match i with
  | TOMOYO_NUMBER_UNION => 56
  | _ => keyword_position tomoyo_keyword_indices (reference_keyword i) 0
  end.

(** The four bytes of a 32-bit word, least significant first. *)
Definition le32 (v : Z) : list Z :=
  [ v mod 256; (v / 256) mod 256; (v / 65536) mod 256;
    (v / 16777216) mod 256 ].

(** The layout on the 32-bit target: a 20-byte header, 3-byte clauses
    ([left], [right], [equals]) and 16-byte operands (two values, the
    group pointer, and four bytes of value types and padding, zero here). *)
Definition reference_collaborators (groups : list number_group)
    : Collaborators :=
  {| tomoyo_condition_keyword := reference_keyword;
     tomoyo_parse_number_union := reference_parse_number_union groups;
     tomoyo_number_matches_group := reference_matches_group groups;
     sizeof_condition := 20;
     sizeof_condition_element := 3;
     sizeof_number_union := 16;
     condition_element_bytes := fun e =>
       [index_code (left e); index_code (right e);
        if equals e then 1 else 0];
     number_union_bytes := fun n =>
       le32 (values0 n) ++ le32 (values1 n)
       ++ le32 (match group n with Some g => Z.of_nat g | None => 0 end)
       ++ [0; 0; 0; 0] |}.

(** ** Example data *)

Definition example_task (u : Z) : task_struct :=
  {| current_uid := u; current_euid := u; current_suid := u;
     current_fsuid := u; current_gid := 100; current_egid := 100;
     current_sgid := 100; current_fsgid := 100;
     tomoyo_sys_getpid := 4711; tomoyo_sys_getppid := 1 |}.

Definition example_groups : list number_group :=
  [ {| group_name := "admins"; group_addr := 4096%nat;
       group_members := [(0, 0); (1000, 1010)] |} ].

Definition example_collaborators : Collaborators :=
  reference_collaborators example_groups.

(** A regular file of mode 0644 owned by user 1000, in a directory of mode
    0755 owned by root. *)
Definition example_dentry : dentry :=
  ChildDentry
    (Some {| i_uid := 1000; i_gid := 100; i_ino := 42; i_mode := 33188;
             i_sb_s_dev := 8388609; i_rdev := 0 |})
    (RootDentry
       (Some {| i_uid := 0; i_gid := 0; i_ino := 2; i_mode := 16877;
                i_sb_s_dev := 8388609; i_rdev := 0 |})).

Definition empty_stat : tomoyo_mini_stat :=
  {| uid := 0; gid := 0; ino := 0; mode := 0; dev := 0; rdev := 0 |}.

(** A request on [example_dentry] as its first path, cache not yet
    filled, and no second path. *)
Definition example_obj : tomoyo_obj_info :=
  {| validate_done := false;
     stat_valid := fun _ => false;
     stat := fun _ => empty_stat;
     path1_dentry := Some example_dentry;
     path2_dentry := None |}.

Definition example_request : tomoyo_request_info :=
  {| obj := Some example_obj |}.

Definition clause (l r : tomoyo_conditions_index) (e : bool)
    : tomoyo_condition_element :=
  {| left := l; right := r; equals := e |}.

Definition interval (lo hi : Z) : tomoyo_number_union :=
  {| values0 := lo; values1 := hi; group := None |}.

Definition example_environment : environment :=
  {| kzalloc := Some 7%nat; mutex_lock_interruptible := false;
     tomoyo_memory_ok := fun _ => true |}.


Definition full_environment : environment :=
  {| kzalloc := Some 7%nat; mutex_lock_interruptible := false;
     tomoyo_memory_ok := fun _ => false |}.

Definition empty_policy : policy_state :=
  {| tomoyo_condition_list := []; allocated := []; kfreed := [] |}.

(** The compiled form of [task.uid=0-10], and of [task.uid!=0-10]. *)
Definition example_condition (users : Z) (e : bool)
    : struct_tomoyo_condition :=
  {| head_users := users; size := 39; condc := 1; numbers_count := 1;
     condition := [clause TOMOYO_TASK_UID TOMOYO_NUMBER_UNION e];
     numbers := [interval 0 10] |}.

(** A policy that holds [task.uid!=0-10] at address 3 and [task.uid=0-10]
    at address 5, the latter with two users. *)
Definition example_policy : policy_state :=
  {| tomoyo_condition_list :=
       [(3%nat, example_condition 1 false);
        (5%nat, example_condition 2 true)];
     allocated := [5%nat; 3%nat]; kfreed := [] |}.

Definition example_expression : list ascii :=
  list_ascii_of_string "task.uid=0 path1.uid!=task.uid".

(** ** Notions used by the further properties *)

(** The snapshot [tomoyo_get_attributes] takes of an inode. *)
Definition inode_stat (i : inode) : tomoyo_mini_stat :=
  {| uid := i_uid i; gid := i_gid i; ino := i_ino i; mode := i_mode i;
     dev := i_sb_s_dev i; rdev := i_rdev i |}.

(** The selectors that fall to the [default:] of the outer [switch] of
    [tomoyo_condition], where the object of the request is consulted: the
    path selectors and any value that is no selector at all. *)
Definition reads_object (index : tomoyo_conditions_index) : bool :=
  match tomoyo_stat_index index with
  | Some _ => true
  | None =>
      match index with
      | TOMOYO_MAX_CONDITION_KEYWORD => true
      | _ => false
      end
  end.

(** The clause with its two sides exchanged. *)
Definition swap_sides (c : tomoyo_condition_element)
    : tomoyo_condition_element :=
  {| left := right c; right := left c; equals := equals c |}.

Section CompiledNotions.
Context `{Collaborators}.

(** The selector the second run stores for a side: the keyword's index,
    or the operand sentinel for a literal. *)
Definition compile_side (word : list ascii) : tomoyo_conditions_index :=
  if is_literal word then TOMOYO_NUMBER_UNION
  else tomoyo_condition_type word.

(** The operand a side contributes: the parsed literal, if the side is a
    literal the literal parser accepts. *)
Definition side_operands (word : list ascii) : list tomoyo_number_union :=
  if is_literal word then
    match tomoyo_parse_number_union word with
    | Some n => [n]
    | None => []
    end
  else [].

(** The clause and the operands that a clause of the expression compiles
    to (for a clause without operator, which the dry run rejects, a
    placeholder). *)
Definition compile_clause (w : list ascii) : tomoyo_condition_element :=
  match operator_position w with
  | Some (i, is_not) =>
      {| left := compile_side (clause_left w i);
         right := compile_side (clause_right w i is_not);
         equals := negb is_not |}
  | None =>
      {| left := TOMOYO_MAX_CONDITION_KEYWORD;
         right := TOMOYO_MAX_CONDITION_KEYWORD; equals := false |}
  end.

Definition clause_operands (w : list ascii) : list tomoyo_number_union :=
  match operator_position w with
  | Some (i, is_not) =>
      side_operands (clause_left w i)
      ++ side_operands (clause_right w i is_not)
  | None => []
  end.

(** The second run accepts a side: a keyword always; a literal when the
    literal parser accepts it and, on the left, it does not start with
    [@]. *)
Definition side_accepted (is_left : bool) (word : list ascii) : bool :=
  if is_literal word then
    negb (is_left && Ascii.eqb (hd NUL word) char_at)
    && match tomoyo_parse_number_union word with
       | Some _ => true
       | None => false
       end
  else true.

(** A clause is accepted: it has its operator and both sides are
    accepted. *)
Definition clause_accepted (w : list ascii) : bool :=
  match operator_position w with
  | Some (i, is_not) =>
      side_accepted true (clause_left w i)
      && side_accepted false (clause_right w i is_not)
  | None => false
  end.

(** The object [tomoyo_get_condition] builds for an expression with the
    clauses [ws], once it is inserted in the list. *)
Definition compiled_condition (ws : list (list ascii))
    : struct_tomoyo_condition :=
  {| head_users := 1;
     size :=
       u32 (size_t (sizeof_condition
                    + Z.of_nat (length ws) * sizeof_condition_element
                    + Z.of_nat (literal_count ws) * sizeof_number_union));
     condc := Z.of_nat (length ws);
     numbers_count := Z.of_nat (literal_count ws);
     condition := map compile_clause ws;
     numbers := flat_map clause_operands ws |}.

End CompiledNotions.

(** The compiled form of [example_expression], and the policy state once
    it has been parsed into [empty_policy]. *)
Definition example_compiled : struct_tomoyo_condition :=
  {| head_users := 1; size := 42; condc := 2; numbers_count := 1;
     condition :=
       [clause TOMOYO_TASK_UID TOMOYO_NUMBER_UNION true;
        clause TOMOYO_PATH1_UID TOMOYO_TASK_UID false];
     numbers := [interval 0 0] |}.

Definition example_parsed_policy : policy_state :=
  {| tomoyo_condition_list := [(7%nat, example_compiled)];
     allocated := [7%nat]; kfreed := [] |}.

(** [example_policy] once [example_expression] has been parsed into
    it. *)
Definition example_grown_policy : policy_state :=
  {| tomoyo_condition_list :=
       (7%nat, example_compiled) :: tomoyo_condition_list example_policy;
     allocated := 7%nat :: allocated example_policy;
     kfreed := kfreed example_policy |}.

(** A second call: the allocator hands out another block. *)
Definition second_environment : environment :=
  {| kzalloc := Some 9%nat; mutex_lock_interruptible := false;
     tomoyo_memory_ok := fun _ => false |}.

Section InternedNotions.
Context `{Collaborators}.

(** No two objects of the list are equal for [tomoyo_same_condition]. *)
Fixpoint pairwise_distinct (l : list (addr * struct_tomoyo_condition))
    : Prop :=
  match l with
  | [] => True
  | x :: l' =>
      Forall (fun y => tomoyo_same_condition (snd x) (snd y) = false) l'
      /\ pairwise_distinct l'
  end.

End InternedNotions.

(** * Properties *)

(** ** The evaluator *)

(** ** The evaluator *)
Section EvaluatorProperties.
Context `{Collaborators}.

Lemma tomoyo_validate_idem (ob : tomoyo_obj_info) :
  tomoyo_validate (tomoyo_validate ob) = tomoyo_validate ob.
Proof.
  unfold tomoyo_validate. destruct (validate_done ob) eqn:E.
  - rewrite E. reflexivity.
  - reflexivity.
Qed.

Lemma resolved_idem (o : option tomoyo_obj_info) :
  resolved (resolved o) = resolved o.
Proof.
  destruct o as [ob|]; simpl; [rewrite tomoyo_validate_idem|]; reflexivity.
Qed.

(** A lookup leaves the object as it was or with its cache filled. *)
Lemma tomoyo_side_value_obj cur o index :
  fst (tomoyo_side_value cur o index) = o
  \/ fst (tomoyo_side_value cur o index) = resolved o.
Proof.
  destruct index; simpl; auto;
    destruct o as [ob|]; simpl; auto;
    repeat match goal with |- context [if ?b then _ else _] => destruct b end;
    simpl; auto.
Qed.

(** The value a side resolves to does not depend on whether the cache was
    filled before. *)
Lemma tomoyo_side_value_resolved cur o index :
  snd (tomoyo_side_value cur (resolved o) index)
  = snd (tomoyo_side_value cur o index).
Proof.
  destruct index; simpl; auto;
    destruct o as [ob|]; simpl; auto;
    rewrite tomoyo_validate_idem;
    repeat match goal with |- context [if ?b then _ else _] => destruct b end;
    reflexivity.
Qed.

Lemma tomoyo_side_value_resolved_obj cur o index :
  fst (tomoyo_side_value cur (resolved o) index) = resolved o.
Proof.
  destruct (tomoyo_side_value_obj cur (resolved o) index) as [E|E];
    rewrite E; [reflexivity | apply resolved_idem].
Qed.

End EvaluatorProperties.

Section ClauseProperties.
Context `{Collaborators}.

(** The outcome of a clause is the comparison of the values its two sides
    resolve to for the request. *)
Lemma tomoyo_condition_clause_value cur o nums c :
  snd (tomoyo_condition_clause cur o nums c)
  = match snd (tomoyo_side_value cur o (left c)),
          snd (tomoyo_side_value cur o (right c)) with
    | Some v0, Some v1 => tomoyo_compare c v0 v1 nums
    | _, _ => Out
    end.
Proof.
  unfold tomoyo_condition_clause.
  pose proof (tomoyo_side_value_obj cur o (left c)) as Ho.
  destruct (tomoyo_side_value cur o (left c)) as [o1 [v0|]]; simpl in *.
  - assert (snd (tomoyo_side_value cur o1 (right c))
            = snd (tomoyo_side_value cur o (right c))) as E.
    { destruct Ho as [->| ->];
        [reflexivity | apply tomoyo_side_value_resolved]. }
    rewrite <- E.
    destruct (tomoyo_side_value cur o1 (right c)) as [o2 [v1|]]; reflexivity.
  - destruct (snd (tomoyo_side_value cur o (right c))); reflexivity.
Qed.

Lemma tomoyo_condition_clause_obj cur o nums c :
  fst (tomoyo_condition_clause cur o nums c) = o
  \/ fst (tomoyo_condition_clause cur o nums c) = resolved o.
Proof.
  unfold tomoyo_condition_clause.
  pose proof (tomoyo_side_value_obj cur o (left c)) as Ho.
  destruct (tomoyo_side_value cur o (left c)) as [o1 [v0|]]; simpl in *;
    [|exact Ho].
  pose proof (tomoyo_side_value_obj cur o1 (right c)) as Ho1.
  destruct (tomoyo_side_value cur o1 (right c)) as [o2 [v1|]]; simpl in *;
    destruct Ho as [->| ->]; destruct Ho1 as [->| ->];
    rewrite ?resolved_idem; auto.
Qed.

Lemma clause_succeeds_resolved cur o nums c :
  clause_succeeds cur (resolved o) nums c = clause_succeeds cur o nums c.
Proof.
  unfold clause_succeeds.
  rewrite !tomoyo_condition_clause_value, !tomoyo_side_value_resolved.
  reflexivity.
Qed.

Lemma tomoyo_compare_continue c v0 v1 nums rest :
  tomoyo_compare c v0 v1 nums = Continue rest ->
  rest = drop (operands_needed c) nums.
Proof.
  unfold tomoyo_compare, tomoyo_fetch_left, operands_needed.
  destruct (is_number_union (left c)), (is_number_union (right c));
    destruct nums as [|n1 [|n2 nums]]; simpl; intros E;
    repeat case_match; simplify_eq; reflexivity.
Qed.

Lemma tomoyo_compare_reads c v0 v1 nums :
  (operands_needed c <= length nums)%nat ->
  tomoyo_compare c v0 v1 nums <> BadRead.
Proof.
  unfold tomoyo_compare, tomoyo_fetch_left, operands_needed.
  destruct (is_number_union (left c)), (is_number_union (right c));
    destruct nums as [|n1 [|n2 nums]]; simpl; try lia; intros _;
    repeat case_match; congruence.
Qed.

Lemma tomoyo_condition_clause_reads cur o nums c :
  (operands_needed c <= length nums)%nat ->
  snd (tomoyo_condition_clause cur o nums c) <> BadRead.
Proof.
  intros Hn. rewrite tomoyo_condition_clause_value.
  destruct (snd (tomoyo_side_value cur o (left c))); [|discriminate].
  destruct (snd (tomoyo_side_value cur o (right c))); [|discriminate].
  by apply tomoyo_compare_reads.
Qed.

Lemma tomoyo_condition_clause_continue cur o nums c rest :
  snd (tomoyo_condition_clause cur o nums c) = Continue rest ->
  rest = drop (operands_needed c) nums.
Proof.
  rewrite tomoyo_condition_clause_value.
  destruct (snd (tomoyo_side_value cur o (left c))); [|discriminate].
  destruct (snd (tomoyo_side_value cur o (right c))); [|discriminate].
  apply tomoyo_compare_continue.
Qed.

(** The clause loop over complete arrays: it returns a verdict, and the
    verdict is true exactly when every clause succeeds on its own, each
    with the operands left by the clauses before it. *)
Lemma tomoyo_condition_loop_spec cur cs : forall o nums,
  (operands_needed_list cs <= length nums)%nat ->
  exists b,
    snd (tomoyo_condition_loop cur (length cs) o cs nums) = Some b
    /\ (b = true <->
        forall k c, cs !! k = Some c ->
          clause_succeeds cur o
            (drop (operands_needed_list (take k cs)) nums) c = true).
Proof.
  induction cs as [|c cs IH]; intros o nums Hn.
  - exists true. split; [reflexivity|]. split; [|reflexivity].
    intros _ k c Hk. destruct k; discriminate.
  - simpl in Hn. simpl tomoyo_condition_loop.
    pose proof (tomoyo_condition_clause_obj cur o nums c) as Ho.
    pose proof (tomoyo_condition_clause_reads cur o nums c ltac:(lia)) as Hr.
    pose proof (tomoyo_condition_clause_continue cur o nums c) as Hc.
    assert (clause_succeeds cur o nums c
            = continues (snd (tomoyo_condition_clause cur o nums c))) as Hs
      by reflexivity.
    destruct (tomoyo_condition_clause cur o nums c) as [o' [rest| |]];
      simpl in *; [| |congruence].
    + specialize (Hc rest eq_refl). subst rest.
      destruct (IH o' (drop (operands_needed c) nums)) as (b & Hb & Hiff).
      { rewrite length_drop. lia. }
      exists b. split; [exact Hb|]. rewrite Hiff. split.
      * intros Hall [|k] c' Hk; simpl in Hk.
        -- injection Hk as <-. simpl. rewrite drop_0. exact Hs.
        -- specialize (Hall k c' Hk). simpl. rewrite <- drop_drop.
           destruct Ho as [->| ->]; [exact Hall|].
           rewrite clause_succeeds_resolved in Hall. exact Hall.
      * intros Hall k c' Hk. specialize (Hall (S k) c' Hk). simpl in Hall.
        rewrite <- drop_drop in Hall.
        destruct Ho as [->| ->]; [exact Hall|].
        rewrite clause_succeeds_resolved. exact Hall.
    + exists false. split; [reflexivity|]. split; [discriminate|].
      intros Hall. specialize (Hall O c eq_refl). simpl in Hall.
      rewrite drop_0 in Hall. congruence.
Qed.

End ClauseProperties.

Lemma tomoyo_get_attributes_valid (ob : tomoyo_obj_info)
    (i : tomoyo_path_stat_index) :
  (forall j, stat_valid ob j = false) ->
  stat_valid (tomoyo_get_attributes ob) i
  = match path_role_inode ob i with Some _ => true | None => false end.
Proof.
  intros Hv. unfold tomoyo_get_attributes, path_role_inode.
  destruct (path1_dentry ob) as [d1|] eqn:E1;
    destruct (path2_dentry ob) as [d2|] eqn:E2;
    try destruct (d_inode d1) eqn:I1;
    try destruct (d_inode (dget_parent d1)) eqn:I1p;
    try destruct (d_inode d2) eqn:I2;
    try destruct (d_inode (dget_parent d2)) eqn:I2p;
    repeat (simpl; unfold tomoyo_stat_dentry;
            rewrite ?E1, ?E2, ?I1, ?I1p, ?I2, ?I2p);
    destruct i; simpl; rewrite ?Hv; reflexivity.
Qed.

Lemma cache_empty_unavailable (ob : tomoyo_obj_info)
    (index : tomoyo_conditions_index) :
  cache_empty ob ->
  attribute_unavailable (Some ob) index = true
  <-> exists i, tomoyo_stat_index index = Some i
                /\ path_role_inode ob i = None.
Proof.
  intros [Hd Hv]. unfold attribute_unavailable.
  destruct (tomoyo_stat_index index) as [i|].
  - unfold tomoyo_validate. rewrite Hd. simpl.
    rewrite (tomoyo_get_attributes_valid ob i Hv).
    destruct (path_role_inode ob i) eqn:Ei; simpl; split.
    + discriminate.
    + intros (j & Hj & Hn). injection Hj as <-. congruence.
    + intros _. by exists i.
    + reflexivity.
  - split; [discriminate | intros (j & Hj & _); discriminate].
Qed.

Section NumberUnionClause.
Context `{Collaborators}.

(** C4: for every request, evaluating an absent (NULL) condition returns
    true and leaves the request as it was. *)
Theorem tomoyo_condition_null_matches (cur : task_struct)
    (r : tomoyo_request_info) :
  tomoyo_condition cur r None = (r, Some true).
Proof. reflexivity. Qed.

(** C1: a clause whose right side is a numeric-or-group operand, once its
    left side has resolved to the interval [min0, max0] and [ptr] is the
    operand of the right side: if the operand references a group, the
    clause succeeds iff the group membership test on the interval equals
    the [equals] flag; otherwise it succeeds iff the overlap test
    [min0 <= ptr.max && max0 >= ptr.min] equals the flag, and it fails
    otherwise.  In particular the interval [10,20] with [equals] true
    succeeds against the left value 15 and fails against 25, and with
    [equals] false it is the other way round. *)
Theorem tomoyo_condition_number_union_clause :
  (forall cur o nums c o1 v0 min0 max0 ptr rest,
      right c = TOMOYO_NUMBER_UNION ->
      tomoyo_side_value cur o (left c) = (o1, Some v0) ->
      tomoyo_fetch_left (left c) v0 nums = Some (min0, max0, ptr :: rest) ->
      let test :=
        match group ptr with
        | Some g => tomoyo_number_matches_group min0 max0 g
        | None => (min0 <=? values1 ptr) && (max0 >=? values0 ptr)
        end in
      (clause_succeeds cur o nums c = true <-> test = equals c)
      /\ snd (tomoyo_condition_clause cur o nums c)
         = if Bool.eqb test (equals c) then Continue rest else Out)
  /\ (forall o e,
         clause_succeeds (example_task 15) o [interval 10 20]
           (clause TOMOYO_TASK_UID TOMOYO_NUMBER_UNION e) = e
         /\ clause_succeeds (example_task 25) o [interval 10 20]
              (clause TOMOYO_TASK_UID TOMOYO_NUMBER_UNION e) = negb e).
Proof.
  split.
  - intros cur o nums c o1 v0 min0 max0 ptr rest Hr Hl Hf test.
    assert (snd (tomoyo_condition_clause cur o nums c)
            = if Bool.eqb test (equals c) then Continue rest else Out) as E.
    { rewrite tomoyo_condition_clause_value, Hl, Hr. simpl.
      unfold tomoyo_compare. rewrite Hr in *. rewrite Hf. simpl.
      subst test. unfold ranges_overlap.
      destruct (group ptr); reflexivity. }
    split; [|exact E].
    unfold clause_succeeds. rewrite E.
    destruct test, (equals c); simpl; split; congruence.
  - intros o [|]; split; reflexivity.
Qed.

End NumberUnionClause.

Lemma tomoyo_condition_number_union_clause_witness :
  clause_succeeds (H := example_collaborators) (example_task 1005)
    (Some example_obj)
    [{| values0 := 0; values1 := 0; group := Some 4096%nat |}]
    (clause TOMOYO_TASK_UID TOMOYO_NUMBER_UNION true) = true
  /\ clause_succeeds (H := example_collaborators) (example_task 15)
       (Some example_obj) [interval 10 20; interval 10 20]
       (clause TOMOYO_NUMBER_UNION TOMOYO_NUMBER_UNION false) = false.
Proof.
  split.
  - apply (proj1 (@tomoyo_condition_number_union_clause example_collaborators)
             (example_task 1005) (Some example_obj)
             [{| values0 := 0; values1 := 0; group := Some 4096%nat |}]
             (clause TOMOYO_TASK_UID TOMOYO_NUMBER_UNION true)
             (Some example_obj) 1005 1005 1005
             {| values0 := 0; values1 := 0; group := Some 4096%nat |} []);
      reflexivity.
  - pose proof
      (proj1 (@tomoyo_condition_number_union_clause example_collaborators)
         (example_task 15) (Some example_obj)
         [interval 10 20; interval 10 20]
         (clause TOMOYO_NUMBER_UNION TOMOYO_NUMBER_UNION false)
         (Some example_obj) 0 10 20 (interval 10 20) []
         eq_refl eq_refl eq_refl) as [_ E].
    unfold clause_succeeds. rewrite E. reflexivity.
Defined.

Section BitTest.
Context `{Collaborators}.

(** C2 (amended): a clause that pairs a permission-bit constant with a
    permission-bits path field whose value is available succeeds iff
    [(left_bits & right_bits) != 0] equals the [equals] flag; a clause
    whose two sides are permission-bit constants fails; a clause that
    pairs a permission-bit constant with any other selector fails, unless
    the constant is on the left and the right side is a numeric-or-group
    operand, which the interval or group test of that operand decides. *)
Theorem tomoyo_condition_bit_test cur o nums c :
  (* one side a bit constant, the other a permission-bits field *)
  (forall o1 v0 o2 v1,
      (tomoyo_is_bitop (left c) = true /\ tomoyo_is_perm (right c) = true)
      \/ (tomoyo_is_perm (left c) = true /\ tomoyo_is_bitop (right c) = true)
      ->
      tomoyo_side_value cur o (left c) = (o1, Some v0) ->
      tomoyo_side_value cur o1 (right c) = (o2, Some v1) ->
      (clause_succeeds cur o nums c = true
       <-> negb (Z.land v0 v1 =? 0) = equals c)
      /\ snd (tomoyo_condition_clause cur o nums c)
         = if Bool.eqb (negb (Z.land v0 v1 =? 0)) (equals c)
           then Continue nums else Out)
  (* both sides bit constants *)
  /\ (tomoyo_is_bitop (left c) = true -> tomoyo_is_bitop (right c) = true ->
      snd (tomoyo_condition_clause cur o nums c) = Out)
  (* a bit constant on the left, no permission-bits field and no operand
     on the right *)
  /\ (tomoyo_is_bitop (left c) = true -> tomoyo_is_perm (right c) = false ->
      right c <> TOMOYO_NUMBER_UNION ->
      snd (tomoyo_condition_clause cur o nums c) = Out)
  (* a bit constant on the right, no permission-bits field on the left *)
  /\ (tomoyo_is_bitop (right c) = true -> tomoyo_is_perm (left c) = false ->
      (left c = TOMOYO_NUMBER_UNION -> nums <> []) ->
      snd (tomoyo_condition_clause cur o nums c) = Out).
Proof.
  split; [|split; [|split]].
  - intros o1 v0 o2 v1 Hsides Hl Hr.
    assert (snd (tomoyo_condition_clause cur o nums c)
            = if Bool.eqb (negb (Z.land v0 v1 =? 0)) (equals c)
              then Continue nums else Out) as E.
    { unfold tomoyo_condition_clause. rewrite Hl, Hr. simpl.
      unfold tomoyo_compare, tomoyo_fetch_left.
      destruct Hsides as [[Hb Hp]|[Hp Hb]];
        destruct (left c), (right c); try discriminate; simpl;
        destruct (Z.land v0 v1 =? 0), (equals c); reflexivity. }
    split; [|exact E].
    unfold clause_succeeds. rewrite E.
    destruct (negb (Z.land v0 v1 =? 0)), (equals c); simpl; split;
      congruence.
  - intros Hl Hr. rewrite tomoyo_condition_clause_value.
    destruct (snd (tomoyo_side_value cur o (left c))); [|reflexivity].
    destruct (snd (tomoyo_side_value cur o (right c))); [|reflexivity].
    unfold tomoyo_compare, tomoyo_fetch_left. rewrite Hl, Hr.
    destruct (left c), (right c); try discriminate; reflexivity.
  - intros Hl Hp Hr. rewrite tomoyo_condition_clause_value.
    destruct (snd (tomoyo_side_value cur o (left c))); [|reflexivity].
    destruct (snd (tomoyo_side_value cur o (right c))); [|reflexivity].
    unfold tomoyo_compare, tomoyo_fetch_left. rewrite Hl, Hp.
    destruct (left c); try discriminate; simpl;
      destruct (right c); try discriminate; try reflexivity; congruence.
  - intros Hr Hp Hn. rewrite tomoyo_condition_clause_value.
    destruct (snd (tomoyo_side_value cur o (left c))); [|reflexivity].
    destruct (snd (tomoyo_side_value cur o (right c))); [|reflexivity].
    unfold tomoyo_compare, tomoyo_fetch_left. rewrite Hr, Hp.
    destruct (left c) eqn:El; try discriminate; simpl;
      destruct (right c); try discriminate; try reflexivity.
    all: destruct nums; [exfalso; by apply Hn | reflexivity].
Qed.

End BitTest.

(** C2 as stated fails: the owner-read bit constant on the left, paired
    with the numeric operand [256,256] on the right (not a permission-bits
    path field), is a clause that succeeds. *)
Lemma tomoyo_condition_bit_test_counterexample :
  ~ (forall (cur : task_struct) (o : option tomoyo_obj_info)
       (nums : list tomoyo_number_union) (c : tomoyo_condition_element),
        tomoyo_is_bitop (left c) = true -> tomoyo_is_perm (right c) = false ->
        clause_succeeds (H := example_collaborators) cur o nums c = false).
Proof.
  intros Hall.
  specialize (Hall (example_task 0) None [interval 256 256]
                (clause TOMOYO_MODE_OWNER_READ TOMOYO_NUMBER_UNION true)
                eq_refl eq_refl).
  discriminate Hall.
Qed.

Lemma tomoyo_condition_bit_test_witness :
  clause_succeeds (H := example_collaborators) (example_task 0)
    (Some example_obj) []
    (clause TOMOYO_MODE_OWNER_WRITE TOMOYO_PATH1_PERM true) = true
  /\ snd (tomoyo_condition_clause (H := example_collaborators)
            (example_task 0) (Some example_obj) []
            (clause TOMOYO_MODE_OWNER_WRITE TOMOYO_MODE_OWNER_READ true))
     = Out
  /\ snd (tomoyo_condition_clause (H := example_collaborators)
            (example_task 0) (Some example_obj) []
            (clause TOMOYO_MODE_OWNER_WRITE TOMOYO_PATH1_UID true))
     = Out
  /\ snd (tomoyo_condition_clause (H := example_collaborators)
            (example_task 0) (Some example_obj) [interval 128 128]
            (clause TOMOYO_NUMBER_UNION TOMOYO_MODE_OWNER_WRITE true))
     = Out.
Proof.
  split; [|split; [|split]].
  - apply (proj1 (@tomoyo_condition_bit_test example_collaborators
                    (example_task 0) (Some example_obj) []
                    (clause TOMOYO_MODE_OWNER_WRITE TOMOYO_PATH1_PERM true))
             (Some example_obj) 128
             (Some (tomoyo_validate example_obj)) 420);
      [left; split; reflexivity | reflexivity | reflexivity | reflexivity].
  - apply (proj1 (proj2 (@tomoyo_condition_bit_test example_collaborators
                    (example_task 0) (Some example_obj) []
                    (clause TOMOYO_MODE_OWNER_WRITE TOMOYO_MODE_OWNER_READ
                       true)))); reflexivity.
  - apply (proj1 (proj2 (proj2 (@tomoyo_condition_bit_test
                    example_collaborators
                    (example_task 0) (Some example_obj) []
                    (clause TOMOYO_MODE_OWNER_WRITE TOMOYO_PATH1_UID
                       true))))); [reflexivity | reflexivity | discriminate].
  - apply (proj2 (proj2 (proj2 (@tomoyo_condition_bit_test
                    example_collaborators
                    (example_task 0) (Some example_obj) [interval 128 128]
                    (clause TOMOYO_NUMBER_UNION TOMOYO_MODE_OWNER_WRITE
                       true))))); [reflexivity | reflexivity | discriminate].
Defined.

Section FailClosed.
Context `{Collaborators}.

Lemma attribute_unavailable_side_value cur o index :
  attribute_unavailable o index = true ->
  snd (tomoyo_side_value cur o index) = None.
Proof.
  unfold attribute_unavailable.
  destruct index; simpl; try discriminate;
    destruct o as [ob|]; simpl; try reflexivity;
    destruct (stat_valid (tomoyo_validate ob) _); simpl;
    congruence.
Qed.

Lemma attribute_unavailable_clause cur o nums c :
  attribute_unavailable o (left c) = true
  \/ attribute_unavailable o (right c) = true ->
  snd (tomoyo_condition_clause cur o nums c) = Out.
Proof.
  intros Hu. rewrite tomoyo_condition_clause_value.
  destruct Hu as [Hu|Hu];
    rewrite (attribute_unavailable_side_value cur _ _ Hu);
    [|destruct (snd (tomoyo_side_value cur o (left c)))]; reflexivity.
Qed.

(** C8: with the arrays of the condition complete, (1) a clause that
    reads a path attribute the request cannot supply (no object, or a
    slot that is not valid once the cache is filled) fails; (2) a failing
    clause ends the loop at once with the verdict false, whatever
    follows; (3) a condition with such a clause evaluates to false, a
    plain verdict and not an error; (4) evaluation always yields a
    verdict, which is true iff every clause succeeds; (5) for an object
    whose cache is still empty, the attribute of a path selector is
    unavailable exactly when its path role has no path node or the node
    has no inode. *)
Theorem tomoyo_condition_fail_closed cur r cond :
  arrays_complete cond ->
  (forall o nums c,
      attribute_unavailable o (left c) = true
      \/ attribute_unavailable o (right c) = true ->
      snd (tomoyo_condition_clause cur o nums c) = Out)
  /\ (forall n o nums c cs,
         snd (tomoyo_condition_clause cur o nums c) = Out ->
         snd (tomoyo_condition_loop cur (S n) o (c :: cs) nums)
         = Some false)
  /\ ((exists k c,
          condition cond !! k = Some c
          /\ (attribute_unavailable (obj r) (left c) = true
              \/ attribute_unavailable (obj r) (right c) = true)) ->
      snd (tomoyo_condition cur r (Some cond)) = Some false)
  /\ (exists b,
         snd (tomoyo_condition cur r (Some cond)) = Some b
         /\ (b = true <->
             forall k c, condition cond !! k = Some c ->
               clause_succeeds cur (obj r)
                 (drop (operands_needed_list (take k (condition cond)))
                    (numbers cond)) c = true))
  /\ (forall ob index,
         cache_empty ob ->
         attribute_unavailable (Some ob) index = true
         <-> exists i, tomoyo_stat_index index = Some i
                       /\ path_role_inode ob i = None).
Proof.
  intros [Hc Hn].
  assert (exists b,
         snd (tomoyo_condition cur r (Some cond)) = Some b
         /\ (b = true <->
             forall k c, condition cond !! k = Some c ->
               clause_succeeds cur (obj r)
                 (drop (operands_needed_list (take k (condition cond)))
                    (numbers cond)) c = true)) as Hspec.
  { destruct (tomoyo_condition_loop_spec cur (condition cond) (obj r)
                (numbers cond) Hn) as (b & Hb & Hiff).
    exists b. split; [|exact Hiff].
    unfold tomoyo_condition. rewrite Hc, Nat2Z.id.
    destruct (tomoyo_condition_loop cur (length (condition cond)) (obj r)
                (condition cond) (numbers cond)); exact Hb. }
  split; [|split; [|split; [|split]]].
  - intros o nums c. apply attribute_unavailable_clause.
  - intros n o nums c cs Hout. simpl.
    destruct (tomoyo_condition_clause cur o nums c) as [o' res].
    simpl in Hout. subst res. reflexivity.
  - intros (k & c & Hk & Hu).
    destruct Hspec as (b & Hb & Hiff). rewrite Hb.
    destruct b; [|reflexivity].
    pose proof (proj1 Hiff eq_refl k c Hk) as Hs.
    unfold clause_succeeds in Hs.
    rewrite (attribute_unavailable_clause cur _ _ c Hu) in Hs.
    discriminate Hs.
  - exact Hspec.
  - intros ob index. apply cache_empty_unavailable.
Qed.

End FailClosed.

Lemma tomoyo_condition_fail_closed_witness :
  snd (tomoyo_condition (H := example_collaborators) (example_task 1000)
         example_request
         (Some {| head_users := 1; size := 42; condc := 2;
                  numbers_count := 1;
                  condition :=
                    [clause TOMOYO_TASK_UID TOMOYO_NUMBER_UNION true;
                     clause TOMOYO_PATH2_UID TOMOYO_TASK_UID true];
                  numbers := [interval 1000 1000] |}))
  = Some false.
Proof.
  apply (proj1 (proj2 (proj2
           (@tomoyo_condition_fail_closed example_collaborators
              (example_task 1000) example_request
              {| head_users := 1; size := 42; condc := 2;
                 numbers_count := 1;
                 condition :=
                   [clause TOMOYO_TASK_UID TOMOYO_NUMBER_UNION true;
                    clause TOMOYO_PATH2_UID TOMOYO_TASK_UID true];
                 numbers := [interval 1000 1000] |}
              (conj eq_refl (le_n 1)))))).
  exists 1%nat, (clause TOMOYO_PATH2_UID TOMOYO_TASK_UID true).
  split; [reflexivity | left; reflexivity].
Defined.

(** ** The interning store *)

(** ** The interning store *)
Section StoreProperties.
Context `{Collaborators}.

Lemma memcmp_eq (n : nat) : forall p q : list Z,
  length p = n -> length q = n -> (memcmp p q n = 0 <-> p = q).
Proof.
  induction n as [|n IH]; intros [|x p] [|y q] Hp Hq; simpl in *;
    try discriminate.
  - split; reflexivity.
  - destruct (Z.eqb_spec x y) as [->|Hxy].
    + rewrite IH by congruence. split; congruence.
    + split; [lia | congruence].
Qed.

(** C6: for two conditions whose blocks hold exactly their [size] bytes,
    the equality test of the interning store returns true iff their
    sizes, clause counts and operand counts match and their trailing byte
    regions (clause array, then operand array) are byte-identical. *)
Theorem tomoyo_same_condition_iff (a b : struct_tomoyo_condition) :
  block_complete a -> block_complete b ->
  tomoyo_same_condition a b = true
  <-> size a = size b /\ condc a = condc b
      /\ numbers_count a = numbers_count b
      /\ trailing_bytes a = trailing_bytes b.
Proof.
  intros (H0 & Ha & Hamax) (_ & Hb & _).
  unfold tomoyo_same_condition.
  assert (Z.to_nat (size_t (size a - sizeof_condition))
          = length (trailing_bytes a)) as Hn.
  { unfold size_t. rewrite Z.mod_small by lia. lia. }
  rewrite Hn, !andb_true_iff, !Z.eqb_eq.
  split.
  - intros [[[Hs Hc] Hnc] Hm]. repeat split; try assumption.
    apply (memcmp_eq (length (trailing_bytes a)));
      [reflexivity | lia | exact Hm].
  - intros (Hs & Hc & Hnc & Ht). repeat split; try assumption.
    apply (memcmp_eq (length (trailing_bytes a)));
      [reflexivity | lia | exact Ht].
Qed.

Lemma tomoyo_find_condition_none (l : list (addr * struct_tomoyo_condition))
    (entry : struct_tomoyo_condition) :
  Forall (fun x => tomoyo_same_condition (snd x) entry = false) l ->
  tomoyo_find_condition l entry = None.
Proof.
  induction 1 as [|[p c] l Hx _ IH]; simpl in *; [reflexivity|].
  rewrite Hx, IH. reflexivity.
Qed.

Lemma tomoyo_find_condition_first
    (l1 l2 : list (addr * struct_tomoyo_condition)) (p : addr)
    (c entry : struct_tomoyo_condition) :
  Forall (fun x => tomoyo_same_condition (snd x) entry = false) l1 ->
  tomoyo_same_condition c entry = true ->
  tomoyo_find_condition (l1 ++ (p, c) :: l2) entry
  = Some (p, l1 ++ (p, set_users c (atomic_inc (head_users c))) :: l2).
Proof.
  induction 1 as [|[q d] l1 Hx _ IH]; intros Hc; simpl in *.
  - rewrite Hc. reflexivity.
  - rewrite Hx, (IH Hc). reflexivity.
Qed.

(** A list either has no entry equal to [entry], or splits at the first
    one. *)
Lemma tomoyo_condition_list_split (l : list (addr * struct_tomoyo_condition))
    (entry : struct_tomoyo_condition) :
  Forall (fun x => tomoyo_same_condition (snd x) entry = false) l
  \/ exists l1 p c l2,
       l = l1 ++ (p, c) :: l2
       /\ Forall (fun x => tomoyo_same_condition (snd x) entry = false) l1
       /\ tomoyo_same_condition c entry = true.
Proof.
  induction l as [|[p c] l IH].
  - left. constructor.
  - destruct (tomoyo_same_condition c entry) eqn:E.
    + right. exists [], p, c, l. repeat split; [constructor | exact E].
    + destruct IH as [IH|(l1 & q & d & l2 & -> & Hl1 & Hd)].
      * left. constructor; assumption.
      * right. exists ((p, c) :: l1), q, d, l2.
        repeat split; [constructor; assumption | exact Hd].
Qed.


End StoreProperties.

Lemma tomoyo_same_condition_iff_witness :
  tomoyo_same_condition (H := example_collaborators)
    (example_condition 2 true) (example_condition 0 true) = true
  /\ tomoyo_same_condition (H := example_collaborators)
       (example_condition 1 false) (example_condition 0 true) <> true.
Proof.
  assert (forall u e, block_complete (H := example_collaborators)
                        (example_condition u e)) as Hb.
  { intros u e. unfold block_complete. simpl. lia. }
  split.
  - apply (proj2 (@tomoyo_same_condition_iff example_collaborators
                    (example_condition 2 true) (example_condition 0 true)
                    (Hb 2 true) (Hb 0 true))).
    repeat split; reflexivity.
  - intros E.
    apply (proj1 (@tomoyo_same_condition_iff example_collaborators
                    (example_condition 1 false) (example_condition 0 true)
                    (Hb 1 false) (Hb 0 true))) in E.
    destruct E as (_ & _ & _ & E). discriminate E.
Defined.


(** ** C strings and the buffer *)

Lemma c_string_nul_free (l : list ascii) : NUL ∉ c_string l.
Proof.
  induction l as [|c l IH]; simpl.
  - apply not_elem_of_nil.
  - destruct (is_nul c) eqn:E; [apply not_elem_of_nil|].
    apply not_elem_of_cons. split; [|exact IH].
    intros <-. unfold is_nul in E. by rewrite Ascii.eqb_refl in E.
Qed.

Lemma is_nul_false (c : ascii) : c <> NUL -> is_nul c = false.
Proof. intros Hc. unfold is_nul. by apply Ascii.eqb_neq. Qed.

Lemma c_string_app (w x : list ascii) :
  NUL ∉ w -> c_string (w ++ x) = w ++ c_string x.
Proof.
  induction w as [|c w IH]; intros Hw; simpl; [reflexivity|].
  apply not_elem_of_cons in Hw as [Hc Hw].
  rewrite is_nul_false by congruence. by rewrite IH.
Qed.

Lemma c_string_id (w : list ascii) : NUL ∉ w -> c_string w = w.
Proof.
  intros Hw. rewrite <- (app_nil_r w) at 1.
  rewrite c_string_app by assumption. simpl. apply app_nil_r.
Qed.

Lemma c_string_app_nul (w x : list ascii) :
  NUL ∉ w -> c_string (w ++ NUL :: x) = w.
Proof.
  intros Hw. rewrite c_string_app by assumption. simpl. apply app_nil_r.
Qed.

Lemma index_of_app_here (c : ascii) (w x : list ascii) :
  c ∉ w -> index_of c (w ++ c :: x) = Some (length w).
Proof.
  induction w as [|d w IH]; intros Hw; simpl.
  - by rewrite Ascii.eqb_refl.
  - apply not_elem_of_cons in Hw as [Hc Hw].
    rewrite (proj2 (Ascii.eqb_neq d c)) by congruence.
    by rewrite IH.
Qed.

Lemma index_of_none (c : ascii) (w : list ascii) :
  c ∉ w -> index_of c w = None.
Proof.
  induction w as [|d w IH]; intros Hw; simpl; [reflexivity|].
  apply not_elem_of_cons in Hw as [Hc Hw].
  rewrite (proj2 (Ascii.eqb_neq d c)) by congruence.
  by rewrite IH.
Qed.

Lemma index_of_some (c : ascii) (w : list ascii) (k : nat) :
  index_of c w = Some k ->
  (k < length w)%nat /\ nth k w NUL = c /\ c ∉ take k w.
Proof.
  revert k. induction w as [|d w IH]; intros k; simpl; [discriminate|].
  destruct (Ascii.eqb_spec d c) as [->|Hd].
  - intros [= <-]. simpl. repeat split; [lia | apply not_elem_of_nil].
  - destruct (index_of c w) as [j|]; [|discriminate].
    intros [= <-]. destruct (IH j eq_refl) as (Hj & Hn & Ht).
    simpl. repeat split; [lia | exact Hn |].
    apply not_elem_of_cons. split; [congruence | exact Ht].
Qed.

Lemma peek_app (pre x : list ascii) (k : nat) :
  peek (pre ++ x) (length pre + k) = nth k x NUL.
Proof.
  unfold peek. rewrite app_nth2 by lia. f_equal. lia.
Qed.

Lemma string_at_app (pre x : list ascii) (k : nat) :
  string_at (pre ++ x) (length pre + k) = c_string (drop k x).
Proof.
  unfold string_at. rewrite drop_app_add'; reflexivity.
Qed.

Lemma strchr_app (pre x : list ascii) (c : ascii) :
  strchr (pre ++ x) (length pre) c
  = option_map (Nat.add (length pre)) (index_of c (c_string x)).
Proof.
  unfold strchr, string_at. rewrite drop_app_length. reflexivity.
Qed.

Lemma tomoyo_restore_app (flag : bool) (w x : list ascii) :
  NUL ∉ w -> tomoyo_restore flag (w ++ x) = w ++ tomoyo_restore flag x.
Proof.
  induction w as [|c w IH]; intros Hw; simpl; [reflexivity|].
  apply not_elem_of_cons in Hw as [Hc Hw].
  rewrite is_nul_false by congruence. by rewrite IH.
Qed.

Lemma tomoyo_restore_id (flag : bool) (w : list ascii) :
  NUL ∉ w -> tomoyo_restore flag w = w.
Proof.
  intros Hw. rewrite <- (app_nil_r w) at 1.
  rewrite tomoyo_restore_app by assumption. simpl. apply app_nil_r.
Qed.

Lemma nth_app_terminated (w wt : list ascii) (j : nat) :
  (j <= length w)%nat -> hd NUL wt = NUL ->
  nth j (w ++ wt) NUL = nth j w NUL.
Proof.
  intros Hj Hwt. destruct (decide (j < length w)%nat) as [Hlt|Hge].
  - by apply app_nth1.
  - rewrite app_nth2 by lia. rewrite (nth_overflow w) by lia.
    replace (j - length w)%nat with O by lia.
    destruct wt; [reflexivity | exact Hwt].
Qed.

(** The split of the clause [w] that starts at [left_word = length pre]
    and ends at a space or at the end of the expression. *)
Lemma tomoyo_split_clause_spec (pre w tail : list ascii) :
  NUL ∉ w -> char_space ∉ w ->
  tail = [] \/ (exists rest, tail = char_space :: rest) ->
  tomoyo_split_clause (pre ++ w ++ tail) (length pre)
  = match operator_position w with
    | None => None
    | Some (i, is_not) =>
        Some (pre ++ <[i := NUL]> w ++ written_tail tail,
              next_pos (length pre) w tail,
              (length pre + (if is_not then S (S i) else S i))%nat,
              is_not)
    end.
Proof.
  intros Hnul Hsp Htail. unfold tomoyo_split_clause.
  assert (match strchr (pre ++ w ++ tail) (length pre) char_space with
          | Some cp => (<[cp := NUL]> (pre ++ w ++ tail), InBuf (S cp))
          | None => (pre ++ w ++ tail, EmptyLiteral)
          end
          = (pre ++ w ++ written_tail tail, next_pos (length pre) w tail))
    as ->.
  { rewrite strchr_app.
    destruct Htail as [->|[rest ->]]; simpl.
    - rewrite app_nil_r, (c_string_id w Hnul), (index_of_none _ _ Hsp).
      reflexivity.
    - rewrite (c_string_app w _ Hnul). simpl.
      rewrite (index_of_app_here _ _ _ Hsp). simpl.
      rewrite insert_app_r.
      rewrite <- (Nat.add_0_r (length w)) at 1.
      rewrite insert_app_r. reflexivity. }
  assert (hd NUL (written_tail tail) = NUL) as Hwt.
  { destruct Htail as [->|[rest ->]]; reflexivity. }
  assert (c_string (w ++ written_tail tail) = w) as Hcs.
  { destruct Htail as [->|[rest ->]]; simpl.
    - rewrite app_nil_r. by apply c_string_id.
    - by apply c_string_app_nul. }
  rewrite strchr_app, Hcs. unfold operator_position.
  destruct (index_of char_eq w) as [[|k]|] eqn:Ei; simpl; try reflexivity.
  - rewrite Nat.add_0_r, Nat.eqb_refl. reflexivity.
  - destruct (index_of_some _ _ _ Ei) as (Hk & _ & _).
    rewrite (proj2 (Nat.eqb_neq _ _)) by lia.
    replace (length pre + S k - 1)%nat with (length pre + k)%nat by lia.
    rewrite peek_app, (nth_app_terminated w _ k) by (lia || assumption).
    destruct (Ascii.eqb (nth k w NUL) char_not).
    + rewrite insert_app_r, insert_app_l by lia.
      do 3 f_equal. lia.
    + replace (S (length pre + S k)) with (length pre + S (S k))%nat by lia.
      rewrite peek_app, (nth_app_terminated w _ (S (S k)))
        by (lia || assumption).
      destruct (Ascii.eqb (nth (S (S k)) w NUL) char_eq); simpl;
        [reflexivity|].
      rewrite insert_app_r, insert_app_l by lia. reflexivity.
Qed.

Lemma not_elem_of_take (c : ascii) (w : list ascii) (i : nat) :
  c ∉ w -> c ∉ take i w.
Proof.
  intros Hw Hin. apply Hw. rewrite <- (take_drop i w).
  apply elem_of_app. by left.
Qed.

Lemma not_elem_of_drop (c : ascii) (w : list ascii) (i : nat) :
  c ∉ w -> c ∉ drop i w.
Proof.
  intros Hw Hin. apply Hw. rewrite <- (take_drop i w).
  apply elem_of_app. by right.
Qed.

(** The two words of a split clause, read back from the buffer. *)
Lemma string_at_left (pre w wt : list ascii) (i : nat) :
  NUL ∉ w -> (i < length w)%nat ->
  string_at (pre ++ <[i := NUL]> w ++ wt) (length pre) = clause_left w i.
Proof.
  intros Hnul Hi. unfold string_at, clause_left.
  rewrite drop_app_length, insert_take_drop by assumption.
  rewrite <- app_assoc. simpl. apply c_string_app_nul.
  by apply not_elem_of_take.
Qed.

Lemma string_at_right (pre w wt : list ascii) (i j : nat) :
  NUL ∉ w -> (i < j)%nat -> (j <= length w)%nat -> hd NUL wt = NUL ->
  string_at (pre ++ <[i := NUL]> w ++ wt) (length pre + j) = drop j w.
Proof.
  intros Hnul Hij Hj Hwt. rewrite string_at_app.
  rewrite drop_app_le by (rewrite length_insert; lia).
  rewrite drop_insert_lt by lia.
  assert (NUL ∉ drop j w) as Hd by (by apply not_elem_of_drop).
  destruct wt as [|c wt]; simpl in *.
  - rewrite app_nil_r. by apply c_string_id.
  - subst c. by apply c_string_app_nul.
Qed.

(** ** The clauses of an expression *)

Lemma split_spaces_nonempty (s : list ascii) : split_spaces s <> [].
Proof.
  destruct s as [|c s]; simpl; [discriminate|].
  destruct (Ascii.eqb c char_space); [discriminate|].
  destruct (split_spaces s); discriminate.
Qed.

Lemma split_spaces_app (w r : list ascii) :
  char_space ∉ w ->
  split_spaces (w ++ char_space :: r) = w :: split_spaces r.
Proof.
  induction w as [|c w IH]; intros Hw; simpl.
  - reflexivity.
  - apply not_elem_of_cons in Hw as [Hc Hw].
    rewrite (proj2 (Ascii.eqb_neq c char_space)) by congruence.
    by rewrite IH.
Qed.

Lemma split_spaces_word (w : list ascii) :
  char_space ∉ w -> split_spaces w = [w].
Proof.
  induction w as [|c w IH]; intros Hw; simpl.
  - reflexivity.
  - apply not_elem_of_cons in Hw as [Hc Hw].
    rewrite (proj2 (Ascii.eqb_neq c char_space)) by congruence.
    by rewrite IH.
Qed.

Lemma clauses_of_nil : clauses_of [] = [].
Proof. reflexivity. Qed.

Lemma clauses_of_word (w : list ascii) :
  w <> [] -> char_space ∉ w -> clauses_of w = [w].
Proof.
  intros Hne Hw. unfold clauses_of. rewrite (split_spaces_word w Hw).
  simpl. destruct w; [contradiction | reflexivity].
Qed.

Lemma clauses_of_cons (w r : list ascii) :
  char_space ∉ w ->
  clauses_of (w ++ char_space :: r) = w :: clauses_of r.
Proof.
  intros Hw. unfold clauses_of. rewrite (split_spaces_app w r Hw).
  pose proof (split_spaces_nonempty r) as Hne.
  destruct (split_spaces r) as [|p ps]; [contradiction|].
  change (last (w :: p :: ps)) with (last (p :: ps)).
  destruct (last (p :: ps)) as [[|c q]|]; reflexivity.
Qed.

(** An expression starts with a clause that runs to its first space or to
    its end. *)
Lemma first_clause (s : list ascii) :
  exists w tail,
    s = w ++ tail /\ (char_space ∉ w)
    /\ (tail = [] \/ exists rest, tail = char_space :: rest).
Proof.
  induction s as [|c s (w & tail & -> & Hw & Htail)].
  - exists [], []. repeat split; [apply not_elem_of_nil | by left].
  - destruct (Ascii.eqb_spec c char_space) as [->|Hc].
    + exists [], (char_space :: w ++ tail).
      repeat split; [apply not_elem_of_nil | right; eauto].
    + exists (c :: w), tail. repeat split; [|exact Htail].
      apply not_elem_of_cons. split; [congruence | exact Hw].
Qed.

Lemma take_nth_drop (w : list ascii) (i : nat) :
  (i < length w)%nat -> take i w ++ nth i w NUL :: drop (S i) w = w.
Proof.
  revert i. induction w as [|c w IH]; intros [|i] Hi; simpl in *;
    try lia; [reflexivity|].
  f_equal. apply IH. lia.
Qed.

Lemma hd_drop_app (w x : list ascii) (j : nat) :
  (j <= length w)%nat -> hd NUL x = NUL ->
  hd NUL (drop j w ++ x) = nth j w NUL.
Proof.
  revert j. induction w as [|c w IH]; intros [|j] Hj Hx; simpl in *;
    try lia; try reflexivity.
  - exact Hx.
  - apply IH; [lia | exact Hx].
Qed.

(** What the operator found by the split looks like in the clause. *)
Lemma operator_position_spec (w : list ascii) (i : nat) (is_not : bool) :
  operator_position w = Some (i, is_not) ->
  (i < length w)%nat
  /\ (if is_not
      then nth i w NUL = char_not /\ nth (S i) w NUL = char_eq
           /\ (S i < length w)%nat
      else nth i w NUL = char_eq /\ nth (S i) w NUL <> char_eq).
Proof.
  unfold operator_position.
  destruct (index_of char_eq w) as [[|k]|] eqn:Ei; try discriminate.
  destruct (index_of_some _ _ _ Ei) as (Hk & Hn & _).
  destruct (Ascii.eqb_spec (nth k w NUL) char_not) as [Hnot|Hnot].
  - intros [= <- <-]. repeat split; [lia | exact Hnot | exact Hn | exact Hk].
  - destruct (Ascii.eqb_spec (nth (S (S k)) w NUL) char_eq) as [He|He];
      [discriminate|].
    intros [= <- <-]. repeat split; [exact Hk | exact Hn | exact He].
Qed.

(** Restoring a clause whose operator was overwritten gives the clause
    back, and leaves the flag set for the space that follows. *)
Lemma tomoyo_restore_clause (w x : list ascii) (i : nat) (is_not : bool) :
  NUL ∉ w -> operator_position w = Some (i, is_not) -> hd NUL x = NUL ->
  tomoyo_restore false (<[i := NUL]> w ++ x) = w ++ tomoyo_restore true x.
Proof.
  intros Hnul Hop Hx.
  destruct (operator_position_spec w i is_not Hop) as (Hi & Hchars).
  rewrite insert_take_drop by assumption.
  rewrite <- app_assoc.
  rewrite tomoyo_restore_app by (by apply not_elem_of_take).
  simpl. rewrite (hd_drop_app w x (S i)) by (lia || assumption).
  rewrite tomoyo_restore_app by (by apply not_elem_of_drop).
  replace (w ++ tomoyo_restore true x)
    with ((take i w ++ nth i w NUL :: drop (S i) w)
          ++ tomoyo_restore true x)
    by (by rewrite take_nth_drop).
  rewrite <- app_assoc. simpl. do 2 f_equal.
  destruct is_not.
  - destruct Hchars as (-> & -> & _). reflexivity.
  - destruct Hchars as (-> & Hne).
    by rewrite (proj2 (Ascii.eqb_neq _ _) Hne).
Qed.

(** ** The loop of the parser *)

(** ** The loop of the parser *)
Section LoopProperties.
Context `{Collaborators}.

(** The loop over the buffer [pre ++ s], started at the beginning of [s],
    does what [parse_clauses] says on the clauses of [s]; when it ends at
    [break], the buffer it leaves restores to [s]. *)
Lemma tomoyo_parse_loop_clauses (fuel : nat) :
  forall (s pre : list ascii) (st : parse_state),
    NUL ∉ s -> (length s < fuel)%nat ->
    match parse_clauses (clauses_of s) st with
    | ClausesDone st' =>
        exists m,
          tomoyo_parse_loop fuel (InBuf (length pre)) (pre ++ s) st
          = LoopBreak (pre ++ m) st'
          /\ tomoyo_restore false m = s
    | ClausesOut =>
        tomoyo_parse_loop fuel (InBuf (length pre)) (pre ++ s) st = GotoOut
    | ClausesOverrun =>
        tomoyo_parse_loop fuel (InBuf (length pre)) (pre ++ s) st = Overrun
    end.
Proof.
  induction fuel as [|fuel IH]; intros s pre st Hnul Hlen; [lia|].
  destruct s as [|c0 s0] eqn:Es.
  { (* the end of the expression *)
    simpl. rewrite <- (Nat.add_0_r (length pre)), peek_app. simpl.
    exists []. split; reflexivity. }
  rewrite <- Es in *.
  assert (is_nul (peek (pre ++ s) (length pre)) = false) as Hpeek.
  { rewrite <- (Nat.add_0_r (length pre)), peek_app, Es. simpl.
    apply is_nul_false. intros ->. apply Hnul. rewrite Es. by left. }
  destruct (first_clause s) as (w & tail & Hs & Hsp & Htail).
  assert (NUL ∉ w) as Hw.
  { intros Hin. apply Hnul. rewrite Hs. apply elem_of_app. by left. }
  assert (clauses_of s
          = w :: match tail with
                 | [] => []
                 | _ :: rest => clauses_of rest
                 end) as Hcl.
  { destruct Htail as [->|[rest ->]]; rewrite Hs.
    - rewrite app_nil_r. apply clauses_of_word; [|exact Hsp].
      intros ->. rewrite app_nil_r in Hs. congruence.
    - by apply clauses_of_cons. }
  rewrite Hcl. simpl parse_clauses. simpl tomoyo_parse_loop.
  rewrite Hpeek, Hs, (tomoyo_split_clause_spec pre w tail Hw Hsp Htail).
  destruct (operator_position w) as [[i is_not]|] eqn:Hop; [|reflexivity].
  destruct (operator_position_spec w i is_not Hop) as (Hi & Hchars).
  assert (hd NUL (written_tail tail) = NUL) as Hwt.
  { destruct Htail as [->|[rest ->]]; reflexivity. }
  rewrite (string_at_left pre w _ i Hw Hi).
  assert (string_at (pre ++ <[i := NUL]> w ++ written_tail tail)
            (length pre + (if is_not then S (S i) else S i))
          = clause_right w i is_not) as ->.
  { unfold clause_right. apply string_at_right; try assumption.
    - destruct is_not; lia.
    - destruct is_not; [destruct Hchars as (_ & _ & ?)|]; lia. }
  destruct (tomoyo_parse_clause (clause_left w i) (clause_right w i is_not)
              is_not st) as [st'| |]; [|reflexivity|reflexivity].
  destruct Htail as [->|[rest ->]]; simpl written_tail; simpl next_pos.
  - (* the last clause, not followed by a space *)
    simpl parse_clauses.
    exists (<[i := NUL]> w ++ []). split.
    + destruct fuel as [|fuel]; [|reflexivity].
      rewrite Es in Hlen. simpl in Hlen. lia.
    + rewrite (tomoyo_restore_clause w [] i is_not Hw Hop eq_refl).
      reflexivity.
  - (* a clause followed by a space *)
    assert (NUL ∉ rest) as Hrest.
    { intros Hin. apply Hnul. rewrite Hs. apply elem_of_app. right.
      by right. }
    assert (length rest < fuel)%nat as Hlr.
    { rewrite Hs, length_app in Hlen. simpl in Hlen. lia. }
    specialize (IH rest (pre ++ <[i := NUL]> w ++ [NUL]) st' Hrest Hlr).
    replace (length (pre ++ <[i := NUL]> w ++ [NUL]))
      with (S (length pre + length w)) in IH
      by (rewrite !length_app, length_insert; simpl; lia).
    replace ((pre ++ <[i := NUL]> w ++ [NUL]) ++ rest)
      with (pre ++ <[i := NUL]> w ++ NUL :: rest) in IH
      by (by rewrite <- !app_assoc).
    destruct (parse_clauses (clauses_of rest) st') as [st''| |];
      [|exact IH|exact IH].
    destruct IH as (m & Hloop & Hm).
    exists (<[i := NUL]> w ++ NUL :: m). split.
    + rewrite Hloop. f_equal. by rewrite <- !app_assoc.
    + rewrite (tomoyo_restore_clause w (NUL :: m) i is_not Hw Hop eq_refl).
      simpl. rewrite Hm. reflexivity.
Qed.

End LoopProperties.

Section Restoration.
Context `{Collaborators}.

Lemma tomoyo_dry_run_clauses (data : list ascii) :
  match
    parse_clauses (clauses_of (c_string data))
      {| e_condc := 0; e_numbers_count := 0; entry := None |}
  with
  | ClausesDone st' =>
      exists m, tomoyo_dry_run data = LoopBreak m st'
                /\ tomoyo_restore false m = c_string data
  | ClausesOut => tomoyo_dry_run data = GotoOut
  | ClausesOverrun => tomoyo_dry_run data = Overrun
  end.
Proof.
  unfold tomoyo_dry_run.
  apply (tomoyo_parse_loop_clauses (S (length (c_string data)))
           (c_string data) []
           {| e_condc := 0; e_numbers_count := 0; entry := None |}
           (c_string_nul_free data)).
  lia.
Qed.

(** C5: the dry run over an expression never runs out of iterations,
    and whenever it completes, restoring the buffer it leaves gives the
    original string back byte for byte, with no NUL left in it. *)
Theorem tomoyo_restore_dry_run (data : list ascii) :
  tomoyo_dry_run data <> Exhausted
  /\ forall (b : list ascii) (st : parse_state),
       tomoyo_dry_run data = LoopBreak b st ->
       tomoyo_restore false b = c_string data
       /\ NUL ∉ tomoyo_restore false b.
Proof.
  pose proof (tomoyo_dry_run_clauses data) as Hrun.
  destruct (parse_clauses _ _) as [st'| |].
  - destruct Hrun as (m & Hm & Hr). split; [congruence|].
    intros b st Hb. rewrite Hm in Hb. injection Hb as <- <-.
    rewrite Hr. split; [reflexivity | apply c_string_nul_free].
  - split; [congruence|]. intros b st Hb. congruence.
  - split; [congruence|]. intros b st Hb. congruence.
Qed.

(** [tomoyo_get_condition] does what its reading off the clauses of the
    expression says. *)
Lemma tomoyo_get_condition_clauses (env : environment) (ps : policy_state)
    (data : list ascii) :
  tomoyo_get_condition env ps data
  = get_condition_clauses env ps (clauses_of (c_string data)).
Proof.
  unfold tomoyo_get_condition, get_condition_clauses.
  pose proof (tomoyo_dry_run_clauses data) as Hrun.
  destruct (parse_clauses (clauses_of (c_string data)) _) as [st| |];
    [|by rewrite Hrun|by rewrite Hrun].
  destruct Hrun as (m & -> & Hr). rewrite Hr.
  destruct (kzalloc env) as [a|]; [|reflexivity].
  pose proof (tomoyo_parse_loop_clauses (S (length (c_string data)))
                (c_string data) []
                {| e_condc := e_condc st;
                   e_numbers_count := e_numbers_count st;
                   entry :=
                     Some {| head_users := 0;
                             size :=
                               u32 (size_t
                                      (sizeof_condition
                                       + e_condc st
                                         * sizeof_condition_element
                                       + e_numbers_count st
                                         * sizeof_number_union));
                             condc := e_condc st;
                             numbers_count := e_numbers_count st;
                             condition := []; numbers := [] |} |}
                (c_string_nul_free data) ltac:(lia)) as Hrun2.
  simpl app in Hrun2. simpl length in Hrun2.
  destruct (parse_clauses (clauses_of (c_string data)) _) as [st2| |];
    [|by rewrite Hrun2|by rewrite Hrun2].
  destruct Hrun2 as (m2 & -> & _). reflexivity.
Qed.

End Restoration.

Lemma tomoyo_restore_dry_run_witness :
  tomoyo_restore false
    (list_ascii_of_string
       ("task.uid" ++ String NUL "0" ++ String NUL "path1.uid"
        ++ String NUL "=task.uid"))
  = example_expression.
Proof.
  apply (proj2 (@tomoyo_restore_dry_run example_collaborators
                  example_expression)
           (list_ascii_of_string
              ("task.uid" ++ String NUL "0" ++ String NUL "path1.uid"
               ++ String NUL "=task.uid"))
           {| e_condc := 2; e_numbers_count := 1; entry := None |}).
  reflexivity.
Defined.

(** ** Counting and failing clauses *)

(** ** Counting and failing clauses *)
Section ParseFailure.
Context `{Collaborators}.

Lemma clause_lacks_operator_iff (w : list ascii) :
  clause_lacks_operator w <-> operator_position w = None.
Proof.
  unfold clause_lacks_operator, operator_position.
  destruct (index_of char_eq w) as [[|k]|]; split; try tauto;
    try (intros [?|[?|(? & ? & _)]]; congruence).
  - intros [?|[?|(k' & [= <-] & Hn & He)]]; try discriminate.
    rewrite (proj2 (Ascii.eqb_neq _ _) Hn), He, Ascii.eqb_refl.
    reflexivity.
  - destruct (Ascii.eqb_spec (nth k w NUL) char_not) as [?|Hn];
      [discriminate|].
    destruct (Ascii.eqb_spec (nth (S (S k)) w NUL) char_eq) as [He|?];
      [|discriminate].
    intros _. right. right. by exists k.
Qed.

Lemma u16_add_l (x y : Z) : u16 (u16 x + y) = u16 (x + y).
Proof. unfold u16. apply Z.add_mod_idemp_l. lia. Qed.

Lemma u16_small (x : Z) : 0 <= x < 65536 -> u16 x = x.
Proof. intros Hx. unfold u16. by apply Z.mod_small. Qed.

Lemma u16_range (x : Z) : 0 <= u16 x < 65536.
Proof. unfold u16. apply Z.mod_pos_bound. lia. Qed.

(** In the dry run a clause is only counted. *)
Lemma tomoyo_parse_clause_dry (l r : list ascii) (is_not : bool)
    (st : parse_state) :
  entry st = None -> 0 <= e_numbers_count st < 65536 ->
  exists st',
    tomoyo_parse_clause l r is_not st = BodyNext st'
    /\ entry st' = None
    /\ e_condc st' = u16 (e_condc st + 1)
    /\ e_numbers_count st'
       = u16 (e_numbers_count st
              + Z.of_nat ((if is_literal l then 1 else 0)
                          + (if is_literal r then 1 else 0))).
Proof.
  intros He Hn. unfold tomoyo_parse_clause, tomoyo_parse_side, is_literal.
  destruct st as [c n e]. simpl in *. subst e.
  destruct (is_max_keyword (tomoyo_condition_type l)),
    (is_max_keyword (tomoyo_condition_type r)); simpl;
    eexists; (split; [reflexivity|]); simpl;
    (split; [reflexivity|]); (split; [reflexivity|]).
  all: rewrite ?u16_add_l, ?Z.add_0_r;
    try (symmetry; by apply u16_small); f_equal; lia.
Qed.

(** The dry run over a list of clauses: it stops at the first clause
    that lacks its operator, and otherwise counts the clauses and their
    literals. *)
Lemma parse_clauses_dry (ws : list (list ascii)) :
  forall st : parse_state,
    entry st = None ->
    0 <= e_condc st < 65536 -> 0 <= e_numbers_count st < 65536 ->
    (Exists clause_lacks_operator ws -> parse_clauses ws st = ClausesOut)
    /\ (Forall (fun w => ~ clause_lacks_operator w) ws ->
        exists st',
          parse_clauses ws st = ClausesDone st'
          /\ entry st' = None
          /\ e_condc st' = u16 (e_condc st + Z.of_nat (length ws))
          /\ e_numbers_count st'
             = u16 (e_numbers_count st + Z.of_nat (literal_count ws))).
Proof.
  induction ws as [|w ws IH]; intros st He Hc Hn.
  - split; [intros Hex; inversion Hex|].
    intros _. exists st. simpl. rewrite !Z.add_0_r.
    repeat split; [exact He | |]; symmetry; by apply u16_small.
  - simpl parse_clauses. simpl literal_count. unfold clause_literals.
    destruct (operator_position w) as [[i is_not]|] eqn:Hop.
    + destruct (tomoyo_parse_clause_dry (clause_left w i)
                  (clause_right w i is_not) is_not st He Hn)
        as (st1 & -> & He1 & Hc1 & Hn1).
      destruct (IH st1 He1) as [IHout IHdone].
      { rewrite Hc1. apply u16_range. }
      { rewrite Hn1. apply u16_range. }
      split.
      * intros Hex. inversion Hex as [? ? Hw|? ? Hws]; subst.
        -- apply clause_lacks_operator_iff in Hw. congruence.
        -- by apply IHout.
      * intros Hall. inversion Hall as [|? ? _ Hws]; subst.
        destruct (IHdone Hws) as (st' & -> & He' & Hc' & Hn').
        exists st'. repeat split; [exact He' | |].
        -- rewrite Hc', Hc1, u16_add_l. f_equal. simpl length. lia.
        -- rewrite Hn', Hn1, u16_add_l. f_equal. lia.
    + split; [reflexivity|].
      intros Hall. inversion Hall as [|? ? Hw _]; subst.
      exfalso. apply Hw. by apply clause_lacks_operator_iff.
Qed.

(** In the second run, classifying a side whose operand finds room in
    the array does not write past it; a group reference on the left ends
    the run; otherwise the operand is appended and the header of [entry]
    is left alone. *)
Lemma tomoyo_parse_side_build (is_left : bool) (word : list ascii)
    (st : parse_state) (en : struct_tomoyo_condition) :
  entry st = Some en ->
  (is_literal word = true ->
   Z.of_nat (length (numbers en)) < numbers_count en) ->
  tomoyo_parse_side is_left word st <> SideOverrun
  /\ (is_left = true -> is_literal word = true -> hd NUL word = char_at ->
      tomoyo_parse_side is_left word st = SideOut)
  /\ (forall index st',
         tomoyo_parse_side is_left word st = SideOk index st' ->
         exists en',
           entry st' = Some en'
           /\ condc en' = condc en
           /\ numbers_count en' = numbers_count en
           /\ condition en' = condition en
           /\ length (numbers en')
              = (length (numbers en)
                 + (if is_literal word then 1 else 0))%nat).
Proof.
  intros He Hroom. unfold tomoyo_parse_side, is_literal in *.
  rewrite He.
  destruct (is_max_keyword (tomoyo_condition_type word)).
  - specialize (Hroom eq_refl). apply Z.ltb_lt in Hroom. rewrite Hroom.
    split; [|split].
    + destruct (is_left && Ascii.eqb (hd NUL word) char_at);
        [discriminate|].
      destruct (tomoyo_parse_number_union word); discriminate.
    + intros -> _ ->. rewrite Ascii.eqb_refl. reflexivity.
    + intros index st'.
      destruct (is_left && Ascii.eqb (hd NUL word) char_at);
        [discriminate|].
      destruct (tomoyo_parse_number_union word) as [n|]; [|discriminate].
      intros [= <- <-]. eexists. split; [reflexivity|]. simpl.
      repeat split. rewrite length_app. reflexivity.
  - split; [discriminate|]. split; [discriminate|].
    intros index st' [= <- <-]. exists en.
    repeat split; [exact He | lia].
Qed.

Lemma tomoyo_parse_clause_build (l r : list ascii) (is_not : bool)
    (st : parse_state) (en : struct_tomoyo_condition) :
  entry st = Some en ->
  Z.of_nat (length (condition en)) < condc en ->
  Z.of_nat (length (numbers en)
            + ((if is_literal l then 1 else 0)
               + (if is_literal r then 1 else 0)))
  <= numbers_count en ->
  tomoyo_parse_clause l r is_not st <> BodyOverrun
  /\ (is_literal l = true -> hd NUL l = char_at ->
      tomoyo_parse_clause l r is_not st = BodyOut)
  /\ (forall st',
         tomoyo_parse_clause l r is_not st = BodyNext st' ->
         exists en',
           entry st' = Some en'
           /\ condc en' = condc en
           /\ numbers_count en' = numbers_count en
           /\ length (condition en') = S (length (condition en))
           /\ length (numbers en')
              = (length (numbers en)
                 + ((if is_literal l then 1 else 0)
                    + (if is_literal r then 1 else 0)))%nat).
Proof.
  intros He Hc Hn. unfold tomoyo_parse_clause.
  destruct (tomoyo_parse_side_build true l st en He) as (Ho1 & Hg1 & Hk1).
  { intros Hl. rewrite Hl in Hn. lia. }
  destruct (tomoyo_parse_side true l st) as [left_ st1| |] eqn:E1;
    [|split; [discriminate|split; [reflexivity|discriminate]]|congruence].
  destruct (Hk1 left_ st1 eq_refl) as (en1 & He1 & Hc1 & Hn1 & Hcs1 & Hl1).
  set (st1' := match entry st1 with
               | Some _ => _
               | None => _
               end).
  assert (entry st1' = Some en1) as He1'.
  { subst st1'. rewrite He1. exact He1. }
  destruct (tomoyo_parse_side_build false r st1' en1 He1') as (Ho2 & _ & Hk2).
  { intros Hr. rewrite Hr in Hn. rewrite Hl1, Hn1. lia. }
  destruct (tomoyo_parse_side false r st1') as [right_ st2| |] eqn:E2;
    [|split; [discriminate|split; [|discriminate]]|congruence].
  - destruct (Hk2 right_ st2 eq_refl)
      as (en2 & He2 & Hc2 & Hn2 & Hcs2 & Hl2).
    rewrite He2.
    assert ((Z.of_nat (length (condition en2)) <? condc en2) = true) as ->.
    { apply Z.ltb_lt. rewrite Hcs2, Hcs1, Hc2, Hc1. exact Hc. }
    split; [discriminate|]. split.
    + intros Hl Hat. specialize (Hg1 eq_refl Hl Hat). discriminate.
    + intros st' [= <-]. eexists. split; [reflexivity|]. simpl.
      repeat split; try congruence.
      * rewrite length_app, Hcs2, Hcs1. simpl. lia.
      * rewrite Hl2, Hl1. lia.
  - intros Hl Hat. specialize (Hg1 eq_refl Hl Hat). discriminate.
Qed.

(** The second run over a list of clauses for which [entry] has room:
    it never writes past an array, and it ends at [goto out] when the
    left side of a clause is a group reference. *)
Lemma parse_clauses_build (ws : list (list ascii)) :
  forall (st : parse_state) (en : struct_tomoyo_condition),
    entry st = Some en ->
    Z.of_nat (length (condition en) + length ws) <= condc en ->
    Z.of_nat (length (numbers en) + literal_count ws) <= numbers_count en ->
    parse_clauses ws st <> ClausesOverrun
    /\ (Exists left_is_group_reference ws ->
        parse_clauses ws st = ClausesOut).
Proof.
  induction ws as [|w ws IH]; intros st en He Hc Hn.
  - split; [discriminate | intros Hex; inversion Hex].
  - simpl in *. unfold clause_literals in Hn.
    destruct (operator_position w) as [[i is_not]|] eqn:Hop.
    + destruct (tomoyo_parse_clause_build (clause_left w i)
                  (clause_right w i is_not) is_not st en He)
        as (Ho & Hg & Hk); [lia | lia |].
      destruct (tomoyo_parse_clause (clause_left w i)
                  (clause_right w i is_not) is_not st) as [st'| |];
        [|split; [discriminate|reflexivity]|congruence].
      destruct (Hk st' eq_refl) as (en' & He' & Hc' & Hn' & Hlc & Hln).
      destruct (IH st' en' He') as [IHo IHg];
        [rewrite Hlc, Hc'; lia | rewrite Hln, Hn'; lia |].
      split; [exact IHo|].
      intros Hex. inversion Hex as [? ? Hw|? ? Hws]; subst.
      * destruct Hw as (i' & is_not' & Hop' & Hlit & Hat).
        rewrite Hop in Hop'. injection Hop' as <- <-.
        specialize (Hg Hlit Hat). discriminate.
      * by apply IHg.
    + split; [discriminate|reflexivity].
Qed.

Lemma clause_literals_length (w : list ascii) :
  (clause_literals w <= length w)%nat.
Proof.
  unfold clause_literals.
  destruct (operator_position w) as [[i is_not]|] eqn:Hop; [|lia].
  destruct (operator_position_spec w i is_not Hop) as (Hi & Hchars).
  assert (2 <= length w)%nat.
  { unfold operator_position in Hop.
    destruct (index_of char_eq w) as [[|k]|] eqn:Ei; try discriminate.
    destruct (index_of_some _ _ _ Ei) as (Hk & _). lia. }
  destruct (is_literal _), (is_literal _); lia.
Qed.

(** An expression has no more clauses, and no more literals, than it has
    characters. *)
Lemma clauses_of_length (n : nat) :
  forall s : list ascii,
    (length s <= n)%nat ->
    (length (clauses_of s) <= length s)%nat
    /\ (literal_count (clauses_of s) <= length s)%nat.
Proof.
  induction n as [|n IH]; intros s Hlen.
  - destruct s; [|simpl in Hlen; lia]. split; simpl; lia.
  - destruct (first_clause s) as (w & tail & -> & Hsp & [->|[rest ->]]).
    + rewrite app_nil_r. destruct w as [|c w]; [split; simpl; lia|].
      rewrite (clauses_of_word (c :: w)) by (discriminate || assumption).
      pose proof (clause_literals_length (c :: w)).
      split; simpl in *; lia.
    + rewrite (clauses_of_cons w rest Hsp).
      rewrite length_app in *. simpl in *.
      destruct (IH rest) as [IHc IHl]; [lia|].
      pose proof (clause_literals_length w).
      split; lia.
Qed.

Lemma clauses_lack_operator_cases (ws : list (list ascii)) :
  Exists clause_lacks_operator ws
  \/ Forall (fun w => ~ clause_lacks_operator w) ws.
Proof.
  induction ws as [|w ws [IH|IH]].
  - right. constructor.
  - left. by constructor 2.
  - destruct (operator_position w) eqn:E.
    + right. constructor; [|exact IH].
      rewrite clause_lacks_operator_iff. congruence.
    + left. constructor 1. by apply clause_lacks_operator_iff.
Qed.

End ParseFailure.

(** ** The control flow of the parser *)
Section ControlFlow.
Context `{Collaborators}.

(** The loop followed for its control flow only, over the buffer
    [pre ++ s] from the beginning of [s], does what [classify_clauses]
    says on the clauses of [s]; when it ends at [break], the buffer it
    leaves restores to [s]. *)
Lemma tomoyo_classify_loop_clauses (built : bool) (fuel : nat) :
  forall (s pre : list ascii) (c n : Z),
    NUL ∉ s -> (length s < fuel)%nat ->
    match classify_clauses built (clauses_of s) c n with
    | Some (c', n') =>
        exists m,
          tomoyo_classify_loop fuel built (InBuf (length pre)) (pre ++ s)
            c n
          = ClassifyBreak (pre ++ m) c' n'
          /\ tomoyo_restore false m = s
    | None =>
        tomoyo_classify_loop fuel built (InBuf (length pre)) (pre ++ s)
          c n
        = ClassifyOut
    end.
Proof.
  induction fuel as [|fuel IH]; intros s pre c n Hnul Hlen; [lia|].
  destruct s as [|c0 s0] eqn:Es.
  { simpl. rewrite <- (Nat.add_0_r (length pre)), peek_app. simpl.
    exists []. split; reflexivity. }
  rewrite <- Es in *.
  assert (is_nul (peek (pre ++ s) (length pre)) = false) as Hpeek.
  { rewrite <- (Nat.add_0_r (length pre)), peek_app, Es. simpl.
    apply is_nul_false. intros ->. apply Hnul. rewrite Es. by left. }
  destruct (first_clause s) as (w & tail & Hs & Hsp & Htail).
  assert (NUL ∉ w) as Hw.
  { intros Hin. apply Hnul. rewrite Hs. apply elem_of_app. by left. }
  assert (clauses_of s
          = w :: match tail with
                 | [] => []
                 | _ :: rest => clauses_of rest
                 end) as Hcl.
  { destruct Htail as [->|[rest ->]]; rewrite Hs.
    - rewrite app_nil_r. apply clauses_of_word; [|exact Hsp].
      intros ->. rewrite app_nil_r in Hs. congruence.
    - by apply clauses_of_cons. }
  rewrite Hcl. simpl classify_clauses. simpl tomoyo_classify_loop.
  rewrite Hpeek, Hs, (tomoyo_split_clause_spec pre w tail Hw Hsp Htail).
  destruct (operator_position w) as [[i is_not]|] eqn:Hop; [|reflexivity].
  destruct (operator_position_spec w i is_not Hop) as (Hi & Hchars).
  assert (hd NUL (written_tail tail) = NUL) as Hwt.
  { destruct Htail as [->|[rest ->]]; reflexivity. }
  rewrite (string_at_left pre w _ i Hw Hi).
  assert (string_at (pre ++ <[i := NUL]> w ++ written_tail tail)
            (length pre + (if is_not then S (S i) else S i))
          = clause_right w i is_not) as ->.
  { unfold clause_right. apply string_at_right; try assumption.
    - destruct is_not; lia.
    - destruct is_not; [destruct Hchars as (_ & _ & ?)|]; lia. }
  destruct (tomoyo_classify_clause built (clause_left w i)
              (clause_right w i is_not) c n) as [[c' n']|]; [|reflexivity].
  destruct Htail as [->|[rest ->]]; simpl written_tail; simpl next_pos.
  - simpl classify_clauses.
    exists (<[i := NUL]> w ++ []). split.
    + destruct fuel as [|fuel]; [|reflexivity].
      rewrite Es in Hlen. simpl in Hlen. lia.
    + rewrite (tomoyo_restore_clause w [] i is_not Hw Hop eq_refl).
      reflexivity.
  - assert (NUL ∉ rest) as Hrest.
    { intros Hin. apply Hnul. rewrite Hs. apply elem_of_app. right.
      by right. }
    assert (length rest < fuel)%nat as Hlr.
    { rewrite Hs, length_app in Hlen. simpl in Hlen. lia. }
    specialize (IH rest (pre ++ <[i := NUL]> w ++ [NUL]) c' n' Hrest Hlr).
    replace (length (pre ++ <[i := NUL]> w ++ [NUL]))
      with (S (length pre + length w)) in IH
      by (rewrite !length_app, length_insert; simpl; lia).
    replace ((pre ++ <[i := NUL]> w ++ [NUL]) ++ rest)
      with (pre ++ <[i := NUL]> w ++ NUL :: rest) in IH
      by (by rewrite <- !app_assoc).
    destruct (classify_clauses built (clauses_of rest) c' n')
      as [[c'' n'']|]; [|exact IH].
    destruct IH as (m & Hloop & Hm).
    exists (<[i := NUL]> w ++ NUL :: m). split.
    + rewrite Hloop. f_equal. by rewrite <- !app_assoc.
    + rewrite (tomoyo_restore_clause w (NUL :: m) i is_not Hw Hop eq_refl).
      simpl. rewrite Hm. reflexivity.
Qed.

(** The exit of [tomoyo_get_condition] read off the clauses of the
    line. *)
Lemma tomoyo_get_condition_exit_clauses (env : environment)
    (ps : policy_state) (data : list ascii) :
  tomoyo_get_condition_exit env ps data
  = match classify_clauses false (clauses_of (c_string data)) 0 0 with
    | None => ExitNull ps
    | Some (c, n) =>
        match kzalloc env with
        | None => ExitNull ps
        | Some a =>
            match
              classify_clauses true (clauses_of (c_string data)) c n
            with
            | None => ExitNull (kfree a (with_allocated a ps))
            | Some (c2, n2) =>
                if Z.lor n2 c2 =? 0
                then ExitCommit a (with_allocated a ps) else ExitBug
            end
        end
    end.
Proof.
  unfold tomoyo_get_condition_exit.
  pose proof (tomoyo_classify_loop_clauses false
                (S (length (c_string data))) (c_string data) [] 0 0
                (c_string_nul_free data) ltac:(lia)) as Hrun.
  simpl app in Hrun. simpl length in Hrun.
  destruct (classify_clauses false (clauses_of (c_string data)) 0 0)
    as [[c n]|]; [|by rewrite Hrun].
  destruct Hrun as (m & -> & Hr). rewrite Hr.
  destruct (kzalloc env) as [a|]; [|reflexivity].
  pose proof (tomoyo_classify_loop_clauses true
                (S (length (c_string data))) (c_string data) [] c n
                (c_string_nul_free data) ltac:(lia)) as Hrun2.
  simpl app in Hrun2. simpl length in Hrun2.
  destruct (classify_clauses true (clauses_of (c_string data)) c n)
    as [[c2 n2]|]; [|by rewrite Hrun2].
  destruct Hrun2 as (m2 & -> & _). reflexivity.
Qed.



(** The control flow followed on its own agrees with the loop that
    stores, up to the store that leaves the block. *)
Lemma tomoyo_classify_side_agrees (is_left : bool) (word : list ascii)
    (st : parse_state) :
  match tomoyo_parse_side is_left word st with
  | SideOk index st' =>
      tomoyo_classify_side (entry_built st) is_left word
        (e_numbers_count st)
      = Some (index, e_numbers_count st')
      /\ e_condc st' = e_condc st
      /\ entry_built st' = entry_built st
  | SideOut =>
      tomoyo_classify_side (entry_built st) is_left word
        (e_numbers_count st) = None
  | SideOverrun => True
  end.
Proof.
  unfold tomoyo_parse_side, tomoyo_classify_side, entry_built.
  destruct (is_max_keyword (tomoyo_condition_type word));
    [|by repeat split].
  destruct (entry st) as [en|] eqn:He; simpl; [|by rewrite He].
  destruct (is_left && Ascii.eqb (hd NUL word) char_at); [reflexivity|].
  destruct (Z.of_nat (length (numbers en)) <? numbers_count en);
    [|exact I].
  destruct (tomoyo_parse_number_union word); [|reflexivity].
  by repeat split.
Qed.

Lemma tomoyo_classify_clause_agrees (l r : list ascii) (is_not : bool)
    (st : parse_state) :
  match tomoyo_parse_clause l r is_not st with
  | BodyNext st' =>
      tomoyo_classify_clause (entry_built st) l r (e_condc st)
        (e_numbers_count st)
      = Some (e_condc st', e_numbers_count st')
      /\ entry_built st' = entry_built st
  | BodyOut =>
      tomoyo_classify_clause (entry_built st) l r (e_condc st)
        (e_numbers_count st) = None
  | BodyOverrun => True
  end.
Proof.
  unfold tomoyo_parse_clause, tomoyo_classify_clause.
  pose proof (tomoyo_classify_side_agrees true l st) as Hl.
  destruct (tomoyo_parse_side true l st) as [left_ st1| |];
    [|by rewrite Hl|exact I].
  destruct Hl as (-> & Hc1 & Hb1).
  match goal with
  | |- context [tomoyo_parse_side false r ?s] => set (s1 := s)
  end.
  assert (entry_built s1 = entry_built st
          /\ e_numbers_count s1 = e_numbers_count st1
          /\ e_condc s1
             = (if entry_built st then u16 (e_condc st - 1)
                else u16 (e_condc st + 1))) as (Hb & Hn & Hc).
  { rewrite <- Hb1, <- Hc1. subst s1. unfold entry_built.
    destruct (entry st1) eqn:E1; simpl; rewrite E1; by repeat split. }
  pose proof (tomoyo_classify_side_agrees false r s1) as Hr.
  rewrite Hb, Hn in Hr.
  destruct (tomoyo_parse_side false r s1) as [right_ st2| |];
    [|by rewrite Hr|exact I].
  destruct Hr as (Hr & Hc2 & Hb2). rewrite Hr.
  unfold entry_built in Hb2, Hc.
  destruct (entry st2) as [en2|] eqn:E2.
  - destruct (_ <? _); [|exact I]. simpl.
    destruct (entry st) eqn:E0; [|discriminate].
    split; [|unfold entry_built; simpl; by rewrite E0].
    unfold with_entry. cbn [e_condc e_numbers_count].
    rewrite Hc2, Hc. unfold entry_built. by rewrite E0.
  - destruct (entry st) eqn:E0; [discriminate|].
    split; [|unfold entry_built; by rewrite E2, E0].
    rewrite Hc2, Hc. unfold entry_built. by rewrite E0.
Qed.

Lemma classify_clauses_agrees (ws : list (list ascii)) :
  forall st : parse_state,
    match parse_clauses ws st with
    | ClausesDone st' =>
        classify_clauses (entry_built st) ws (e_condc st)
          (e_numbers_count st)
        = Some (e_condc st', e_numbers_count st')
    | ClausesOut =>
        classify_clauses (entry_built st) ws (e_condc st)
          (e_numbers_count st) = None
    | ClausesOverrun => True
    end.
Proof.
  induction ws as [|w ws IH]; intros st; simpl; [reflexivity|].
  destruct (operator_position w) as [[i is_not]|]; [|reflexivity].
  pose proof (tomoyo_classify_clause_agrees (clause_left w i)
                (clause_right w i is_not) is_not st) as Hw.
  destruct (tomoyo_parse_clause (clause_left w i)
              (clause_right w i is_not) is_not st) as [st1| |];
    [|by rewrite Hw|exact I].
  destruct Hw as (-> & Hb). rewrite <- Hb. apply IH.
Qed.

(** Whenever [tomoyo_get_condition] returns, it has taken the exit that
    [tomoyo_get_condition_exit] tells: [return NULL] with the same
    policy state, or the commit of the block [kzalloc] returned. *)
Lemma tomoyo_get_condition_exit_agrees (env : environment)
    (ps ps' : policy_state) (data : list ascii) (ret : option addr) :
  tomoyo_get_condition env ps data = Returns ret ps' ->
  (ret = None /\ tomoyo_get_condition_exit env ps data = ExitNull ps')
  \/ exists a en,
       kzalloc env = Some a
       /\ tomoyo_get_condition_exit env ps data
          = ExitCommit a (with_allocated a ps)
       /\ tomoyo_commit_condition env (with_allocated a ps) (a, en)
          = (ret, ps').
Proof.
  rewrite tomoyo_get_condition_clauses, tomoyo_get_condition_exit_clauses.
  set (ws := clauses_of (c_string data)).
  unfold get_condition_clauses.
  pose proof (classify_clauses_agrees ws
                {| e_condc := 0; e_numbers_count := 0; entry := None |})
    as Hdry.
  unfold entry_built in Hdry. cbn [entry e_condc e_numbers_count] in Hdry.
  destruct (parse_clauses ws _) as [st| |];
    [|rewrite Hdry; intros [= <- <-]; by left|discriminate].
  rewrite Hdry.
  destruct (kzalloc env) as [a|]; [|intros [= <- <-]; by left].
  match goal with
  | |- context [parse_clauses ws ?s] =>
      pose proof (classify_clauses_agrees ws s) as Hbuild;
      unfold entry_built in Hbuild;
      cbn [entry e_condc e_numbers_count] in Hbuild;
      destruct (parse_clauses ws s) as [st2| |]
  end; [|rewrite Hbuild; intros [= <- <-]; by left|discriminate].
  rewrite Hbuild.
  destruct (_ =? 0); [|discriminate].
  destruct (entry st2) as [en2|]; [|discriminate].
  destruct (tomoyo_commit_condition env (with_allocated a ps) (a, en2))
    as [ret0 ps0] eqn:Ecommit.
  intros [= <- <-]. right. exists a, en2. by repeat split.
Qed.

End ControlFlow.

(** ** Parsing the empty and the sample expression *)

(** ** Parsing the empty and the sample expression *)
Section ParseExamples.
Context `{Collaborators}.

Lemma tomoyo_same_condition_header (a b : struct_tomoyo_condition) :
  tomoyo_same_condition a b = true ->
  size a = size b /\ condc a = condc b
  /\ numbers_count a = numbers_count b.
Proof.
  unfold tomoyo_same_condition. rewrite !andb_true_iff, !Z.eqb_eq. tauto.
Qed.

(** When the lock is taken and the quota admits the candidate, the commit
    returns an object of the list whose header agrees with the
    candidate's. *)
Lemma tomoyo_commit_condition_returns (env : environment)
    (ps : policy_state) (a : addr) (en : struct_tomoyo_condition) :
  mutex_lock_interruptible env = false ->
  tomoyo_memory_ok env en = true ->
  exists p c ps',
    tomoyo_commit_condition env ps (a, en) = (Some p, ps')
    /\ (p, c) ∈ tomoyo_condition_list ps'
    /\ size c = size en /\ condc c = condc en
    /\ numbers_count c = numbers_count en.
Proof.
  intros Hlock Hok. unfold tomoyo_commit_condition. rewrite Hlock. simpl.
  destruct (tomoyo_condition_list_split (tomoyo_condition_list ps) en)
    as [Hnone|(l1 & p & c & l2 & Hl & Hl1 & Hc)].
  - rewrite (tomoyo_find_condition_none _ _ Hnone), Hok.
    exists a, (set_users en 1). eexists. split; [reflexivity|]. simpl.
    split; [by left | repeat split].
  - rewrite Hl, (tomoyo_find_condition_first l1 l2 p c _ Hl1 Hc).
    destruct (tomoyo_same_condition_header c en Hc) as (Hs & Hcc & Hn).
    exists p, (set_users c (atomic_inc (head_users c))). eexists.
    split; [reflexivity|]. simpl.
    split; [|repeat split; assumption].
    apply elem_of_app. right. by left.
Qed.

(** A condition without clauses holds for every request. *)
Lemma tomoyo_condition_no_clause (cur : task_struct)
    (r : tomoyo_request_info) (c : struct_tomoyo_condition) :
  condc c = 0 -> snd (tomoyo_condition cur r (Some c)) = Some true.
Proof. intros Hc. unfold tomoyo_condition. rewrite Hc. reflexivity. Qed.

(** C10: when the allocation succeeds, the lock is taken and the quota
    admits the object, parsing the empty expression returns a condition
    of the list with no clause and no operand, whose size is that of the
    header alone, and which evaluates to true for every request. *)
Theorem tomoyo_get_condition_empty (env : environment) (ps : policy_state)
    (a : addr) :
  kzalloc env = Some a ->
  mutex_lock_interruptible env = false ->
  (forall c, tomoyo_memory_ok env c = true) ->
  0 <= sizeof_condition < 4294967296 ->
  exists p c ps',
    tomoyo_get_condition env ps [] = Returns (Some p) ps'
    /\ (p, c) ∈ tomoyo_condition_list ps'
    /\ condc c = 0 /\ numbers_count c = 0
    /\ size c = sizeof_condition
    /\ forall cur r, snd (tomoyo_condition cur r (Some c)) = Some true.
Proof.
  intros Ha Hlock Hok Hsize.
  unfold tomoyo_get_condition. simpl. rewrite Ha. simpl.
  match goal with
  | |- context [tomoyo_commit_condition env ?ps1 (a, ?en)] =>
      destruct (tomoyo_commit_condition_returns env ps1 a en Hlock (Hok en))
        as (p & c & ps' & -> & Hin & Hs & Hc & Hn)
  end.
  simpl in Hs, Hc, Hn.
  exists p, c, ps'. repeat split; try assumption.
  - rewrite Hs. unfold u32, size_t.
    replace (sizeof_condition + 0 * sizeof_condition_element
             + 0 * sizeof_number_union) with sizeof_condition by lia.
    rewrite (Z.mod_small sizeof_condition) by lia.
    apply Z.mod_small. lia.
  - intros cur r. by apply tomoyo_condition_no_clause.
Qed.

End ParseExamples.

Section ExpressionExample.
Context `{Collaborators}.

(** C9 (amended): with [task.uid] and [path1.uid] in the keyword table,
    [0] not a keyword but a literal the literal parser accepts, and the
    allocation, the lock and the quota in favour, parsing
    ["task.uid=0 path1.uid!=task.uid"] returns a condition of the list
    with two clauses and one numeric operand, the literal [0]. *)
Theorem tomoyo_get_condition_example (env : environment)
    (ps : policy_state) (a : addr) (n : tomoyo_number_union) :
  tomoyo_condition_type (list_ascii_of_string "task.uid") = TOMOYO_TASK_UID ->
  tomoyo_condition_type (list_ascii_of_string "path1.uid")
  = TOMOYO_PATH1_UID ->
  tomoyo_condition_type (list_ascii_of_string "0")
  = TOMOYO_MAX_CONDITION_KEYWORD ->
  tomoyo_parse_number_union (list_ascii_of_string "0") = Some n ->
  kzalloc env = Some a ->
  mutex_lock_interruptible env = false ->
  (forall c, tomoyo_memory_ok env c = true) ->
  exists p c ps',
    tomoyo_get_condition env ps example_expression = Returns (Some p) ps'
    /\ (p, c) ∈ tomoyo_condition_list ps'
    /\ condc c = 2 /\ numbers_count c = 1.
Proof.
  intros Htask Hpath Hzero Hparse Ha Hlock Hok.
  rewrite tomoyo_get_condition_clauses.
  change (clauses_of (c_string example_expression))
    with [list_ascii_of_string "task.uid=0";
          list_ascii_of_string "path1.uid!=task.uid"].
  unfold get_condition_clauses.
  change (operator_position (list_ascii_of_string "task.uid=0"))
    with (Some (8%nat, false)) in *.
  assert (forall st,
    parse_clauses [list_ascii_of_string "task.uid=0";
                   list_ascii_of_string "path1.uid!=task.uid"] st
    = match
        tomoyo_parse_clause (list_ascii_of_string "task.uid")
          (list_ascii_of_string "0") false st
      with
      | BodyNext st' =>
          match
            tomoyo_parse_clause (list_ascii_of_string "path1.uid")
              (list_ascii_of_string "task.uid") true st'
          with
          | BodyNext st'' => ClausesDone st''
          | BodyOut => ClausesOut
          | BodyOverrun => ClausesOverrun
          end
      | BodyOut => ClausesOut
      | BodyOverrun => ClausesOverrun
      end) as Hcl by reflexivity.
  simpl list_ascii_of_string in *.
  rewrite Hcl. unfold tomoyo_parse_clause, tomoyo_parse_side.
  rewrite Htask, Hpath, Hzero. simpl. rewrite Ha. simpl.
  unfold clause_right. simpl drop.
  unfold tomoyo_parse_clause, tomoyo_parse_side.
  rewrite Htask, Hpath, Hzero. simpl. rewrite Hparse. simpl.
  match goal with
  | |- context [tomoyo_commit_condition env ?ps1 (a, ?en)] =>
      destruct (tomoyo_commit_condition_returns env ps1 a en Hlock (Hok en))
        as (p & c & ps' & -> & Hin & Hs & Hc & Hn)
  end.
  exists p, c, ps'. repeat split; assumption.
Qed.

End ExpressionExample.

(** C9 as stated fails: with the reference collaborators, parsing
    ["task.uid=0 path1.uid!=task.uid"] does not yield a condition with no
    numeric operand; the literal [0] is an operand. *)
Lemma tomoyo_get_condition_example_counterexample :
  ~ (exists p c ps',
        tomoyo_get_condition (H := example_collaborators)
          example_environment empty_policy example_expression
        = Returns (Some p) ps'
        /\ (p, c) ∈ tomoyo_condition_list ps'
        /\ condc c = 2 /\ numbers_count c = 0).
Proof.
  intros (p & c & ps' & Hget & Hin & _ & Hn).
  vm_compute in Hget. injection Hget as <- <-. simpl in Hin.
  apply list_elem_of_singleton in Hin. injection Hin as ->.
  discriminate Hn.
Qed.

Lemma tomoyo_get_condition_example_witness :
  exists p c ps',
    tomoyo_get_condition (H := example_collaborators)
      example_environment example_policy example_expression
    = Returns (Some p) ps'
    /\ (p, c) ∈ tomoyo_condition_list ps'
    /\ condc c = 2 /\ numbers_count c = 1.
Proof.
  apply (@tomoyo_get_condition_example example_collaborators
           example_environment example_policy 7%nat (interval 0 0));
    reflexivity.
Defined.

Lemma tomoyo_get_condition_empty_witness :
  exists p c ps',
    tomoyo_get_condition (H := example_collaborators) example_environment
      example_policy []
    = Returns (Some p) ps'
    /\ (p, c) ∈ tomoyo_condition_list ps'
    /\ condc c = 0 /\ numbers_count c = 0
    /\ size c = 20
    /\ forall cur r,
         snd (tomoyo_condition (H := example_collaborators) cur r (Some c))
         = Some true.
Proof.
  apply (@tomoyo_get_condition_empty example_collaborators
           example_environment example_policy 7%nat);
    [reflexivity | reflexivity | reflexivity | simpl; lia].
Defined.

(** ** The conditions of the list are complete *)

Section CompleteConditions.
Context `{Collaborators}.

Lemma tomoyo_condition_scan_keyword (l : list tomoyo_conditions_index)
    (word : list ascii) :
  Forall (fun i => is_number_union i = false) l ->
  is_number_union (tomoyo_condition_scan l word) = false.
Proof.
  induction 1 as [|i l Hi _ IH]; simpl; [reflexivity|].
  destruct (strcmp_eq word (tomoyo_condition_keyword i)); assumption.
Qed.

Lemma tomoyo_condition_type_keyword (word : list ascii) :
  is_number_union (tomoyo_condition_type word) = false.
Proof.
  apply tomoyo_condition_scan_keyword. unfold tomoyo_keyword_indices.
  repeat constructor.
Qed.

Lemma operands_needed_list_app (cs : list tomoyo_condition_element)
    (c : tomoyo_condition_element) :
  operands_needed_list (cs ++ [c])
  = (operands_needed_list cs + operands_needed c)%nat.
Proof. induction cs as [|d cs IH]; simpl; lia. Qed.

Lemma tomoyo_parse_side_invariant (is_left : bool) (word : list ascii)
    (st : parse_state) (en : struct_tomoyo_condition)
    (index : tomoyo_conditions_index) (st' : parse_state) :
  entry st = Some en ->
  numbers_count en < 65536 ->
  e_numbers_count st = numbers_count en - Z.of_nat (length (numbers en)) ->
  tomoyo_parse_side is_left word st = SideOk index st' ->
  exists en',
    entry st' = Some en'
    /\ size en' = size en
    /\ condc en' = condc en /\ numbers_count en' = numbers_count en
    /\ condition en' = condition en
    /\ e_condc st' = e_condc st
    /\ e_numbers_count st'
       = numbers_count en' - Z.of_nat (length (numbers en'))
    /\ length (numbers en')
       = (length (numbers en)
          + (if is_number_union index then 1 else 0))%nat.
Proof.
  intros He Hmax Hn. unfold tomoyo_parse_side. rewrite He.
  pose proof (tomoyo_condition_type_keyword word) as Hkw.
  destruct (is_max_keyword (tomoyo_condition_type word)).
  - destruct (is_left && Ascii.eqb (hd NUL word) char_at); [discriminate|].
    destruct (Z.ltb_spec (Z.of_nat (length (numbers en))) (numbers_count en))
      as [Hlt|Hge]; [|discriminate].
    destruct (tomoyo_parse_number_union word) as [n|]; [|discriminate].
    intros [= <- <-]. eexists. split; [reflexivity|]. simpl.
    repeat split.
    + rewrite length_app. simpl. rewrite u16_small by lia. lia.
    + by rewrite length_app.
  - intros [= <- <-]. exists en. rewrite Hkw.
    repeat split; [exact He | exact Hn | lia].
Qed.

Lemma tomoyo_parse_clause_invariant (l r : list ascii) (is_not : bool)
    (st st' : parse_state) (en : struct_tomoyo_condition) :
  build_invariant st en ->
  tomoyo_parse_clause l r is_not st = BodyNext st' ->
  exists en',
    build_invariant st' en'
    /\ size en' = size en /\ condc en' = condc en
    /\ numbers_count en' = numbers_count en.
Proof.
  intros (He & Hcmax & Hnmax & Hc & Hn & Hops). unfold tomoyo_parse_clause.
  destruct (tomoyo_parse_side true l st) as [left_ st1| |] eqn:E1;
    [|discriminate|discriminate].
  destruct (tomoyo_parse_side_invariant true l st en left_ st1
              He Hnmax Hn E1)
    as (en1 & He1 & Hs1 & Hc1 & Hn1 & Hcs1 & Hec1 & Hen1 & Hl1).
  rewrite He1.
  match goal with
  | |- context [tomoyo_parse_side false r ?s] => set (st1' := s)
  end.
  destruct (tomoyo_parse_side false r st1') as [right_ st2| |] eqn:E2;
    [|discriminate|discriminate].
  destruct (tomoyo_parse_side_invariant false r st1' en1 right_ st2
              He1 ltac:(lia) Hen1 E2)
    as (en2 & He2 & Hs2 & Hc2 & Hn2 & Hcs2 & Hec2 & Hen2 & Hl2).
  rewrite He2.
  destruct (Z.ltb_spec (Z.of_nat (length (condition en2))) (condc en2))
    as [Hlt|Hge]; [|discriminate].
  intros [= <-].
  exists (set_arrays en2
            (condition en2
             ++ [{| left := left_; right := right_;
                    equals := negb is_not |}])
            (numbers en2)).
  split; [|simpl; split; [|split]; congruence].
  unfold build_invariant. simpl.
  split; [reflexivity|]. split; [lia|]. split; [lia|].
  split; [|split].
  - rewrite length_app. simpl. rewrite Hec2. subst st1'. simpl.
    rewrite Hec1, Hc, Hcs2, Hcs1, Hc2, Hc1 in *.
    rewrite u16_small by lia. lia.
  - exact Hen2.
  - rewrite operands_needed_list_app, Hcs2, Hcs1, Hops, Hl2, Hl1.
    unfold operands_needed. simpl. lia.
Qed.

Lemma parse_clauses_invariant (ws : list (list ascii)) :
  forall (st st' : parse_state) (en : struct_tomoyo_condition),
    build_invariant st en ->
    parse_clauses ws st = ClausesDone st' ->
    exists en',
      build_invariant st' en'
      /\ size en' = size en /\ condc en' = condc en
      /\ numbers_count en' = numbers_count en.
Proof.
  induction ws as [|w ws IH]; intros st st' en Hinv; simpl.
  - intros [= <-]. by exists en.
  - destruct (operator_position w) as [[i is_not]|]; [|discriminate].
    destruct (tomoyo_parse_clause (clause_left w i)
                (clause_right w i is_not) is_not st) as [st1| |] eqn:E;
      [|discriminate|discriminate].
    destruct (tomoyo_parse_clause_invariant _ _ _ _ _ _ Hinv E)
      as (en1 & Hinv1 & Hs1 & Hc1 & Hn1).
    intros Hrest.
    destruct (IH st1 st' en1 Hinv1 Hrest) as (en' & Hinv' & Hs & Hc & Hn).
    exists en'. split; [exact Hinv'|]. split; [|split]; congruence.
Qed.

Lemma arrays_complete_set_users (c : struct_tomoyo_condition) (u : Z) :
  arrays_complete c -> arrays_complete (set_users c u).
Proof. intros Hc. exact Hc. Qed.

Lemma tomoyo_find_condition_complete
    (l l' : list (addr * struct_tomoyo_condition))
    (en : struct_tomoyo_condition) (p : addr) :
  Forall (fun x => arrays_complete (snd x)) l ->
  tomoyo_find_condition l en = Some (p, l') ->
  Forall (fun x => arrays_complete (snd x)) l'.
Proof.
  revert l'. induction l as [|[q c] l IH]; intros l' Hall; simpl;
    [discriminate|].
  inversion Hall as [|? ? Hc Hl]; subst.
  destruct (tomoyo_same_condition c en).
  - intros [= <- <-]. constructor; [exact Hc | exact Hl].
  - destruct (tomoyo_find_condition l en) as [[q' l'']|]; [|discriminate].
    intros [= <- <-]. constructor; [exact Hc | by apply IH].
Qed.

(** Every condition that parsing adds to the list is complete: its
    arrays hold [condc] clauses and an operand for every operand
    selector.  So the list keeps holding only complete conditions. *)
Lemma tomoyo_get_condition_complete (env : environment)
    (ps ps' : policy_state) (data : list ascii) (ret : option addr) :
  Forall (fun x => arrays_complete (snd x)) (tomoyo_condition_list ps) ->
  tomoyo_get_condition env ps data = Returns ret ps' ->
  Forall (fun x => arrays_complete (snd x)) (tomoyo_condition_list ps').
Proof.
  intros Hall. rewrite tomoyo_get_condition_clauses.
  set (ws := clauses_of (c_string data)).
  unfold get_condition_clauses.
  destruct (parse_clauses ws _) as [st| |] eqn:Edry;
    [|by intros [= <- <-]|discriminate].
  destruct (kzalloc env) as [a|]; [|by intros [= <- <-]].
  match goal with
  | |- context [parse_clauses ws
                  {| e_condc := _; e_numbers_count := _;
                     entry := Some ?e |}] => set (en0 := e)
  end.
  match goal with
  | |- context [parse_clauses ws ?s] => set (st0 := s)
  end.
  destruct (parse_clauses ws st0) as [st2| |] eqn:Ebuild;
    [|by intros [= <- <-]|discriminate].
  assert (0 <= e_condc st < 65536 /\ 0 <= e_numbers_count st < 65536)
    as [Hcr Hnr].
  { destruct (clauses_lack_operator_cases ws) as [Hex|Hno].
    - destruct (parse_clauses_dry ws
                  {| e_condc := 0; e_numbers_count := 0; entry := None |}
                  eq_refl ltac:(simpl; lia) ltac:(simpl; lia))
        as [Hout _].
      rewrite (Hout Hex) in Edry. discriminate.
    - destruct (parse_clauses_dry ws
                  {| e_condc := 0; e_numbers_count := 0; entry := None |}
                  eq_refl ltac:(simpl; lia) ltac:(simpl; lia))
        as [_ Hdone].
      destruct (Hdone Hno) as (st' & Hst' & _ & Hc & Hn).
      rewrite Hst' in Edry. injection Edry as <-.
      rewrite Hc, Hn. split; apply u16_range. }
  assert (build_invariant st0 en0) as Hinv0.
  { unfold build_invariant. subst st0 en0. simpl.
    split; [reflexivity|]. split; [lia|]. split; [lia|].
    split; [lia|]. split; [lia|reflexivity]. }
  destruct (parse_clauses_invariant ws st0 st2 en0 Hinv0 Ebuild)
    as (en2 & (He2 & _ & _ & Hc2 & Hn2 & Hops) & _ & _ & _).
  rewrite He2.
  destruct (Z.eqb_spec (Z.lor (e_numbers_count st2) (e_condc st2)) 0)
    as [Hzero|]; [|discriminate].
  assert (arrays_complete en2) as Hen2.
  { apply Z.lor_eq_0_iff in Hzero as [Hn0 Hc0].
    split; [lia | rewrite Hops; lia]. }
  unfold tomoyo_commit_condition. simpl.
  destruct (mutex_lock_interruptible env); [by intros [= <- <-]|].
  destruct (tomoyo_find_condition (tomoyo_condition_list ps) en2)
    as [[p l']|] eqn:Efind.
  - intros [= <- <-]. simpl.
    by apply (tomoyo_find_condition_complete _ _ _ _ Hall Efind).
  - destruct (tomoyo_memory_ok env en2); intros [= <- <-]; simpl;
      [|exact Hall].
    constructor; [exact Hen2 | exact Hall].
Qed.

End CompleteConditions.

(** ** Further properties of the attribute cache and the evaluator *)

(** X1: [tomoyo_get_attributes] fills the slot of a path role exactly
    when the role has a path node backed by an inode (for a parent role:
    the parent of the node of its path), with the six attributes of that
    inode; every other slot, the validity flags already set, the
    [validate_done] flag and the two paths are left as they were. *)
Theorem tomoyo_get_attributes_snapshot (ob : tomoyo_obj_info)
    (i : tomoyo_path_stat_index) :
  stat_valid (tomoyo_get_attributes ob) i
  = match path_role_inode ob i with
    | Some _ => true
    | None => stat_valid ob i
    end
  /\ stat (tomoyo_get_attributes ob) i
     = match path_role_inode ob i with
       | Some ino_ => inode_stat ino_
       | None => stat ob i
       end
  /\ validate_done (tomoyo_get_attributes ob) = validate_done ob
  /\ path1_dentry (tomoyo_get_attributes ob) = path1_dentry ob
  /\ path2_dentry (tomoyo_get_attributes ob) = path2_dentry ob.
Proof.
  unfold tomoyo_get_attributes, path_role_inode.
  destruct (path1_dentry ob) as [d1|] eqn:E1;
    destruct (path2_dentry ob) as [d2|] eqn:E2;
    try destruct (d_inode d1) eqn:I1;
    try destruct (d_inode (dget_parent d1)) eqn:I1p;
    try destruct (d_inode d2) eqn:I2;
    try destruct (d_inode (dget_parent d2)) eqn:I2p;
    repeat (simpl; unfold tomoyo_stat_dentry;
            rewrite ?E1, ?E2, ?I1, ?I1p, ?I2, ?I2p);
    destruct i; simpl; rewrite ?E1, ?E2; auto.
Qed.

Section EvaluatorExtras.
Context `{Collaborators}.

Lemma tomoyo_condition_clause_resolved cur o nums c :
  tomoyo_condition_clause cur (resolved o) nums c
  = (resolved o, snd (tomoyo_condition_clause cur o nums c)).
Proof.
  rewrite (surjective_pairing (tomoyo_condition_clause cur (resolved o) _ _)).
  f_equal.
  - destruct (tomoyo_condition_clause_obj cur (resolved o) nums c) as [E|E];
      rewrite E; [reflexivity | apply resolved_idem].
  - rewrite !tomoyo_condition_clause_value, !tomoyo_side_value_resolved.
    reflexivity.
Qed.

Lemma tomoyo_condition_loop_resolved cur n : forall o cs nums,
  tomoyo_condition_loop cur n (resolved o) cs nums
  = (resolved o, snd (tomoyo_condition_loop cur n o cs nums)).
Proof.
  induction n as [|n IH]; intros o cs nums; simpl; [reflexivity|].
  destruct cs as [|c cs]; [reflexivity|].
  rewrite tomoyo_condition_clause_resolved.
  pose proof (tomoyo_condition_clause_obj cur o nums c) as Ho.
  destruct (tomoyo_condition_clause cur o nums c) as [o' [rest| |]];
    simpl in *; try reflexivity.
  destruct Ho as [->| ->].
  - apply IH.
  - pose proof (IH (resolved o) cs rest) as E.
    rewrite resolved_idem in E. exact E.
Qed.

Lemma tomoyo_condition_loop_obj cur n : forall o cs nums,
  fst (tomoyo_condition_loop cur n o cs nums) = o
  \/ fst (tomoyo_condition_loop cur n o cs nums) = resolved o.
Proof.
  induction n as [|n IH]; intros o cs nums; simpl; [by left|].
  destruct cs as [|c cs]; [by left|].
  pose proof (tomoyo_condition_clause_obj cur o nums c) as Ho.
  destruct (tomoyo_condition_clause cur o nums c) as [o' [rest| |]];
    simpl in *; try exact Ho.
  destruct Ho as [->| ->]; [apply IH|].
  right. rewrite tomoyo_condition_loop_resolved. reflexivity.
Qed.

(** X2: evaluating a condition changes the request at most by filling the
    attribute cache of its object, and evaluating the same condition again
    on the request so left gives the same verdict and leaves the request
    as it is: the cache is filled once and the verdict does not depend on
    whether it was filled before. *)
Theorem tomoyo_condition_repeatable (cur : task_struct)
    (r : tomoyo_request_info) (cond : option struct_tomoyo_condition) :
  (obj (fst (tomoyo_condition cur r cond)) = obj r
   \/ obj (fst (tomoyo_condition cur r cond)) = resolved (obj r))
  /\ tomoyo_condition cur (fst (tomoyo_condition cur r cond)) cond
     = tomoyo_condition cur r cond.
Proof.
  destruct cond as [cond|]; simpl; [|split; [by left | reflexivity]].
  pose proof (tomoyo_condition_loop_obj cur (Z.to_nat (condc cond)) (obj r)
                (condition cond) (numbers cond)) as Ho.
  destruct (tomoyo_condition_loop cur (Z.to_nat (condc cond)) (obj r)
              (condition cond) (numbers cond)) as [o' b] eqn:E.
  simpl in *. split; [exact Ho|].
  destruct Ho as [->| ->].
  - rewrite E. reflexivity.
  - rewrite tomoyo_condition_loop_resolved, E. reflexivity.
Qed.

(** X3: a clause without a permission-bit constant whose right side is
    not an operand is a membership test: with [min0, max0] the interval
    of the left side (its operand, whatever the [group] field of that
    operand holds, or its single value) and [v1] the value of the right
    side, it succeeds iff [min0 <= v1 <= max0] equals the [equals] flag.
    When the left side is no operand either, this is the test
    [v0 == v1]. *)
Theorem tomoyo_condition_range_comparison cur o nums c o1 v0 o2 v1
    min0 max0 rest :
  is_number_union (right c) = false ->
  tomoyo_is_bitop (left c) = false ->
  tomoyo_is_bitop (right c) = false ->
  tomoyo_side_value cur o (left c) = (o1, Some v0) ->
  tomoyo_side_value cur o1 (right c) = (o2, Some v1) ->
  tomoyo_fetch_left (left c) v0 nums = Some (min0, max0, rest) ->
  snd (tomoyo_condition_clause cur o nums c)
  = (if Bool.eqb ((min0 <=? v1) && (v1 <=? max0)) (equals c)
     then Continue rest else Out)
  /\ (is_number_union (left c) = false ->
      (clause_succeeds cur o nums c = true <-> (v0 =? v1) = equals c)).
Proof.
  intros Hr Hb0 Hb1 Hl Hv1 Hf.
  assert (snd (tomoyo_condition_clause cur o nums c)
          = (if Bool.eqb ((min0 <=? v1) && (v1 <=? max0)) (equals c)
             then Continue rest else Out)) as E.
  { unfold tomoyo_condition_clause. rewrite Hl, Hv1. simpl.
    unfold tomoyo_compare. rewrite Hf, Hr, Hb0, Hb1. simpl.
    unfold ranges_overlap. rewrite Z.geb_leb. reflexivity. }
  split; [exact E|].
  intros Hnl. unfold clause_succeeds. rewrite E.
  unfold tomoyo_fetch_left in Hf. rewrite Hnl in Hf.
  injection Hf as <- <- <-.
  destruct (Z.eqb_spec v0 v1) as [->|Hne].
  - rewrite !Z.leb_refl. simpl. destruct (equals c); simpl; split; auto.
  - assert ((v0 <=? v1) && (v1 <=? v0) = false) as ->.
    { apply andb_false_iff.
      destruct (Z.leb_spec v0 v1); [right; apply Z.leb_gt; lia | by left]. }
    destruct (equals c); simpl; split; auto; discriminate.
Qed.

Lemma ranges_overlap_point (v0 v1 : Z) :
  ranges_overlap v0 v0 v1 v1 = (v0 =? v1).
Proof.
  unfold ranges_overlap. rewrite Z.geb_leb.
  destruct (Z.eqb_spec v0 v1) as [->|Hne].
  - by rewrite !Z.leb_refl.
  - apply andb_false_iff.
    destruct (Z.leb_spec v0 v1); [right; apply Z.leb_gt; lia | by left].
Qed.

(** X4: a clause neither side of which is an operand gives the same
    outcome with its two sides exchanged: the bit test and the value
    comparison are symmetric, and a side that cannot be resolved fails the
    clause from either position. *)
Theorem tomoyo_condition_clause_symmetric cur o nums c :
  is_number_union (left c) = false ->
  is_number_union (right c) = false ->
  snd (tomoyo_condition_clause cur o nums (swap_sides c))
  = snd (tomoyo_condition_clause cur o nums c).
Proof.
  intros Hl Hr. rewrite !tomoyo_condition_clause_value. simpl.
  destruct (snd (tomoyo_side_value cur o (left c))) as [v0|],
    (snd (tomoyo_side_value cur o (right c))) as [v1|]; try reflexivity.
  unfold tomoyo_compare, tomoyo_fetch_left. simpl. rewrite Hl, Hr.
  rewrite !ranges_overlap_point, (Z.land_comm v1 v0), (Z.eqb_sym v1 v0).
  destruct (tomoyo_is_bitop (left c)), (tomoyo_is_bitop (right c));
    reflexivity.
Qed.

Lemma tomoyo_side_value_untouched cur o index :
  reads_object index = false ->
  fst (tomoyo_side_value cur o index) = o.
Proof.
  unfold reads_object. destruct index; simpl; try reflexivity; discriminate.
Qed.

Lemma tomoyo_condition_loop_untouched cur n : forall o cs nums,
  Forall (fun c => reads_object (left c) = false
                   /\ reads_object (right c) = false) cs ->
  fst (tomoyo_condition_loop cur n o cs nums) = o.
Proof.
  induction n as [|n IH]; intros o cs nums Hcs; simpl; [reflexivity|].
  destruct cs as [|c cs]; [reflexivity|].
  inversion Hcs as [|? ? [Hl Hr] Hrest]; subst.
  assert (fst (tomoyo_condition_clause cur o nums c) = o) as Ho.
  { unfold tomoyo_condition_clause.
    pose proof (tomoyo_side_value_untouched cur o (left c) Hl) as E1.
    destruct (tomoyo_side_value cur o (left c)) as [o1 [v0|]];
      simpl in E1; subst o1; [|reflexivity].
    pose proof (tomoyo_side_value_untouched cur o (right c) Hr) as E2.
    destruct (tomoyo_side_value cur o (right c)) as [o2 [v1|]];
      simpl in E2; subst o2; reflexivity. }
  destruct (tomoyo_condition_clause cur o nums c) as [o' [rest| |]];
    simpl in Ho; subst o'; try reflexivity.
  by apply IH.
Qed.

(** X5: attributes are fetched lazily: a condition none of whose clauses
    names a path selector (or a value that is no selector) is evaluated
    without touching the request, so the attribute cache stays unfilled. *)
Theorem tomoyo_condition_lazy (cur : task_struct) (r : tomoyo_request_info)
    (cond : struct_tomoyo_condition) :
  Forall (fun c => reads_object (left c) = false
                   /\ reads_object (right c) = false) (condition cond) ->
  fst (tomoyo_condition cur r (Some cond)) = r.
Proof.
  intros Hcs. unfold tomoyo_condition.
  pose proof (tomoyo_condition_loop_untouched cur (Z.to_nat (condc cond))
                (obj r) (condition cond) (numbers cond) Hcs) as Ho.
  destruct (tomoyo_condition_loop cur (Z.to_nat (condc cond)) (obj r)
              (condition cond) (numbers cond)) as [o' b].
  simpl in Ho. subst o'. by destruct r.
Qed.

End EvaluatorExtras.

Lemma tomoyo_condition_range_comparison_witness :
  clause_succeeds (H := example_collaborators) (example_task 1000)
    (Some example_obj) []
    (clause TOMOYO_TASK_UID TOMOYO_PATH1_UID true) = true
  /\ snd (tomoyo_condition_clause (H := example_collaborators)
            (example_task 1000) (Some example_obj) [interval 0 99]
            (clause TOMOYO_NUMBER_UNION TOMOYO_TASK_GID false))
     = Continue [].
Proof.
  split.
  - apply (proj2 (@tomoyo_condition_range_comparison example_collaborators
                    (example_task 1000) (Some example_obj) []
                    (clause TOMOYO_TASK_UID TOMOYO_PATH1_UID true)
                    (Some example_obj) 1000
                    (Some (tomoyo_validate example_obj)) 1000
                    1000 1000 []
                    eq_refl eq_refl eq_refl eq_refl eq_refl eq_refl)
             eq_refl).
    reflexivity.
  - apply (proj1 (@tomoyo_condition_range_comparison example_collaborators
                    (example_task 1000) (Some example_obj) [interval 0 99]
                    (clause TOMOYO_NUMBER_UNION TOMOYO_TASK_GID false)
                    (Some example_obj) 0 (Some example_obj) 100
                    0 99 []
                    eq_refl eq_refl eq_refl eq_refl eq_refl eq_refl)).
Defined.

Lemma tomoyo_condition_clause_symmetric_witness :
  snd (tomoyo_condition_clause (H := example_collaborators)
         (example_task 0) (Some example_obj) []
         (clause TOMOYO_PATH1_PERM TOMOYO_MODE_OWNER_WRITE true))
  = Continue [].
Proof.
  rewrite <- (@tomoyo_condition_clause_symmetric example_collaborators
                (example_task 0) (Some example_obj) []
                (clause TOMOYO_PATH1_PERM TOMOYO_MODE_OWNER_WRITE true)
                eq_refl eq_refl).
  reflexivity.
Defined.

Lemma tomoyo_condition_lazy_witness :
  fst (tomoyo_condition (H := example_collaborators) (example_task 5)
         example_request (Some (example_condition 1 true)))
  = example_request.
Proof.
  apply (@tomoyo_condition_lazy example_collaborators (example_task 5)
           example_request (example_condition 1 true)).
  repeat constructor.
Defined.

(** ** Further properties of the interning store *)

Section StoreExtras.
Context `{Collaborators}.

Lemma memcmp_refl (n : nat) : forall p : list Z, memcmp p p n = 0.
Proof.
  induction n as [|n IH]; intros [|x p]; simpl; try reflexivity.
  rewrite Z.eqb_refl. apply IH.
Qed.

Lemma memcmp_sym (n : nat) : forall p q : list Z,
  (memcmp p q n =? 0) = (memcmp q p n =? 0).
Proof.
  induction n as [|n IH]; intros [|x p] [|y q]; simpl; try reflexivity.
  rewrite (Z.eqb_sym y x).
  destruct (Z.eqb_spec x y) as [->|Hxy]; [apply IH|].
  destruct (Z.eqb_spec (x - y) 0), (Z.eqb_spec (y - x) 0); try reflexivity;
    lia.
Qed.

Lemma tomoyo_same_condition_refl (a : struct_tomoyo_condition) :
  tomoyo_same_condition a a = true.
Proof.
  unfold tomoyo_same_condition. rewrite !Z.eqb_refl, memcmp_refl.
  reflexivity.
Qed.

(** X6: the equality test of the interning store does not look at the
    user counts, holds between an object and itself, and gives the same
    answer in both directions; between objects whose blocks hold exactly
    their [size] bytes it is transitive. *)
Theorem tomoyo_same_condition_equivalence
    (a b c : struct_tomoyo_condition) :
  (forall u v,
      tomoyo_same_condition (set_users a u) (set_users b v)
      = tomoyo_same_condition a b)
  /\ tomoyo_same_condition a a = true
  /\ tomoyo_same_condition a b = tomoyo_same_condition b a
  /\ (block_complete a -> block_complete b -> block_complete c ->
      tomoyo_same_condition a b = true ->
      tomoyo_same_condition b c = true ->
      tomoyo_same_condition a c = true).
Proof.
  split; [reflexivity|]. split; [|split].
  - apply tomoyo_same_condition_refl.
  - unfold tomoyo_same_condition.
    rewrite (Z.eqb_sym (size b)), (Z.eqb_sym (condc b)),
      (Z.eqb_sym (numbers_count b)).
    destruct (Z.eqb_spec (size a) (size b)) as [Hs|]; [|reflexivity].
    rewrite Hs, memcmp_sym. reflexivity.
  - intros (H0 & Ha & Hamax) (_ & Hb & _) (_ & Hc & _).
    unfold tomoyo_same_condition.
    assert (Z.to_nat (size_t (size a - sizeof_condition))
            = length (trailing_bytes a)) as Hna.
    { unfold size_t. rewrite Z.mod_small by lia. lia. }
    rewrite !andb_true_iff, !Z.eqb_eq.
    intros [[[Hs1 Hc1] Hn1] Hm1] [[[Hs2 Hc2] Hn2] Hm2].
    assert (Z.to_nat (size_t (size b - sizeof_condition))
            = length (trailing_bytes b)) as Hnb.
    { unfold size_t. rewrite Z.mod_small by lia. lia. }
    rewrite Hna in Hm1 |- *. rewrite Hnb in Hm2.
    apply (memcmp_eq (length (trailing_bytes a))) in Hm1;
      [|reflexivity|lia].
    apply (memcmp_eq (length (trailing_bytes b))) in Hm2;
      [|reflexivity|lia].
    repeat split; try congruence.
    rewrite Hm1, Hm2. apply memcmp_refl.
Qed.

(** X7: whatever the list, the lock and the quota, a commit either fails
    and returns NULL with the list as it was, or returns the address of
    an object of the list that is equal to the candidate.  The candidate
    block ends up in exactly one place: it is freed, with the addresses of
    the list unchanged, or it is the new head of the list with user count
    1 and is the object returned.  Nothing is allocated. *)
Theorem tomoyo_commit_condition_outcome (env : environment)
    (st : policy_state) (entry : addr * struct_tomoyo_condition) :
  let ret := fst (tomoyo_commit_condition env st entry) in
  let st' := snd (tomoyo_commit_condition env st entry) in
  allocated st' = allocated st
  /\ match ret with
     | None => st' = kfree (fst entry) st
     | Some p =>
         exists c, (p, c) ∈ tomoyo_condition_list st'
                   /\ tomoyo_same_condition c (snd entry) = true
     end
  /\ ((kfreed st' = fst entry :: kfreed st
       /\ map fst (tomoyo_condition_list st')
          = map fst (tomoyo_condition_list st))
      \/ (kfreed st' = kfreed st
          /\ ret = Some (fst entry)
          /\ tomoyo_condition_list st'
             = (fst entry, set_users (snd entry) 1)
               :: tomoyo_condition_list st)).
Proof.
  unfold tomoyo_commit_condition.
  destruct (mutex_lock_interruptible env); simpl.
  { split; [reflexivity|]. split; [reflexivity|]. left. by split. }
  destruct (tomoyo_condition_list_split (tomoyo_condition_list st)
              (snd entry)) as [Hnone|(l1 & p & c & l2 & Hl & Hl1 & Hc)].
  - rewrite (tomoyo_find_condition_none _ _ Hnone).
    destruct (tomoyo_memory_ok env (snd entry)); simpl.
    + split; [reflexivity|]. split.
      * exists (set_users (snd entry) 1). split; [by left|].
        apply (tomoyo_same_condition_refl (snd entry)).
      * right. by repeat split.
    + split; [reflexivity|]. split; [reflexivity|]. left. by split.
  - rewrite Hl, (tomoyo_find_condition_first l1 l2 p c _ Hl1 Hc). simpl.
    split; [reflexivity|]. split.
    + exists (set_users c (atomic_inc (head_users c))).
      split; [apply elem_of_app; right; by left | exact Hc].
    + left. split; [reflexivity|].
      rewrite !map_app. reflexivity.
Qed.

(** X8: interning merges duplicates.  When the list holds no object equal
    to a candidate and the quota admits it, committing the candidate and
    then committing a second candidate equal to it returns the address of
    the first one both times; the list has gained that one object, now
    with user count 2, and the second candidate is freed.  The quota is
    not consulted for the second commit. *)
Theorem tomoyo_commit_condition_twice (env1 env2 : environment)
    (st : policy_state) (a1 a2 : addr) (e1 e2 : struct_tomoyo_condition) :
  mutex_lock_interruptible env1 = false ->
  mutex_lock_interruptible env2 = false ->
  Forall (fun x => tomoyo_same_condition (snd x) e1 = false)
    (tomoyo_condition_list st) ->
  tomoyo_memory_ok env1 e1 = true ->
  tomoyo_same_condition e1 e2 = true ->
  let st1 := snd (tomoyo_commit_condition env1 st (a1, e1)) in
  fst (tomoyo_commit_condition env1 st (a1, e1)) = Some a1
  /\ tomoyo_commit_condition env2 st1 (a2, e2)
     = (Some a1,
        {| tomoyo_condition_list :=
             (a1, set_users e1 2) :: tomoyo_condition_list st;
           allocated := allocated st;
           kfreed := a2 :: kfreed st |}).
Proof.
  intros Hl1 Hl2 Hnone Hok Hsame.
  unfold tomoyo_commit_condition. rewrite Hl1, Hl2. simpl.
  rewrite (tomoyo_find_condition_none _ _ Hnone), Hok. simpl.
  split; [reflexivity|].
  change (tomoyo_same_condition (set_users e1 1) e2)
    with (tomoyo_same_condition e1 e2).
  rewrite Hsame. reflexivity.
Qed.

End StoreExtras.

Lemma tomoyo_same_condition_equivalence_witness :
  tomoyo_same_condition (H := example_collaborators)
    (example_condition 1 true) (example_condition 3 true) = true.
Proof.
  assert (forall u e, block_complete (H := example_collaborators)
                        (example_condition u e)) as Hb.
  { intros u e. unfold block_complete. simpl. lia. }
  apply (proj2 (proj2 (proj2
           (@tomoyo_same_condition_equivalence example_collaborators
              (example_condition 1 true) (example_condition 2 true)
              (example_condition 3 true))))
           (Hb 1 true) (Hb 2 true) (Hb 3 true));
    reflexivity.
Defined.

Lemma tomoyo_commit_condition_twice_witness :
  tomoyo_commit_condition (H := example_collaborators) full_environment
    (snd (tomoyo_commit_condition (H := example_collaborators)
            example_environment empty_policy
            (7%nat, example_condition 0 true)))
    (9%nat, example_condition 5 true)
  = (Some 7%nat,
     {| tomoyo_condition_list := [(7%nat, example_condition 2 true)];
        allocated := []; kfreed := [9%nat] |}).
Proof.
  apply (proj2 (@tomoyo_commit_condition_twice example_collaborators
                  example_environment full_environment empty_policy
                  7%nat 9%nat (example_condition 0 true)
                  (example_condition 5 true)
                  eq_refl eq_refl (Forall_nil_2 _) eq_refl eq_refl)).
Defined.

(** ** Further properties of the parser *)

Section ParserExtras.
Context `{Collaborators}.

Lemma tomoyo_condition_scan_spec (l : list tomoyo_conditions_index)
    (word : list ascii) :
  TOMOYO_MAX_CONDITION_KEYWORD ∉ l ->
  (tomoyo_condition_scan l word = TOMOYO_MAX_CONDITION_KEYWORD
   /\ Forall (fun i => tomoyo_condition_keyword i
                       <> string_of_list_ascii word) l)
  \/ (tomoyo_condition_scan l word ∈ l
      /\ tomoyo_condition_keyword (tomoyo_condition_scan l word)
         = string_of_list_ascii word).
Proof.
  induction l as [|i l IH]; intros Hmax; simpl.
  - left. split; [reflexivity | constructor].
  - apply not_elem_of_cons in Hmax as [Hi Hmax]. unfold strcmp_eq.
    destruct (String.eqb_spec (string_of_list_ascii word)
                (tomoyo_condition_keyword i)) as [E|E].
    + right. split; [by left | by symmetry].
    + destruct (IH Hmax) as [[Hs Hall]|[Hin Hk]].
      * left. split; [exact Hs|]. constructor; [congruence | exact Hall].
      * right. split; [by right | exact Hk].
Qed.

Lemma tomoyo_condition_scan_found (l : list tomoyo_conditions_index)
    (i : tomoyo_conditions_index) :
  (forall j, j ∈ l ->
     tomoyo_condition_keyword j = tomoyo_condition_keyword i -> j = i) ->
  i ∈ l ->
  tomoyo_condition_scan l
    (list_ascii_of_string (tomoyo_condition_keyword i)) = i.
Proof.
  induction l as [|j l IH]; intros Hinj Hin; simpl.
  - inversion Hin.
  - unfold strcmp_eq. rewrite string_of_list_ascii_of_string.
    destruct (String.eqb_spec (tomoyo_condition_keyword i)
                (tomoyo_condition_keyword j)) as [E|E].
    + apply Hinj; [by left | by symmetry].
    + fold (strcmp_eq (list_ascii_of_string (tomoyo_condition_keyword i))).
      apply elem_of_cons in Hin as [->|Hin]; [congruence|].
      apply IH; [|exact Hin].
      intros k Hk. apply Hinj. by right.
Qed.

Lemma max_keyword_not_index :
  TOMOYO_MAX_CONDITION_KEYWORD ∉ tomoyo_keyword_indices.
Proof.
  unfold tomoyo_keyword_indices. intros Hin.
  repeat (apply elem_of_cons in Hin as [Hin|Hin]; [discriminate|]).
  inversion Hin.
Qed.

(** X9: [tomoyo_condition_type] returns [TOMOYO_MAX_CONDITION_KEYWORD]
    exactly for the words that are no keyword of the table; any other
    result is a selector whose keyword is the word, and never the operand
    sentinel.  When the keywords of the table are pairwise distinct, the
    keyword of every selector is looked up to that selector. *)
Theorem tomoyo_condition_type_lookup (word : list ascii) :
  (tomoyo_condition_type word = TOMOYO_MAX_CONDITION_KEYWORD
   <-> forall i, i ∈ tomoyo_keyword_indices ->
         tomoyo_condition_keyword i <> string_of_list_ascii word)
  /\ (tomoyo_condition_type word <> TOMOYO_MAX_CONDITION_KEYWORD ->
      tomoyo_condition_type word ∈ tomoyo_keyword_indices
      /\ tomoyo_condition_keyword (tomoyo_condition_type word)
         = string_of_list_ascii word)
  /\ tomoyo_condition_type word <> TOMOYO_NUMBER_UNION
  /\ ((forall i j, i ∈ tomoyo_keyword_indices ->
         j ∈ tomoyo_keyword_indices ->
         tomoyo_condition_keyword i = tomoyo_condition_keyword j ->
         i = j) ->
      forall i, i ∈ tomoyo_keyword_indices ->
        tomoyo_condition_type
          (list_ascii_of_string (tomoyo_condition_keyword i)) = i).
Proof.
  unfold tomoyo_condition_type.
  pose proof (tomoyo_condition_scan_spec tomoyo_keyword_indices word
                max_keyword_not_index) as Hspec.
  split; [|split; [|split]].
  - split.
    + intros Hmax i Hi.
      destruct Hspec as [[_ Hall]|[Hin _]].
      * rewrite Forall_forall in Hall. by apply Hall.
      * rewrite Hmax in Hin. by apply max_keyword_not_index in Hin.
    + intros Hall. destruct Hspec as [[Hs _]|[Hin Hk]]; [exact Hs|].
      exfalso. exact (Hall _ Hin Hk).
  - intros Hne. destruct Hspec as [[Hs _]|Hfound]; [contradiction|].
    exact Hfound.
  - intros E. pose proof (tomoyo_condition_type_keyword word) as Hk.
    unfold tomoyo_condition_type in Hk. rewrite E in Hk. discriminate.
  - intros Hinj i Hi. apply tomoyo_condition_scan_found; [|exact Hi].
    intros j Hj E. by apply Hinj.
Qed.

Lemma tomoyo_restore_length (l : list ascii) :
  forall flag, length (tomoyo_restore flag l) = length l.
Proof.
  induction l as [|c l IH]; intros flag; simpl; [reflexivity|].
  destruct (is_nul c); simpl; by rewrite IH.
Qed.

(** X10: the dry run consults neither the literal parser nor the group
    syntax: it stops at [goto out] exactly when a clause lacks its
    operator, and otherwise ends at [break] with a buffer of the same
    length and with the number of clauses and the number of literal sides
    in the 16-bit counters of [e]. *)
Theorem tomoyo_dry_run_outcome (data : list ascii) :
  (Exists clause_lacks_operator (clauses_of (c_string data)) ->
   tomoyo_dry_run data = GotoOut)
  /\ (Forall (fun w => ~ clause_lacks_operator w)
        (clauses_of (c_string data)) ->
      exists b st,
        tomoyo_dry_run data = LoopBreak b st
        /\ length b = length (c_string data)
        /\ entry st = None
        /\ e_condc st
           = u16 (Z.of_nat (length (clauses_of (c_string data))))
        /\ e_numbers_count st
           = u16 (Z.of_nat (literal_count (clauses_of (c_string data))))).
Proof.
  pose proof (tomoyo_dry_run_clauses data) as Hrun.
  destruct (parse_clauses_dry (clauses_of (c_string data))
              {| e_condc := 0; e_numbers_count := 0; entry := None |}
              eq_refl ltac:(simpl; lia) ltac:(simpl; lia))
    as [Hout Hdone].
  split.
  - intros Hex. rewrite (Hout Hex) in Hrun. exact Hrun.
  - intros Hall. destruct (Hdone Hall) as (st & Hst & He & Hc & Hn).
    rewrite Hst in Hrun. destruct Hrun as (m & Hm & Hr).
    exists m, st. split; [exact Hm|]. split.
    + rewrite <- Hr. symmetry. apply tomoyo_restore_length.
    + split; [exact He|]. split; [exact Hc | exact Hn].
Qed.

(** What the second run stores for one side. *)
Lemma tomoyo_parse_side_compile (is_left : bool) (word : list ascii)
    (st st' : parse_state) (en : struct_tomoyo_condition)
    (index : tomoyo_conditions_index) :
  entry st = Some en ->
  tomoyo_parse_side is_left word st = SideOk index st' ->
  index = compile_side word
  /\ length (side_operands word) = (if is_literal word then 1 else 0)%nat
  /\ exists en',
       entry st' = Some en'
       /\ head_users en' = head_users en /\ size en' = size en
       /\ condc en' = condc en /\ numbers_count en' = numbers_count en
       /\ condition en' = condition en
       /\ numbers en' = numbers en ++ side_operands word
       /\ (Z.of_nat (length (numbers en)) <= numbers_count en ->
           Z.of_nat (length (numbers en')) <= numbers_count en').
Proof.
  intros He. unfold tomoyo_parse_side, compile_side, side_operands,
    is_literal. rewrite He.
  destruct (is_max_keyword (tomoyo_condition_type word)).
  - destruct (is_left && Ascii.eqb (hd NUL word) char_at); [discriminate|].
    destruct (Z.ltb_spec (Z.of_nat (length (numbers en)))
                (numbers_count en)) as [Hlt|Hge]; [|discriminate].
    destruct (tomoyo_parse_number_union word) as [n|]; [|discriminate].
    intros [= <- <-]. split; [reflexivity|]. split; [reflexivity|].
    eexists. split; [reflexivity|]. simpl.
    repeat split. intros _. rewrite length_app. simpl. lia.
  - intros [= <- <-]. split; [reflexivity|]. split; [reflexivity|].
    exists en. rewrite app_nil_r. by repeat split.
Qed.

Lemma tomoyo_parse_clause_compile (l r : list ascii) (is_not : bool)
    (st st' : parse_state) (en : struct_tomoyo_condition) :
  entry st = Some en ->
  tomoyo_parse_clause l r is_not st = BodyNext st' ->
  length (side_operands l ++ side_operands r)
  = ((if is_literal l then 1 else 0)
     + (if is_literal r then 1 else 0))%nat
  /\ exists en',
       entry st' = Some en'
       /\ head_users en' = head_users en /\ size en' = size en
       /\ condc en' = condc en /\ numbers_count en' = numbers_count en
       /\ condition en'
          = condition en
            ++ [{| left := compile_side l; right := compile_side r;
                   equals := negb is_not |}]
       /\ numbers en'
          = numbers en ++ side_operands l ++ side_operands r
       /\ Z.of_nat (length (condition en')) <= condc en'
       /\ (Z.of_nat (length (numbers en)) <= numbers_count en ->
           Z.of_nat (length (numbers en')) <= numbers_count en').
Proof.
  intros He. unfold tomoyo_parse_clause.
  destruct (tomoyo_parse_side true l st) as [left_ st1| |] eqn:E1;
    [|discriminate|discriminate].
  destruct (tomoyo_parse_side_compile true l st st1 en left_ He E1)
    as (-> & Hl1 & en1 & He1 & Hu1 & Hs1 & Hc1 & Hn1 & Hcs1 & Hnum1
        & Hcap1).
  rewrite He1.
  match goal with
  | |- context [tomoyo_parse_side false r ?s] => set (st1' := s)
  end.
  destruct (tomoyo_parse_side false r st1') as [right_ st2| |] eqn:E2;
    [|discriminate|discriminate].
  destruct (tomoyo_parse_side_compile false r st1' st2 en1 right_ He1 E2)
    as (-> & Hl2 & en2 & He2 & Hu2 & Hs2 & Hc2 & Hn2 & Hcs2 & Hnum2
        & Hcap2).
  rewrite He2.
  destruct (Z.ltb_spec (Z.of_nat (length (condition en2))) (condc en2))
    as [Hlt|Hge]; [|discriminate].
  intros [= <-]. split; [rewrite length_app; lia|].
  eexists. split; [reflexivity|]. simpl.
  split; [congruence|]. split; [congruence|]. split; [congruence|].
  split; [congruence|]. split; [congruence|].
  split; [rewrite Hnum2, Hnum1, <- app_assoc; reflexivity|].
  split; [rewrite length_app; simpl; lia|].
  intros Hcap. apply Hcap2. by apply Hcap1.
Qed.

(** What the second run has stored when it ends at [break]: the compiled
    clauses of the expression, in order, and their operands in the same
    order, left side before right side. *)
Lemma parse_clauses_compile (ws : list (list ascii)) :
  forall (st st' : parse_state) (en : struct_tomoyo_condition),
    entry st = Some en ->
    parse_clauses ws st = ClausesDone st' ->
    length (flat_map clause_operands ws) = literal_count ws
    /\ Forall (fun w => length (clause_operands w)
                        = operands_needed (compile_clause w)) ws
    /\ exists en',
         entry st' = Some en'
         /\ head_users en' = head_users en /\ size en' = size en
         /\ condc en' = condc en /\ numbers_count en' = numbers_count en
         /\ condition en' = condition en ++ map compile_clause ws
         /\ numbers en' = numbers en ++ flat_map clause_operands ws
         /\ (Z.of_nat (length (condition en)) <= condc en ->
             Z.of_nat (length (condition en')) <= condc en')
         /\ (Z.of_nat (length (numbers en)) <= numbers_count en ->
             Z.of_nat (length (numbers en')) <= numbers_count en').
Proof.
  induction ws as [|w ws IH]; intros st st' en He.
  - simpl. intros [= <-]. split; [reflexivity|]. split; [constructor|].
    exists en. rewrite !app_nil_r. by repeat split.
  - simpl parse_clauses.
    destruct (operator_position w) as [[i is_not]|] eqn:Hop;
      [|discriminate].
    assert (clause_operands w
            = side_operands (clause_left w i)
              ++ side_operands (clause_right w i is_not)) as Eops.
    { unfold clause_operands. by rewrite Hop. }
    assert (compile_clause w
            = {| left := compile_side (clause_left w i);
                 right := compile_side (clause_right w i is_not);
                 equals := negb is_not |}) as Ecl.
    { unfold compile_clause. by rewrite Hop. }
    assert (clause_literals w
            = ((if is_literal (clause_left w i) then 1 else 0)
               + (if is_literal (clause_right w i is_not) then 1 else 0))%nat)
      as Elit.
    { unfold clause_literals. by rewrite Hop. }
    destruct (tomoyo_parse_clause (clause_left w i)
                (clause_right w i is_not) is_not st) as [st1| |] eqn:E;
      [|discriminate|discriminate].
    destruct (tomoyo_parse_clause_compile _ _ _ _ _ _ He E)
      as (Hlen & en1 & He1 & Hu1 & Hs1 & Hc1 & Hn1 & Hcs1 & Hnum1
          & Hcc1 & Hcn1).
    intros Hrest.
    destruct (IH st1 st' en1 He1 Hrest)
      as (Hlen' & Hall & en' & He' & Hu & Hs & Hc & Hn & Hcs & Hnum
          & Hcc & Hcn).
    simpl flat_map. simpl map. simpl literal_count.
    split; [rewrite length_app, Eops, Elit; lia|]. split.
    + constructor; [|exact Hall].
      rewrite Eops, Ecl, Hlen. unfold operands_needed, compile_side. simpl.
      pose proof (tomoyo_condition_type_keyword (clause_left w i)) as K1.
      pose proof (tomoyo_condition_type_keyword
                    (clause_right w i is_not)) as K2.
      destruct (is_literal (clause_left w i)),
        (is_literal (clause_right w i is_not)); simpl;
        rewrite ?K1, ?K2; reflexivity.
    + exists en'. split; [exact He'|].
      split; [congruence|]. split; [congruence|]. split; [congruence|].
      split; [congruence|].
      split; [rewrite Hcs, Hcs1, Ecl, <- app_assoc; reflexivity|].
      split; [rewrite Hnum, Hnum1, Eops, <- !app_assoc; reflexivity|].
      split; [intros _; by apply Hcc|].
      intros Hcap. apply Hcn. by apply Hcn1.
Qed.

(** The dry run that ends at [break] has counted the clauses and the
    literal sides into the 16-bit counters. *)
Lemma parse_clauses_dry_done (ws : list (list ascii)) (st : parse_state) :
  parse_clauses ws {| e_condc := 0; e_numbers_count := 0; entry := None |}
  = ClausesDone st ->
  e_condc st = u16 (Z.of_nat (length ws))
  /\ e_numbers_count st = u16 (Z.of_nat (literal_count ws)).
Proof.
  intros Edry.
  destruct (parse_clauses_dry ws
              {| e_condc := 0; e_numbers_count := 0; entry := None |}
              eq_refl ltac:(simpl; lia) ltac:(simpl; lia))
    as [Hout Hdone].
  destruct (clauses_lack_operator_cases ws) as [Hex|Hno].
  - rewrite (Hout Hex) in Edry. discriminate.
  - destruct (Hdone Hno) as (st' & Hst' & _ & Hc & Hn).
    rewrite Hst' in Edry. injection Edry as <-.
    simpl in Hc, Hn. by split.
Qed.

(** A second run that ends at [break] has filled both arrays exactly:
    the counters of [e] are back at zero, so the [BUG_ON] does not fire,
    and [entry] holds the compiled expression.  The expression then has
    fewer than 65536 clauses and literal sides. *)
Lemma tomoyo_second_run (ws : list (list ascii)) (st st2 : parse_state) :
  parse_clauses ws {| e_condc := 0; e_numbers_count := 0; entry := None |}
  = ClausesDone st ->
  parse_clauses ws
    {| e_condc := e_condc st; e_numbers_count := e_numbers_count st;
       entry :=
         Some {| head_users := 0;
                 size :=
                   u32 (size_t (sizeof_condition
                                + e_condc st * sizeof_condition_element
                                + e_numbers_count st
                                  * sizeof_number_union));
                 condc := e_condc st;
                 numbers_count := e_numbers_count st;
                 condition := []; numbers := [] |} |}
  = ClausesDone st2 ->
  exists en2,
    entry st2 = Some en2
    /\ Z.lor (e_numbers_count st2) (e_condc st2) = 0
    /\ set_users en2 1 = compiled_condition ws
    /\ arrays_complete en2
    /\ head_users en2 = 0.
Proof.
  intros Edry Ebuild.
  destruct (parse_clauses_dry_done ws st Edry) as [Hc Hn].
  pose proof (u16_range (Z.of_nat (length ws))) as Hcr.
  pose proof (u16_range (Z.of_nat (literal_count ws))) as Hnr.
  match type of Ebuild with
  | context [Some ?e] => set (en0 := e) in *
  end.
  match type of Ebuild with
  | parse_clauses ws ?s = _ => set (st0 := s) in *
  end.
  assert (build_invariant st0 en0) as Hinv0.
  { unfold build_invariant. subst st0 en0. simpl.
    split; [reflexivity|]. split; [lia|]. split; [lia|].
    split; [lia|]. split; [lia|reflexivity]. }
  destruct (parse_clauses_invariant ws st0 st2 en0 Hinv0 Ebuild)
    as (en2 & (He2 & _ & _ & Hc2 & Hn2 & Hops) & _ & _ & _).
  destruct (parse_clauses_compile ws st0 st2 en0 eq_refl Ebuild)
    as (Hlen & _ & en2' & He2' & Hu & Hs & Hcc & Hnc & Hcs & Hnum
        & Hcapc & Hcapn).
  rewrite He2 in He2'. injection He2' as <-.
  exists en2. split; [exact He2|].
  assert (length (condition en2) = length ws) as Hlc.
  { rewrite Hcs. simpl. apply length_map. }
  assert (length (numbers en2) = literal_count ws) as Hln.
  { rewrite Hnum. simpl. exact Hlen. }
  assert (Z.of_nat (length ws) < 65536) as Hsmallc.
  { specialize (Hcapc ltac:(subst en0; simpl; lia)).
    rewrite Hlc, Hcc in Hcapc. subst en0. simpl in Hcapc. lia. }
  assert (Z.of_nat (literal_count ws) < 65536) as Hsmalln.
  { specialize (Hcapn ltac:(subst en0; simpl; lia)).
    rewrite Hln, Hnc in Hcapn. subst en0. simpl in Hcapn. lia. }
  rewrite u16_small in Hc by lia. rewrite u16_small in Hn by lia.
  assert (condc en2 = Z.of_nat (length ws)) as Hcc'.
  { rewrite Hcc. subst en0. simpl. exact Hc. }
  assert (numbers_count en2 = Z.of_nat (literal_count ws)) as Hnc'.
  { rewrite Hnc. subst en0. simpl. exact Hn. }
  split; [|split; [|split]].
  - rewrite Hc2, Hn2, Hcc', Hnc', Hlc, Hln, !Z.sub_diag. reflexivity.
  - unfold set_users, compiled_condition.
    rewrite Hs, Hcc', Hnc', Hcs, Hnum. subst en0. simpl.
    rewrite Hc, Hn. reflexivity.
  - split; [lia | rewrite Hops; lia].
  - rewrite Hu. reflexivity.
Qed.

(** The scan of the list for an equal object keeps the objects where
    they are. *)
Lemma tomoyo_find_condition_addresses
    (l l' : list (addr * struct_tomoyo_condition))
    (en : struct_tomoyo_condition) (p : addr) :
  tomoyo_find_condition l en = Some (p, l') -> map fst l' = map fst l.
Proof.
  revert l'. induction l as [|[q c] l IH]; intros l'; simpl;
    [discriminate|].
  destruct (tomoyo_same_condition c en).
  - intros [= <- <-]. reflexivity.
  - destruct (tomoyo_find_condition l en) as [[q' l'']|]; [|discriminate].
    intros [= <- <-]. simpl. by rewrite (IH l'').
Qed.

(** Where the candidate block of a commit ends up. *)
Lemma tomoyo_commit_condition_account (env : environment)
    (st st' : policy_state) (a : addr) (en : struct_tomoyo_condition)
    (ret : option addr) :
  tomoyo_commit_condition env st (a, en) = (ret, st') ->
  allocated st' = allocated st
  /\ ((kfreed st' = a :: kfreed st
       /\ map fst (tomoyo_condition_list st')
          = map fst (tomoyo_condition_list st))
      \/ (kfreed st' = kfreed st
          /\ ret = Some a
          /\ tomoyo_condition_list st'
             = (a, set_users en 1) :: tomoyo_condition_list st)).
Proof.
  unfold tomoyo_commit_condition. simpl.
  destruct (mutex_lock_interruptible env).
  { intros [= <- <-]. split; [reflexivity|]. left. by split. }
  destruct (tomoyo_find_condition (tomoyo_condition_list st) en)
    as [[p l']|] eqn:Efind.
  - intros [= <- <-]. split; [reflexivity|]. left.
    split; [reflexivity|]. simpl.
    by apply (tomoyo_find_condition_addresses _ _ _ _ Efind).
  - destruct (tomoyo_memory_ok env en); intros [= <- <-].
    + split; [reflexivity|]. right. by repeat split.
    + split; [reflexivity|]. left. by split.
Qed.

(** X11: parsing an expression never reaches the [BUG_ON] that guards
    the counters after the second run, and its loop always ends.  For a
    line of fewer than 65536 characters it returns, and the block it
    allocated, if any, ends up in exactly one place: either nothing was
    allocated, the result is NULL and the policy state is untouched; or
    the block [kzalloc] returned was allocated and is either freed, with
    the objects of the list where they were, or is the new head of the
    list and the result. *)
Theorem tomoyo_get_condition_accounting (env : environment)
    (ps : policy_state) (data : list ascii) :
  tomoyo_get_condition env ps data <> Bug
  /\ tomoyo_get_condition env ps data <> OutOfFuel
  /\ (Z.of_nat (length (c_string data)) < 65536 ->
      exists ret ps',
        tomoyo_get_condition env ps data = Returns ret ps'
        /\ ((ret = None /\ ps' = ps)
            \/ exists a,
                 kzalloc env = Some a
                 /\ allocated ps' = a :: allocated ps
                 /\ ((ret = None
                      /\ kfreed ps' = a :: kfreed ps
                      /\ tomoyo_condition_list ps'
                         = tomoyo_condition_list ps)
                     \/ (kfreed ps' = a :: kfreed ps
                         /\ map fst (tomoyo_condition_list ps')
                            = map fst (tomoyo_condition_list ps))
                     \/ (ret = Some a
                         /\ kfreed ps' = kfreed ps
                         /\ exists c,
                              tomoyo_condition_list ps'
                              = (a, c) :: tomoyo_condition_list ps)))).
Proof.
  rewrite tomoyo_get_condition_clauses.
  set (ws := clauses_of (c_string data)).
  unfold get_condition_clauses.
  destruct (parse_clauses ws _) as [st| |] eqn:Edry.
  - destruct (kzalloc env) as [a|].
    + match goal with
      | |- context [parse_clauses ws ?s] =>
          destruct (parse_clauses ws s) as [st2| |] eqn:Ebuild
      end.
      * destruct (tomoyo_second_run ws st st2 Edry Ebuild)
          as (en2 & He2 & Hzero & _).
        rewrite Hzero, He2. simpl.
        destruct (tomoyo_commit_condition env (with_allocated a ps)
                    (a, en2)) as [ret ps'] eqn:Ecommit.
        split; [discriminate|]. split; [discriminate|].
        intros _. exists ret, ps'. split; [reflexivity|]. right.
        exists a. split; [reflexivity|].
        destruct (tomoyo_commit_condition_account _ _ _ _ _ _ Ecommit)
          as (Ha & [[Hk Hl]|(Hk & Hr & Hl)]).
        -- split; [exact Ha|]. right. left. by split.
        -- split; [exact Ha|]. right. right.
           split; [exact Hr|]. split; [exact Hk|]. by eexists.
      * split; [discriminate|]. split; [discriminate|].
        intros _. eexists _, _. split; [reflexivity|]. right.
        exists a. split; [reflexivity|]. split; [reflexivity|].
        left. by repeat split.
      * split; [discriminate|]. split; [discriminate|].
        intros Hlen. exfalso.
        destruct (parse_clauses_dry_done ws st Edry) as [Hc Hn].
        destruct (clauses_of_length (length (c_string data))
                    (c_string data) (le_n _)) as [Hlc Hll].
        fold ws in Hlc, Hll.
        rewrite u16_small in Hc by lia. rewrite u16_small in Hn by lia.
        match type of Ebuild with
        | parse_clauses ws ?s = _ =>
            destruct (parse_clauses_build ws s _ eq_refl) as [Hno _]
        end.
        { simpl. lia. }
        { simpl. lia. }
        contradiction.
    + split; [discriminate|]. split; [discriminate|].
      intros _. eexists _, _. split; [reflexivity|]. left. by split.
  - split; [discriminate|]. split; [discriminate|].
    intros _. eexists _, _. split; [reflexivity|]. left. by split.
  - exfalso.
    destruct (parse_clauses_dry ws
                {| e_condc := 0; e_numbers_count := 0; entry := None |}
                eq_refl ltac:(simpl; lia) ltac:(simpl; lia))
      as [Hout Hdone].
    destruct (clauses_lack_operator_cases ws) as [Hex|Hno].
    + rewrite (Hout Hex) in Edry. discriminate.
    + destruct (Hdone Hno) as (st' & Hst' & _). rewrite Hst' in Edry.
      discriminate.
Qed.

(** A call that returns with a new object at the head of the list has
    stored the compiled clauses. *)
Lemma get_condition_clauses_inserted (env : environment)
    (ps ps' : policy_state) (ws : list (list ascii)) (ret : option addr)
    (a : addr) (c : struct_tomoyo_condition) :
  get_condition_clauses env ps ws = Returns ret ps' ->
  tomoyo_condition_list ps' = (a, c) :: tomoyo_condition_list ps ->
  c = compiled_condition ws
  /\ ret = Some a /\ kzalloc env = Some a
  /\ Forall (fun w => length (clause_operands w)
                      = operands_needed (compile_clause w)) ws.
Proof.
  unfold get_condition_clauses.
  assert (forall l : list (addr * struct_tomoyo_condition),
            l <> (a, c) :: l) as Hcycle.
  { intros l E. apply (f_equal length) in E. simpl in E. lia. }
  destruct (parse_clauses ws _) as [st| |] eqn:Edry;
    [|intros [= <- <-] E; by apply Hcycle in E|discriminate].
  destruct (kzalloc env) as [a0|];
    [|intros [= <- <-] E; by apply Hcycle in E].
  match goal with
  | |- context [parse_clauses ws ?s] =>
      destruct (parse_clauses ws s) as [st2| |] eqn:Ebuild
  end; [|intros [= <- <-] E; by apply Hcycle in E|discriminate].
  destruct (tomoyo_second_run ws st st2 Edry Ebuild)
    as (en2 & He2 & Hzero & Hcomp & _).
  match type of Ebuild with
  | parse_clauses ws ?s = _ =>
      destruct (parse_clauses_compile ws s st2 _ eq_refl Ebuild)
        as (_ & Hall & _)
  end.
  rewrite Hzero, He2. simpl.
  destruct (tomoyo_commit_condition env (with_allocated a0 ps) (a0, en2))
    as [ret0 ps0] eqn:Ecommit.
  intros [= <- <-] Hl.
  destruct (tomoyo_commit_condition_account _ _ _ _ _ _ Ecommit)
    as (_ & [[_ Hm]|(_ & Hr & Hl')]).
  - exfalso. rewrite Hl in Hm. apply (f_equal length) in Hm.
    simpl in Hm. rewrite !length_map in Hm. simpl in Hm. lia.
  - rewrite Hl' in Hl. simpl in Hl. injection Hl as <- <-.
    split; [exact Hcomp|]. split; [exact Hr|]. split; [reflexivity|].
    exact Hall.
Qed.

(** X12: what parsing stores, for a line of fewer than 65536
    characters (so that the 16-bit counters of the dry run cannot wrap).
    Whenever a call on such a line returns with a new object at the head
    of the list, the object is the compiled form of the line: one clause
    per space-separated clause of the line, in order, each with the
    selectors of its two sides and its operator; the operands of the
    literal sides in the same order, left before right; both counts, the
    size computed from them, and user count 1.  The result of the call
    is the address of that object, which is the block [kzalloc]
    returned. *)
Theorem tomoyo_get_condition_compiles (env : environment)
    (ps ps' : policy_state) (data : list ascii) (ret : option addr)
    (a : addr) (c : struct_tomoyo_condition) :
  Z.of_nat (length (c_string data)) < 65536 ->
  tomoyo_get_condition env ps data = Returns ret ps' ->
  tomoyo_condition_list ps' = (a, c) :: tomoyo_condition_list ps ->
  c = compiled_condition (clauses_of (c_string data))
  /\ ret = Some a /\ kzalloc env = Some a
  /\ length (numbers c) = literal_count (clauses_of (c_string data)).
Proof.
  intros _.
  rewrite tomoyo_get_condition_clauses. intros Hget Hl.
  destruct (get_condition_clauses_inserted _ _ _ _ _ _ _ Hget Hl)
    as (-> & Hr & Hk & Hall).
  split; [reflexivity|]. split; [exact Hr|]. split; [exact Hk|].
  simpl. clear Hget Hl.
  induction Hall as [|w ws Hw _ IH]; simpl; [reflexivity|].
  rewrite length_app, IH. f_equal.
  rewrite Hw. unfold operands_needed, compile_clause, clause_literals.
  destruct (operator_position w) as [[i is_not]|]; simpl; [|reflexivity].
  unfold compile_side.
  destruct (is_literal (clause_left w i)) eqn:El,
    (is_literal (clause_right w i is_not)) eqn:Er; simpl;
    rewrite ?tomoyo_condition_type_keyword; reflexivity.
Qed.

(** Which sides and clauses the second run accepts, as long as it does
    not run out of room. *)
Lemma tomoyo_parse_side_accepts (is_left : bool) (word : list ascii)
    (st : parse_state) (en : struct_tomoyo_condition) :
  entry st = Some en ->
  match tomoyo_parse_side is_left word st with
  | SideOk _ _ => side_accepted is_left word = true
  | SideOut => side_accepted is_left word = false
  | SideOverrun => True
  end.
Proof.
  intros He. unfold tomoyo_parse_side, side_accepted, is_literal.
  rewrite He.
  destruct (is_max_keyword (tomoyo_condition_type word)); [|reflexivity].
  destruct (is_left && Ascii.eqb (hd NUL word) char_at); [reflexivity|].
  destruct (Z.of_nat (length (numbers en)) <? numbers_count en);
    [|exact I].
  destruct (tomoyo_parse_number_union word); reflexivity.
Qed.

Lemma tomoyo_parse_clause_accepts (l r : list ascii) (is_not : bool)
    (st : parse_state) (en : struct_tomoyo_condition) :
  entry st = Some en ->
  match tomoyo_parse_clause l r is_not st with
  | BodyNext _ => side_accepted true l && side_accepted false r = true
  | BodyOut => side_accepted true l && side_accepted false r = false
  | BodyOverrun => True
  end.
Proof.
  intros He. unfold tomoyo_parse_clause.
  pose proof (tomoyo_parse_side_accepts true l st en He) as Hl.
  destruct (tomoyo_parse_side true l st) as [left_ st1| |] eqn:E1;
    [|by rewrite Hl|exact I].
  destruct (tomoyo_parse_side_compile true l st st1 en left_ He E1)
    as (_ & _ & en1 & He1 & _).
  rewrite He1, Hl. simpl.
  match goal with
  | |- context [tomoyo_parse_side false r ?s] =>
      pose proof (tomoyo_parse_side_accepts false r s en1 He1) as Hr;
      destruct (tomoyo_parse_side false r s) as [right_ st2| |] eqn:E2
  end; [|exact Hr|exact I].
  destruct (entry st2); [|exact Hr].
  destruct (_ <? _); [exact Hr|exact I].
Qed.

Lemma parse_clauses_accepts (ws : list (list ascii)) :
  forall (st : parse_state) (en : struct_tomoyo_condition),
    entry st = Some en ->
    match parse_clauses ws st with
    | ClausesDone _ => forallb clause_accepted ws = true
    | ClausesOut => forallb clause_accepted ws = false
    | ClausesOverrun => True
    end.
Proof.
  induction ws as [|w ws IH]; intros st en He; simpl; [reflexivity|].
  destruct (operator_position w) as [[i is_not]|] eqn:Hop.
  2:{ unfold clause_accepted at 1. by rewrite Hop. }
  assert (clause_accepted w
          = side_accepted true (clause_left w i)
            && side_accepted false (clause_right w i is_not)) as ->
    by (unfold clause_accepted; by rewrite Hop).
  pose proof (tomoyo_parse_clause_accepts (clause_left w i)
                (clause_right w i is_not) is_not st en He) as Hw.
  destruct (tomoyo_parse_clause (clause_left w i)
              (clause_right w i is_not) is_not st) as [st1| |] eqn:E;
    [|by rewrite Hw|exact I].
  destruct (tomoyo_parse_clause_compile _ _ _ _ _ _ He E)
    as (_ & en1 & He1 & _).
  rewrite Hw. simpl. by apply (IH st1 en1).
Qed.

(** A commit that takes the lock and is admitted by the quota returns an
    object of the list equal to the candidate. *)
Lemma tomoyo_commit_condition_same (env : environment)
    (ps : policy_state) (a : addr) (en : struct_tomoyo_condition) :
  mutex_lock_interruptible env = false ->
  tomoyo_memory_ok env en = true ->
  exists p c ps',
    tomoyo_commit_condition env ps (a, en) = (Some p, ps')
    /\ (p, c) ∈ tomoyo_condition_list ps'
    /\ tomoyo_same_condition c en = true.
Proof.
  intros Hlock Hok. unfold tomoyo_commit_condition. rewrite Hlock. simpl.
  destruct (tomoyo_condition_list_split (tomoyo_condition_list ps) en)
    as [Hnone|(l1 & p & c & l2 & Hl & Hl1 & Hc)].
  - rewrite (tomoyo_find_condition_none _ _ Hnone), Hok.
    exists a, (set_users en 1). eexists. split; [reflexivity|]. simpl.
    split; [by left|]. apply (tomoyo_same_condition_refl en).
  - rewrite Hl, (tomoyo_find_condition_first l1 l2 p c _ Hl1 Hc).
    exists p, (set_users c (atomic_inc (head_users c))). eexists.
    split; [reflexivity|]. simpl.
    split; [|exact Hc].
    apply elem_of_app. right. by left.
Qed.

(** X15: which lines are accepted.  For a line of fewer than 65536
    characters: if some clause is not accepted (it lacks its operator, a
    literal side is rejected by the literal parser, or the left side is
    a literal that starts with [@]) the call returns NULL and the list is
    unchanged; if every clause is accepted, and the allocation succeeds,
    the lock is taken and the quota admits the compiled object, the call
    returns the address of an object of the list that is equal to the
    compiled form of the line. *)
Theorem tomoyo_get_condition_accepts (env : environment)
    (ps : policy_state) (data : list ascii) :
  Z.of_nat (length (c_string data)) < 65536 ->
  (forallb clause_accepted (clauses_of (c_string data)) = false ->
   exists ps',
     tomoyo_get_condition env ps data = Returns None ps'
     /\ tomoyo_condition_list ps' = tomoyo_condition_list ps)
  /\ (forallb clause_accepted (clauses_of (c_string data)) = true ->
      kzalloc env <> None ->
      mutex_lock_interruptible env = false ->
      tomoyo_memory_ok env
        (set_users (compiled_condition (clauses_of (c_string data))) 0)
      = true ->
      exists p c ps',
        tomoyo_get_condition env ps data = Returns (Some p) ps'
        /\ (p, c) ∈ tomoyo_condition_list ps'
        /\ tomoyo_same_condition c
             (compiled_condition (clauses_of (c_string data))) = true).
Proof.
  intros Hlen. rewrite tomoyo_get_condition_clauses.
  set (ws := clauses_of (c_string data)).
  unfold get_condition_clauses.
  destruct (clauses_of_length (length (c_string data)) (c_string data)
              (le_n _)) as [Hlc Hll].
  fold ws in Hlc, Hll.
  destruct (parse_clauses_dry ws
              {| e_condc := 0; e_numbers_count := 0; entry := None |}
              eq_refl ltac:(simpl; lia) ltac:(simpl; lia))
    as [Hout Hdone].
  destruct (clauses_lack_operator_cases ws) as [Hex|Hno].
  { rewrite (Hout Hex). split; [intros _; by exists ps|].
    intros Hacc. exfalso. rewrite forallb_forall in Hacc.
    apply Exists_exists in Hex as (w & Hw & Hlack).
    apply clause_lacks_operator_iff in Hlack.
    apply list_elem_of_In in Hw. specialize (Hacc w Hw).
    unfold clause_accepted in Hacc. rewrite Hlack in Hacc.
    discriminate. }
  destruct (Hdone Hno) as (st & Edry & _ & Hc & Hn).
  simpl in Hc, Hn.
  rewrite u16_small in Hc by lia. rewrite u16_small in Hn by lia.
  rewrite Edry.
  destruct (kzalloc env) as [a|].
  2:{ split; [intros _; by exists ps|]. intros _ Hk. contradiction. }
  match goal with
  | |- context [parse_clauses ws ?s] =>
      destruct (parse_clauses_build ws s _ eq_refl) as [Hno' _];
      [simpl; lia | simpl; lia |];
      pose proof (parse_clauses_accepts ws s _ eq_refl) as Hacc;
      destruct (parse_clauses ws s) as [st2| |] eqn:Ebuild
  end; [| |contradiction].
  - split; [intros Hf; congruence|].
    intros _ _ Hlock Hok.
    destruct (tomoyo_second_run ws st st2 Edry Ebuild)
      as (en2 & He2 & Hzero & Hcomp & _ & Hu).
    rewrite Hzero, He2. simpl.
    assert (en2 = set_users (compiled_condition ws) 0) as Hen2.
    { rewrite <- Hcomp. destruct en2. simpl in Hu. subst.
      reflexivity. }
    rewrite <- Hen2 in Hok.
    destruct (tomoyo_commit_condition_same env (with_allocated a ps) a
                en2 Hlock Hok) as (p & c & ps' & -> & Hin & Hsame).
    exists p, c, ps'. split; [reflexivity|]. split; [exact Hin|].
    rewrite <- Hcomp. exact Hsame.
  - split; [|intros Ht; congruence].
    intros _. eexists. split; [reflexivity|]. reflexivity.
Qed.

(** The object a scan has found is found again by the next scan for the
    same candidate. *)
Lemma tomoyo_find_condition_again
    (l l' : list (addr * struct_tomoyo_condition))
    (en : struct_tomoyo_condition) (p : addr) :
  tomoyo_find_condition l en = Some (p, l') ->
  exists l'',
    tomoyo_find_condition l' en = Some (p, l'')
    /\ map fst l'' = map fst l'.
Proof.
  revert l'. induction l as [|[q c] l IH]; intros l'; simpl;
    [discriminate|].
  destruct (tomoyo_same_condition c en) eqn:Esame.
  - intros [= <- <-]. simpl.
    change (tomoyo_same_condition
              (set_users c (atomic_inc (head_users c))) en)
      with (tomoyo_same_condition c en).
    rewrite Esame. eexists. split; reflexivity.
  - destruct (tomoyo_find_condition l en) as [[q' l1]|]; [|discriminate].
    intros [= <- <-]. simpl. rewrite Esame.
    destruct (IH l1 eq_refl) as (l'' & -> & Hm).
    eexists. split; [reflexivity|]. simpl. by rewrite Hm.
Qed.

(** The object a commit has returned is the one the next scan for the
    same candidate finds. *)
Lemma tomoyo_commit_condition_found (env : environment)
    (st st' : policy_state) (a p : addr) (en : struct_tomoyo_condition) :
  tomoyo_commit_condition env st (a, en) = (Some p, st') ->
  exists l'',
    tomoyo_find_condition (tomoyo_condition_list st') en = Some (p, l'')
    /\ map fst l'' = map fst (tomoyo_condition_list st').
Proof.
  unfold tomoyo_commit_condition. simpl.
  destruct (mutex_lock_interruptible env); [discriminate|].
  destruct (tomoyo_find_condition (tomoyo_condition_list st) en)
    as [[q l']|] eqn:Efind.
  - intros [= <- <-]. simpl.
    by apply (tomoyo_find_condition_again _ _ _ _ Efind).
  - destruct (tomoyo_memory_ok env en); [|discriminate].
    intros [= <- <-]. simpl.
    change (tomoyo_same_condition (set_users en 1) en)
      with (tomoyo_same_condition en en).
    rewrite tomoyo_same_condition_refl. eexists. split; reflexivity.
Qed.

(** X16: equal lines share one object.  When parsing a line has returned
    an object, parsing the same line again (with the allocation
    succeeding and the lock taken) returns the same address: the second
    block is freed, the objects of the list stay where they are, and the
    quota is not consulted. *)
Theorem tomoyo_get_condition_again (env1 env2 : environment)
    (ps ps1 : policy_state) (data : list ascii) (p a2 : addr) :
  tomoyo_get_condition env1 ps data = Returns (Some p) ps1 ->
  kzalloc env2 = Some a2 ->
  mutex_lock_interruptible env2 = false ->
  exists ps2,
    tomoyo_get_condition env2 ps1 data = Returns (Some p) ps2
    /\ map fst (tomoyo_condition_list ps2)
       = map fst (tomoyo_condition_list ps1)
    /\ allocated ps2 = a2 :: allocated ps1
    /\ kfreed ps2 = a2 :: kfreed ps1.
Proof.
  rewrite !tomoyo_get_condition_clauses.
  set (ws := clauses_of (c_string data)).
  unfold get_condition_clauses.
  intros Hget Hk Hlock. rewrite Hk. revert Hget.
  destruct (parse_clauses ws _) as [st| |] eqn:Edry;
    [|discriminate|discriminate].
  destruct (kzalloc env1) as [a1|]; [|discriminate].
  match goal with
  | |- context [parse_clauses ws ?s] =>
      destruct (parse_clauses ws s) as [st2| |] eqn:Ebuild
  end; [|discriminate|discriminate].
  destruct (tomoyo_second_run ws st st2 Edry Ebuild)
    as (en2 & He2 & Hzero & _).
  rewrite Hzero, He2. simpl.
  destruct (tomoyo_commit_condition env1 (with_allocated a1 ps) (a1, en2))
    as [ret1 ps1'] eqn:Ecommit.
  intros [= -> ->].
  destruct (tomoyo_commit_condition_found _ _ _ _ _ _ Ecommit)
    as (l'' & Hfind & Hm).
  unfold tomoyo_commit_condition. simpl. rewrite Hlock, Hfind.
  eexists. split; [reflexivity|]. simpl. by repeat split.
Qed.

Lemma tomoyo_same_condition_sym (a b : struct_tomoyo_condition) :
  tomoyo_same_condition a b = tomoyo_same_condition b a.
Proof.
  unfold tomoyo_same_condition.
  rewrite (Z.eqb_sym (size b)), (Z.eqb_sym (condc b)),
    (Z.eqb_sym (numbers_count b)).
  destruct (Z.eqb_spec (size a) (size b)) as [Hs|]; [|reflexivity].
  rewrite Hs, memcmp_sym. reflexivity.
Qed.

Lemma tomoyo_find_condition_absent
    (l : list (addr * struct_tomoyo_condition))
    (en : struct_tomoyo_condition) :
  tomoyo_find_condition l en = None ->
  Forall (fun x => tomoyo_same_condition (snd x) en = false) l.
Proof.
  induction l as [|[q c] l IH]; simpl; [constructor|].
  destruct (tomoyo_same_condition c en) eqn:Esame; [discriminate|].
  destruct (tomoyo_find_condition l en) as [[q' l'']|]; [discriminate|].
  intros _. constructor; [exact Esame | by apply IH].
Qed.

(** The increment of a user count does not change which objects are
    equal to a given one. *)
Lemma tomoyo_find_condition_differs
    (l l' : list (addr * struct_tomoyo_condition))
    (en c0 : struct_tomoyo_condition) (p : addr) :
  tomoyo_find_condition l en = Some (p, l') ->
  Forall (fun y => tomoyo_same_condition c0 (snd y) = false) l ->
  Forall (fun y => tomoyo_same_condition c0 (snd y) = false) l'.
Proof.
  revert l'. induction l as [|[q c] l IH]; intros l'; simpl;
    [discriminate|].
  destruct (tomoyo_same_condition c en).
  - intros [= <- <-] Hall. inversion Hall as [|? ? Hc Hl]; subst.
    constructor; [exact Hc | exact Hl].
  - destruct (tomoyo_find_condition l en) as [[q' l'']|]; [|discriminate].
    intros [= <- <-] Hall. inversion Hall as [|? ? Hc Hl]; subst.
    constructor; [exact Hc | by apply IH].
Qed.

Lemma tomoyo_find_condition_distinct
    (l l' : list (addr * struct_tomoyo_condition))
    (en : struct_tomoyo_condition) (p : addr) :
  tomoyo_find_condition l en = Some (p, l') ->
  pairwise_distinct l -> pairwise_distinct l'.
Proof.
  revert l'. induction l as [|[q c] l IH]; intros l'; simpl;
    [discriminate|].
  destruct (tomoyo_same_condition c en).
  - intros [= <- <-] [Hc Hl]. split; [exact Hc | exact Hl].
  - destruct (tomoyo_find_condition l en) as [[q' l'']|] eqn:Efind;
      [|discriminate].
    intros [= <- <-] [Hc Hl]. split; [|by apply IH].
    by apply (tomoyo_find_condition_differs _ _ _ _ _ Efind).
Qed.

Lemma tomoyo_commit_condition_keeps_distinct (env : environment)
    (st : policy_state) (entry : addr * struct_tomoyo_condition) :
  pairwise_distinct (tomoyo_condition_list st) ->
  pairwise_distinct
    (tomoyo_condition_list (snd (tomoyo_commit_condition env st entry))).
Proof.
  intros Hd. unfold tomoyo_commit_condition.
  destruct (mutex_lock_interruptible env); [exact Hd|].
  destruct (tomoyo_find_condition (tomoyo_condition_list st) (snd entry))
    as [[p l']|] eqn:Efind.
  - simpl. by apply (tomoyo_find_condition_distinct _ _ _ _ Efind).
  - destruct (tomoyo_memory_ok env (snd entry)); [|exact Hd].
    simpl. split; [|exact Hd].
    apply tomoyo_find_condition_absent in Efind.
    eapply Forall_impl; [exact Efind|].
    intros y Hy. simpl in Hy.
    change (tomoyo_same_condition (snd entry) (snd y) = false).
    by rewrite tomoyo_same_condition_sym.
Qed.

(** X17: interning keeps the list free of duplicates.  If no two objects
    of [tomoyo_condition_list] are equal for [tomoyo_same_condition],
    this still holds after any commit, whatever the candidate, the lock
    and the quota, and after any call of [tomoyo_get_condition] that
    returns. *)
Theorem tomoyo_condition_list_distinct (env : environment)
    (ps : policy_state) :
  pairwise_distinct (tomoyo_condition_list ps) ->
  (forall entry : addr * struct_tomoyo_condition,
      pairwise_distinct
        (tomoyo_condition_list
           (snd (tomoyo_commit_condition env ps entry))))
  /\ (forall (data : list ascii) (ret : option addr) (ps' : policy_state),
         tomoyo_get_condition env ps data = Returns ret ps' ->
         pairwise_distinct (tomoyo_condition_list ps')).
Proof.
  intros Hd. split.
  { intros entry. by apply tomoyo_commit_condition_keeps_distinct. }
  intros data ret ps'. rewrite tomoyo_get_condition_clauses.
  set (ws := clauses_of (c_string data)).
  unfold get_condition_clauses.
  destruct (parse_clauses ws _) as [st| |];
    [|by intros [= <- <-]|discriminate].
  destruct (kzalloc env) as [a|]; [|by intros [= <- <-]].
  match goal with
  | |- context [parse_clauses ws ?s] =>
      destruct (parse_clauses ws s) as [st2| |]
  end; [|by intros [= <- <-]|discriminate].
  destruct (_ =? 0); [|discriminate].
  destruct (entry st2) as [en2|]; [|discriminate].
  pose proof (tomoyo_commit_condition_keeps_distinct env
                (with_allocated a ps) (a, en2) Hd) as Hd'.
  destruct (tomoyo_commit_condition env (with_allocated a ps) (a, en2))
    as [ret0 ps0].
  intros [= <- <-]. exact Hd'.
Qed.

End ParserExtras.

(** ** From the line of policy to the verdict *)

Section EndToEnd.
Context `{Collaborators}.

(** The tests of a clause look at the operands of the clause only: what
    follows them in the array is handed on untouched. *)
Lemma tomoyo_compare_app (c : tomoyo_condition_element) (v0 v1 : Z)
    (ops rest : list tomoyo_number_union) :
  length ops = operands_needed c ->
  tomoyo_compare c v0 v1 (ops ++ rest)
  = match tomoyo_compare c v0 v1 ops with
    | Continue _ => Continue rest
    | r => r
    end.
Proof.
  unfold tomoyo_compare, tomoyo_fetch_left, operands_needed.
  destruct (is_number_union (left c)), (is_number_union (right c));
    destruct ops as [|n1 [|n2 [|n3 ops]]]; simpl; try discriminate;
    intros _;
    repeat case_match; simplify_eq; reflexivity.
Qed.

Lemma tomoyo_condition_clause_app (cur : task_struct)
    (o : option tomoyo_obj_info) (ops rest : list tomoyo_number_union)
    (c : tomoyo_condition_element) :
  length ops = operands_needed c ->
  snd (tomoyo_condition_clause cur o (ops ++ rest) c)
  = match snd (tomoyo_condition_clause cur o ops c) with
    | Continue _ => Continue rest
    | r => r
    end.
Proof.
  intros Hlen. rewrite !tomoyo_condition_clause_value.
  destruct (snd (tomoyo_side_value cur o (left c))); [|reflexivity].
  destruct (snd (tomoyo_side_value cur o (right c))); [|reflexivity].
  by apply tomoyo_compare_app.
Qed.

Lemma forallb_pointwise {A : Type} (f g : A -> bool) (l : list A) :
  (forall x, f x = g x) -> forallb f l = forallb g l.
Proof.
  intros E. induction l as [|x l IH]; simpl; [reflexivity|].
  by rewrite E, IH.
Qed.

(** The clause loop over compiled clauses: the verdict is the conjunction
    of the clauses, each judged with its own operands. *)
Lemma tomoyo_condition_loop_compiled (cur : task_struct)
    (ws : list (list ascii)) :
  forall (o : option tomoyo_obj_info) (rest : list tomoyo_number_union),
    Forall (fun w => length (clause_operands w)
                     = operands_needed (compile_clause w)) ws ->
    snd (tomoyo_condition_loop cur (length ws) o (map compile_clause ws)
           (flat_map clause_operands ws ++ rest))
    = Some (forallb
              (fun w => clause_succeeds cur o (clause_operands w)
                          (compile_clause w)) ws).
Proof.
  induction ws as [|w ws IH]; intros o rest Hall; [reflexivity|].
  inversion Hall as [|? ? Hw Hws]; subst.
  simpl. rewrite <- app_assoc.
  pose proof (tomoyo_condition_clause_app cur o (clause_operands w)
                (flat_map clause_operands ws ++ rest) (compile_clause w) Hw)
    as Happ.
  pose proof (tomoyo_condition_clause_obj cur o
                (clause_operands w ++ flat_map clause_operands ws ++ rest)
                (compile_clause w)) as Hobj.
  pose proof (tomoyo_condition_clause_reads cur o (clause_operands w)
                (compile_clause w) ltac:(lia)) as Hreads.
  unfold clause_succeeds at 1.
  destruct (tomoyo_condition_clause cur o
              (clause_operands w ++ flat_map clause_operands ws ++ rest)
              (compile_clause w)) as [o' res].
  simpl in Happ, Hobj. subst res.
  destruct (snd (tomoyo_condition_clause cur o (clause_operands w)
                   (compile_clause w))) as [rest'| |]; simpl;
    [|reflexivity|contradiction].
  rewrite (IH o' rest Hws). f_equal.
  destruct Hobj as [->| ->]; [reflexivity|].
  apply forallb_pointwise. intros x. apply clause_succeeds_resolved.
Qed.

(** X13: the evaluator never reads past the arrays of a condition the
    parser stored from a line of fewer than 65536 characters (so that
    the 16-bit counters of the dry run cannot wrap).  If every condition
    of the list announces no more clauses and operand selectors than its
    arrays hold, a call of [tomoyo_get_condition] on such a line that
    returns leaves the list in the same state, and then every condition
    of the list is evaluated to a verdict, for any task and any
    request. *)
Theorem tomoyo_get_condition_evaluable (env : environment)
    (ps ps' : policy_state) (data : list ascii) (ret : option addr) :
  Z.of_nat (length (c_string data)) < 65536 ->
  Forall (fun x => arrays_complete (snd x)) (tomoyo_condition_list ps) ->
  tomoyo_get_condition env ps data = Returns ret ps' ->
  Forall (fun x => arrays_complete (snd x)) (tomoyo_condition_list ps')
  /\ forall (p : addr) (c : struct_tomoyo_condition) (cur : task_struct)
       (r : tomoyo_request_info),
       (p, c) ∈ tomoyo_condition_list ps' ->
       exists b, snd (tomoyo_condition cur r (Some c)) = Some b.
Proof.
  intros _.
  intros Hall Hget.
  pose proof (tomoyo_get_condition_complete env ps ps' data ret Hall Hget)
    as Hall'.
  split; [exact Hall'|].
  intros p c cur r Hin. rewrite Forall_forall in Hall'.
  destruct (Hall' _ Hin) as [Hc Hn]. simpl in Hc, Hn.
  unfold tomoyo_condition. rewrite Hc, Nat2Z.id.
  destruct (tomoyo_condition_loop_spec cur (condition c) (obj r)
              (numbers c) Hn) as (b & Hb & _).
  exists b.
  destruct (tomoyo_condition_loop cur (length (condition c)) (obj r)
              (condition c) (numbers c)) as [o' b'].
  exact Hb.
Qed.

(** X14: from the line to the verdict, for a line of fewer than 65536
    characters (so that the 16-bit counters of the dry run cannot wrap).
    A condition that a call of [tomoyo_get_condition] on such a line has
    just put at the head of the list is judged, for any task and
    request, as the conjunction of the clauses of the line, in order:
    each clause is compared with the operands of its own literal sides,
    whatever the clauses before it consumed. *)
Theorem tomoyo_get_condition_judged (env : environment)
    (ps ps' : policy_state) (data : list ascii) (ret : option addr)
    (a : addr) (c : struct_tomoyo_condition)
    (cur : task_struct) (r : tomoyo_request_info) :
  Z.of_nat (length (c_string data)) < 65536 ->
  tomoyo_get_condition env ps data = Returns ret ps' ->
  tomoyo_condition_list ps' = (a, c) :: tomoyo_condition_list ps ->
  snd (tomoyo_condition cur r (Some c))
  = Some (forallb
            (fun w => clause_succeeds cur (obj r) (clause_operands w)
                        (compile_clause w))
            (clauses_of (c_string data))).
Proof.
  intros _.
  rewrite tomoyo_get_condition_clauses. intros Hget Hl.
  destruct (get_condition_clauses_inserted _ _ _ _ _ _ _ Hget Hl)
    as (-> & _ & _ & Hall).
  set (ws := clauses_of (c_string data)) in *.
  pose proof (tomoyo_condition_loop_compiled cur ws (obj r) [] Hall) as Hloop.
  rewrite app_nil_r in Hloop.
  unfold tomoyo_condition, compiled_condition. simpl.
  rewrite Nat2Z.id.
  destruct (tomoyo_condition_loop cur (length ws) (obj r)
              (map compile_clause ws) (flat_map clause_operands ws))
    as [o' b'].
  exact Hloop.
Qed.

End EndToEnd.

(** ** The further properties on the example data *)

Lemma tomoyo_condition_type_lookup_witness :
  tomoyo_condition_type (H := example_collaborators)
    (list_ascii_of_string "path1.parent.uid")
  = TOMOYO_PATH1_PARENT_UID.
Proof.
  refine (proj2 (proj2 (proj2
            (@tomoyo_condition_type_lookup example_collaborators [])))
            _ TOMOYO_PATH1_PARENT_UID _).
  - intros i j Hi Hj E. simpl in E.
    destruct i, j; try reflexivity; try discriminate E;
      exfalso; apply list_elem_of_In in Hi; simpl in Hi;
      intuition discriminate.
  - apply list_elem_of_In. simpl. tauto.
Defined.

Lemma tomoyo_dry_run_outcome_witness :
  tomoyo_dry_run (H := example_collaborators)
    (list_ascii_of_string "task.uid=0 task.gid==0") = GotoOut
  /\ exists b st,
       tomoyo_dry_run (H := example_collaborators) example_expression
       = LoopBreak b st
       /\ length b = length (c_string example_expression)
       /\ entry st = None
       /\ e_condc st
          = u16 (Z.of_nat (length (clauses_of
                                     (c_string example_expression))))
       /\ e_numbers_count st
          = u16 (Z.of_nat
                   (literal_count (H := example_collaborators)
                      (clauses_of (c_string example_expression)))).
Proof.
  split.
  - apply (proj1 (@tomoyo_dry_run_outcome example_collaborators
                    (list_ascii_of_string "task.uid=0 task.gid==0"))).
    apply Exists_cons_tl, Exists_cons_hd.
    right. right. exists 7%nat.
    split; [reflexivity | split; [discriminate | reflexivity]].
  - apply (proj2 (@tomoyo_dry_run_outcome example_collaborators
                    example_expression)).
    repeat constructor; rewrite clause_lacks_operator_iff; discriminate.
Defined.

Lemma tomoyo_get_condition_accounting_witness :
  exists ret ps',
    tomoyo_get_condition (H := example_collaborators) example_environment
      example_policy example_expression
    = Returns ret ps'
    /\ ((ret = None /\ ps' = example_policy)
        \/ exists a,
             kzalloc example_environment = Some a
             /\ allocated ps' = a :: allocated example_policy
             /\ ((ret = None
                  /\ kfreed ps' = a :: kfreed example_policy
                  /\ tomoyo_condition_list ps'
                     = tomoyo_condition_list example_policy)
                 \/ (kfreed ps' = a :: kfreed example_policy
                     /\ map fst (tomoyo_condition_list ps')
                        = map fst (tomoyo_condition_list example_policy))
                 \/ (ret = Some a
                     /\ kfreed ps' = kfreed example_policy
                     /\ exists c,
                          tomoyo_condition_list ps'
                          = (a, c)
                            :: tomoyo_condition_list example_policy))).
Proof.
  apply (proj2 (proj2 (@tomoyo_get_condition_accounting
                         example_collaborators example_environment
                         example_policy example_expression))).
  reflexivity.
Defined.

Lemma tomoyo_get_condition_compiles_witness :
  example_compiled
  = compiled_condition (H := example_collaborators)
      (clauses_of (c_string example_expression))
  /\ Some 7%nat = Some 7%nat
  /\ kzalloc example_environment = Some 7%nat
  /\ length (numbers example_compiled)
     = literal_count (H := example_collaborators)
         (clauses_of (c_string example_expression)).
Proof.
  apply (@tomoyo_get_condition_compiles example_collaborators
           example_environment empty_policy example_parsed_policy
           example_expression (Some 7%nat) 7%nat example_compiled);
    reflexivity.
Defined.

Lemma tomoyo_get_condition_evaluable_witness :
  Forall (fun x => arrays_complete (snd x))
    (tomoyo_condition_list example_grown_policy)
  /\ forall (p : addr) (c : struct_tomoyo_condition) (cur : task_struct)
       (r : tomoyo_request_info),
       (p, c) ∈ tomoyo_condition_list example_grown_policy ->
       exists b,
         snd (tomoyo_condition (H := example_collaborators) cur r (Some c))
         = Some b.
Proof.
  apply (@tomoyo_get_condition_evaluable example_collaborators
           example_environment example_policy example_grown_policy
           example_expression (Some 7%nat)).
  - reflexivity.
  - repeat constructor.
  - reflexivity.
Defined.

Lemma tomoyo_get_condition_judged_witness :
  snd (tomoyo_condition (H := example_collaborators) (example_task 0)
         example_request (Some example_compiled))
  = Some (forallb
            (fun w =>
               clause_succeeds (H := example_collaborators) (example_task 0)
                 (obj example_request)
                 (clause_operands (H := example_collaborators) w)
                 (compile_clause (H := example_collaborators) w))
            (clauses_of (c_string example_expression))).
Proof.
  apply (@tomoyo_get_condition_judged example_collaborators
           example_environment empty_policy example_parsed_policy
           example_expression (Some 7%nat) 7%nat example_compiled);
    reflexivity.
Defined.

Lemma tomoyo_get_condition_accepts_witness :
  (exists ps',
     tomoyo_get_condition (H := example_collaborators) example_environment
       example_policy (list_ascii_of_string "task.uid=0 task.gid=x")
     = Returns None ps'
     /\ tomoyo_condition_list ps' = tomoyo_condition_list example_policy)
  /\ exists p c ps',
       tomoyo_get_condition (H := example_collaborators)
         example_environment example_policy example_expression
       = Returns (Some p) ps'
       /\ (p, c) ∈ tomoyo_condition_list ps'
       /\ tomoyo_same_condition (H := example_collaborators) c
            (compiled_condition (H := example_collaborators)
               (clauses_of (c_string example_expression))) = true.
Proof.
  split.
  - apply (proj1 (@tomoyo_get_condition_accepts example_collaborators
                    example_environment example_policy
                    (list_ascii_of_string "task.uid=0 task.gid=x")
                    eq_refl)).
    reflexivity.
  - apply (proj2 (@tomoyo_get_condition_accepts example_collaborators
                    example_environment example_policy example_expression
                    eq_refl));
      [reflexivity | discriminate | reflexivity | reflexivity].
Defined.

Lemma tomoyo_get_condition_again_witness :
  exists ps2,
    tomoyo_get_condition (H := example_collaborators) second_environment
      example_parsed_policy example_expression
    = Returns (Some 7%nat) ps2
    /\ map fst (tomoyo_condition_list ps2)
       = map fst (tomoyo_condition_list example_parsed_policy)
    /\ allocated ps2 = 9%nat :: allocated example_parsed_policy
    /\ kfreed ps2 = 9%nat :: kfreed example_parsed_policy.
Proof.
  apply (@tomoyo_get_condition_again example_collaborators
           example_environment second_environment empty_policy
           example_parsed_policy example_expression 7%nat 9%nat);
    reflexivity.
Defined.

Lemma tomoyo_condition_list_distinct_witness :
  (forall entry : addr * struct_tomoyo_condition,
      pairwise_distinct (H := example_collaborators)
        (tomoyo_condition_list
           (snd (tomoyo_commit_condition (H := example_collaborators)
                   example_environment example_policy entry))))
  /\ (forall (data : list ascii) (ret : option addr) (ps' : policy_state),
         tomoyo_get_condition (H := example_collaborators)
           example_environment example_policy data
         = Returns ret ps' ->
         pairwise_distinct (H := example_collaborators)
           (tomoyo_condition_list ps')).
Proof.
  apply (@tomoyo_condition_list_distinct example_collaborators
           example_environment example_policy).
  simpl. repeat constructor.
Defined.

(** ** Failure of the parser *)
Section ParseFailureExits.
Context `{Collaborators}.



End ParseFailureExits.

